(** * SimpleDB: a shallow embedding of the table engine, the value layer,
      the statement parser and the executor

    The development follows the Python sources module by module:
    - [Py]          the built-ins the code relies on ([str.strip], [int()],
                    [float()], [str()], [==], dictionaries keyed by values);
    - [Types]       src/types.py ([validate_type], [convert_value],
                    [get_python_type]);
    - [QueryParser] src/parser.py ([_parse_single_value], [_parse_values],
                    [_parse_where]);
    - [Table]       src/table.py ([insert], [select], [update], [delete],
                    [_rebuild_indexes]);
    - [SimpleDB]    src/database.py ([create_table], [get_table], the handlers
                    of the statements and the routing of [execute]);
    - [Re], [Str]   the built-ins of the statement parser ([re.match] on its
                    patterns, [str.split], [str.upper]);
    - [Statements]  src/parser.py ([parse] and the parsers of the five
                    statements);
    - [execute]     src/database.py ([SimpleDB.execute], parsing included).

    Conventions.
    - A Python [str] is a [string]; its characters are the code points
      below 256.
    - A value is an integer, a float or a text.  Integers are unbounded
      (the runtime's limit of 4300 digits on a conversion between [int]
      and [str] is not part of [str_of_int] and [int_of_text]; it is
      [within_digit_limit]).  Floats are the finite binary floats, the two
      zeros and the two infinities.  NaN is not a value of the model: a
      dictionary finds a NaN key by object identity only, which a
      structural value cannot carry.
    - A function that can let an exception escape returns an [outcome];
      a method that mutates its table returns the new table next to it. *)

From Stdlib Require Import ZArith String Ascii List Bool Lia DecimalString.
From Stdlib Require Import DecimalPos DecimalZ.
From stdpp Require Import gmap strings list sorting.

Set Default Proof Using "Type".

(* ===================================================================== *)
(** * Python built-ins                                                     *)
(* ===================================================================== *)

Module Py.

(** ** Characters *)

Definition code (c : ascii) : nat := nat_of_ascii c.

Definition dquote : ascii := ascii_of_nat 34.
Definition squote : ascii := ascii_of_nat 39.
Definition newline : ascii := ascii_of_nat 10.

(** [str.isspace] on one character, also the class [\s] of [re]:
    TAB..CR, FS..US, space, NEL and the no-break space. *)
Definition is_space (c : ascii) : bool :=
  let n := code c in
  ((9 <=? n) && (n <=? 13)) || ((28 <=? n) && (n <=? 32))
  || (n =? 133) || (n =? 160).

Definition is_digit (c : ascii) : bool :=
  let n := code c in (48 <=? n) && (n <=? 57).

(** The class [\w] of [re] on a [str] pattern: alphanumeric or underscore. *)
Definition is_word (c : ascii) : bool :=
  let n := code c in
  is_digit c
  || ((65 <=? n) && (n <=? 90)) || ((97 <=? n) && (n <=? 122)) || (n =? 95)
  || (n =? 170) || (n =? 178) || (n =? 179) || (n =? 181) || (n =? 185)
  || (n =? 186) || ((188 <=? n) && (n <=? 190))
  || ((192 <=? n) && (n <=? 214)) || ((216 <=? n) && (n <=? 246))
  || (248 <=? n).

(** ** Strings *)

Fixpoint lstrip_chars (l : list ascii) : list ascii :=
  match l with
  | [] => []
  | c :: l' => if is_space c then lstrip_chars l' else l
  end.

Fixpoint rstrip_chars (l : list ascii) : list ascii :=
  match l with
  | [] => []
  | c :: l' =>
      match rstrip_chars l' with
      | [] => if is_space c then [] else [c]
      | r => c :: r
      end
  end.

Definition strip_chars (l : list ascii) : list ascii :=
  rstrip_chars (lstrip_chars l).

(** [s.strip()] *)
Definition strip (s : string) : string :=
  string_of_list_ascii (strip_chars (list_ascii_of_string s)).

(** [s.startswith(c)] and [s.endswith(c)] for a one-character [c]. *)
Definition startswith (s : string) (c : ascii) : bool :=
  match list_ascii_of_string s with
  | x :: _ => Ascii.eqb x c
  | [] => false
  end.

Definition endswith (s : string) (c : ascii) : bool :=
  match rev (list_ascii_of_string s) with
  | x :: _ => Ascii.eqb x c
  | [] => false
  end.

(** [s[1:-1]] *)
Definition slice_1_m1 (s : string) : string :=
  string_of_list_ascii (removelast (tail (list_ascii_of_string s))).

(** The upper case of the letters a..z.  [str.upper] maps no other
    character below 256 to a string of the letters A..Z that occurs in a
    type name of the code (sharp s becomes SS), so comparing the result with
    such a name agrees with Python.  (A conversion error shows the type
    name in upper case; for a name with other letters its text differs
    from this one in those letters.) *)
Definition upper_char (c : ascii) : ascii :=
  let n := code c in
  if (97 <=? n) && (n <=? 122) then ascii_of_nat (n - 32) else c.

Definition upper (s : string) : string :=
  string_of_list_ascii (map upper_char (list_ascii_of_string s)).

(** [str(n)] for an integer, as the runtime gives it up to 4300 digits;
    for a longer one the runtime raises [ValueError]. *)
Definition str_of_int (z : Z) : string := NilZero.string_of_int (Z.to_int z).

Definition str_of_nat (n : nat) : string := str_of_int (Z.of_nat n).

(** [repr(s)] for a text: quoted with the single quote unless the text has
    one and no double quote; backslash, the quote, TAB, LF and CR escaped;
    the other unprintable characters written \xNN. *)
Definition hex_digit (n : nat) : ascii :=
  if n <? 10 then ascii_of_nat (48 + n) else ascii_of_nat (87 + n).

Definition printable (c : ascii) : bool :=
  let n := code c in
  ((32 <=? n) && (n <=? 126)) || ((161 <=? n) && negb (n =? 173)).

Definition repr_char (q c : ascii) : list ascii :=
  let n := code c in
  if Ascii.eqb c "\"%char then ["\"; "\"]%char
  else if Ascii.eqb c q then ["\"%char; q]
  else if n =? 9 then ["\"; "t"]%char
  else if n =? 10 then ["\"; "n"]%char
  else if n =? 13 then ["\"; "r"]%char
  else if printable c then [c]
  else ["\"; "x"; hex_digit (n / 16); hex_digit (n mod 16)]%char.

Definition repr_text (s : string) : string :=
  let l := list_ascii_of_string s in
  let q := if existsb (Ascii.eqb squote) l && negb (existsb (Ascii.eqb dquote) l)
           then dquote else squote in
  string_of_list_ascii (q :: concat (map (repr_char q) l) ++ [q]).

(** ** Exceptions and outcomes *)

(** The exceptions that can escape the modelled functions. *)
Inductive exn := KeyError | IndexError | OverflowError.

Inductive outcome (A : Type) :=
  | Returned (a : A)
  | Raised (e : exn).
Arguments Returned {A} a.
Arguments Raised {A} e.

(** ** Integers from text *)

Definition digit_value (c : ascii) : Z := Z.of_nat (code c - 48).

(** The characters after a digit: more digits, each optionally preceded by
    one underscore. *)
Fixpoint int_digits (l : list ascii) (acc : Z) : option Z :=
  match l with
  | [] => Some acc
  | c :: l' =>
      if is_digit c then int_digits l' (10 * acc + digit_value c)%Z
      else if Ascii.eqb c "_"%char then
        match l' with
        | d :: l'' =>
            if is_digit d then int_digits l'' (10 * acc + digit_value d)%Z
            else None
        | [] => None
        end
      else None
  end.

Definition int_unsigned (l : list ascii) : option Z :=
  match l with
  | d :: l' => if is_digit d then int_digits l' (digit_value d) else None
  | [] => None
  end.

(** The blanks [int()] skips around a literal: those of [str.isspace]
    except FS..US. *)
Definition literal_blank (c : ascii) : bool :=
  is_space c && negb ((28 <=? code c) && (code c <=? 31)).

Fixpoint skip_blanks (l : list ascii) : list ascii :=
  match l with
  | [] => []
  | c :: l' => if literal_blank c then skip_blanks l' else l
  end.

Definition trim_literal (l : list ascii) : list ascii :=
  rev (skip_blanks (rev (skip_blanks l))).

(** [int(s)] for a text in base 10; [None] is [ValueError].  The runtime
    also raises [ValueError] for a text of more than 4300 digits. *)
Definition int_of_text (s : string) : option Z :=
  match trim_literal (list_ascii_of_string s) with
  | c :: l =>
      if Ascii.eqb c "-"%char then Z.opp <$> int_unsigned l
      else if Ascii.eqb c "+"%char then int_unsigned l
      else int_unsigned (c :: l)
  | [] => None
  end.

(** ** Floats *)

(** [FFinite neg m e] is [(-1)^neg * m * 2^e]. *)
Inductive pyfloat :=
  | FZero (neg : bool)
  | FInf (neg : bool)
  | FFinite (neg : bool) (m : positive) (e : Z).

Definition signed (neg : bool) (m : positive) : Z :=
  if neg then Z.neg m else Z.pos m.

(** [float(n)] for an integer: the nearest double, ties to even;
    [None] is [OverflowError]. *)
Definition float_of_int (z : Z) : option pyfloat :=
  if (z =? 0)%Z then Some (FZero false)
  else
    let a := Z.abs z in
    let bits := (Z.log2 a + 1)%Z in
    if (bits <=? 53)%Z then Some (FFinite (z <? 0)%Z (Z.to_pos a) 0)
    else
      let sh := (bits - 53)%Z in
      let q := Z.shiftr a sh in
      let r := Z.land a (Z.ones sh) in
      let half := (2 ^ (sh - 1))%Z in
      let q' := if (half <? r)%Z || ((r =? half)%Z && Z.odd q)
                then (q + 1)%Z else q in
      if (2 ^ 1024 <=? q' * 2 ^ sh)%Z then None
      else Some (FFinite (z <? 0)%Z (Z.to_pos q') sh).

(** [int(x)] for a float: truncation; [None] is [OverflowError]
    (an infinity). *)
Definition int_of_float (f : pyfloat) : option Z :=
  match f with
  | FZero _ => Some 0%Z
  | FInf _ => None
  | FFinite neg m e =>
      if (0 <=? e)%Z then Some (signed neg m * 2 ^ e)%Z
      else Some (Z.quot (signed neg m) (2 ^ (- e)))
  end.

(** ** Values and their equality *)

Inductive value :=
  | VInt (z : Z)
  | VFloat (f : pyfloat)
  | VText (s : string).

(** The number a numeric value denotes: [m * 2^e], or an infinity. *)
Inductive number :=
  | Dyadic (m e : Z)
  | Infinite (neg : bool).

Definition float_number (f : pyfloat) : number :=
  match f with
  | FZero _ => Dyadic 0 0
  | FInf neg => Infinite neg
  | FFinite neg m e => Dyadic (signed neg m) e
  end.

Definition dyadic_eqb (m1 e1 m2 e2 : Z) : bool :=
  let k := Z.min e1 e2 in
  (m1 * 2 ^ (e1 - k) =? m2 * 2 ^ (e2 - k))%Z.

Definition number_eqb (a b : number) : bool :=
  match a, b with
  | Dyadic m1 e1, Dyadic m2 e2 => dyadic_eqb m1 e1 m2 e2
  | Infinite s1, Infinite s2 => Bool.eqb s1 s2
  | _, _ => false
  end.

(** [a == b]: numbers compare by the number they denote, whatever their
    type (so [1 == 1.0]); texts compare as texts; a text never equals a
    number. *)
Definition py_eq (a b : value) : bool :=
  match a, b with
  | VInt x, VInt y => (x =? y)%Z
  | VInt x, VFloat g => number_eqb (Dyadic x 0) (float_number g)
  | VFloat f, VInt y => number_eqb (float_number f) (Dyadic y 0)
  | VFloat f, VFloat g => number_eqb (float_number f) (float_number g)
  | VText s, VText t => String.eqb s t
  | _, _ => false
  end.

(** ** The conversions between floats and text

    [float(s)] on a text and [str(x)] on a float are the Python runtime's
    own (the grammar of float literals, correct rounding, the shortest
    representation that reads back); the code only calls them, and the
    development takes them as given. *)
Class FloatText := {
  float_of_text : string -> option pyfloat;   (* [None] is [ValueError] *)
  text_of_float : pyfloat -> string
}.

(** [str(v)], also the rendering of [v] inside an f-string. *)
Definition str `{FloatText} (v : value) : string :=
  match v with
  | VInt z => str_of_int z
  | VFloat f => text_of_float f
  | VText s => s
  end.

(** ** Dictionaries keyed by values

    Entries in insertion order; keys are compared with [==]. *)
Definition dict := list (value * nat).

Fixpoint dict_get (d : dict) (k : value) : option nat :=
  match d with
  | [] => None
  | (k', v) :: d' => if py_eq k' k then Some v else dict_get d' k
  end.

(** [k in d] *)
Definition dict_mem (k : value) (d : dict) : bool :=
  match dict_get d k with Some _ => true | None => false end.

(** [d[k] = v] *)
Fixpoint dict_set (d : dict) (k : value) (v : nat) : dict :=
  match d with
  | [] => [(k, v)]
  | (k', v') :: d' =>
      if py_eq k' k then (k', v) :: d' else (k', v') :: dict_set d' k v
  end.

(** [del d[k]] for a key that is present. *)
Fixpoint dict_del (d : dict) (k : value) : dict :=
  match d with
  | [] => []
  | (k', v') :: d' => if py_eq k' k then d' else (k', v') :: dict_del d' k
  end.

End Py.

Import Py.

(* ===================================================================== *)
(** * src/types.py                                                         *)
(* ===================================================================== *)

Module Types.

(** What a call of [convert_value] does: it returns the converted value,
    raises the [ValueError] it builds, or lets an [OverflowError] of
    [int()] or [float()] escape (its handler names [ValueError] and
    [TypeError] only). *)
Inductive conversion :=
  | Converted (v : value)
  | ValueError (message : string)
  | Escaped (e : exn).

Definition text_types : list string := ["TEXT"; "VARCHAR"; "CHAR"; "STRING"].
Definition float_types : list string := ["FLOAT"; "REAL"; "DOUBLE"].

Definition convert_value `{FloatText} (v : value) (type_name : string)
  : conversion :=
  let type_name := upper type_name in
  let failed (e : string) :=
    ValueError ("Cannot convert '" +:+ str v +:+ "' to " +:+ type_name
                +:+ ": " +:+ e) in
  if String.eqb type_name "INT" then
    match v with
    | VInt z => Converted (VInt z)
    | VFloat f =>
        match int_of_float f with
        | Some z => Converted (VInt z)
        | None => Escaped OverflowError
        end
    | VText s =>
        match int_of_text s with
        | Some z => Converted (VInt z)
        | None =>
            failed ("invalid literal for int() with base 10: " +:+ repr_text s)
        end
    end
  else if existsb (String.eqb type_name) text_types then
    Converted (VText (str v))
  else if existsb (String.eqb type_name) float_types then
    match v with
    | VInt z =>
        match float_of_int z with
        | Some f => Converted (VFloat f)
        | None => Escaped OverflowError
        end
    | VFloat f => Converted (VFloat f)
    | VText s =>
        match float_of_text s with
        | Some f => Converted (VFloat f)
        | None => failed ("could not convert string to float: " +:+ repr_text s)
        end
    end
  else Converted v.

(** The Python types [get_python_type] names. *)
Inductive py_type := PyInt | PyStr | PyFloat | PyObject.

(** [isinstance(value, t)] on the values of the model. *)
Definition isinstance (v : value) (t : py_type) : bool :=
  match t, v with
  | PyInt, VInt _ => true
  | PyStr, VText _ => true
  | PyFloat, VFloat _ => true
  | PyObject, _ => true
  | _, _ => false
  end.

Definition validate_type (v : value) (type_name : string) : bool :=
  let type_name := upper type_name in
  if String.eqb type_name "INT" then isinstance v PyInt
  else if existsb (String.eqb type_name) text_types then isinstance v PyStr
  else if existsb (String.eqb type_name) float_types then
    isinstance v PyInt || isinstance v PyFloat
  else true.

Definition get_python_type (type_name : string) : py_type :=
  let type_name := upper type_name in
  if String.eqb type_name "INT" then PyInt
  else if existsb (String.eqb type_name) text_types then PyStr
  else if existsb (String.eqb type_name) float_types then PyFloat
  else PyObject.

End Types.

(* ===================================================================== *)
(** * src/parser.py                                                        *)
(* ===================================================================== *)

Module QueryParser.

(** A parsed WHERE clause, [{'column': ..., 'value': ...}]. *)
Record where_clause := Where { where_col : string; where_val : value }.

Definition quoted_with (s : string) (q : ascii) : bool :=
  startswith s q && endswith s q.

Definition _parse_single_value `{FloatText} (value_str : string) : value :=
  let value_str := strip value_str in
  if quoted_with value_str dquote || quoted_with value_str squote then
    VText (slice_1_m1 value_str)
  else
    match int_of_text value_str with
    | Some z => VInt z
    | None =>
        match float_of_text value_str with
        | Some f => VFloat f
        | None => VText value_str
        end
    end.

(** The local variables of [_parse_values]. *)
Record scan := Scan {
  values : list value;
  current : string;
  in_quotes : bool;
  quote_char : option ascii
}.

Definition scan_start : scan := Scan [] "" false None.

Definition is_quote (c : ascii) : bool :=
  Ascii.eqb c dquote || Ascii.eqb c squote.

Definition same_quote (q : option ascii) (c : ascii) : bool :=
  match q with Some c' => Ascii.eqb c c' | None => false end.

(** One turn of the loop [for char in values_str]. *)
Definition scan_char `{FloatText} (st : scan) (char : ascii) : scan :=
  if is_quote char && negb (in_quotes st) then
    Scan (values st) (current st) true (Some char)
  else if same_quote (quote_char st) char && in_quotes st then
    Scan (values st) (current st) false None
  else if Ascii.eqb char ","%char && negb (in_quotes st) then
    Scan (values st ++ [_parse_single_value (strip (current st))]) ""
         (in_quotes st) (quote_char st)
  else
    Scan (values st) (current st +:+ String char "")
         (in_quotes st) (quote_char st).

Definition _parse_values `{FloatText} (values_str : string) : list value :=
  let st := fold_left scan_char (list_ascii_of_string values_str) scan_start in
  if String.eqb (strip (current st)) "" then values st
  else values st ++ [_parse_single_value (strip (current st))].

Fixpoint take_while {A} (p : A -> bool) (l : list A) : list A :=
  match l with
  | x :: l' => if p x then x :: take_while p l' else []
  | [] => []
  end.

Fixpoint drop_while {A} (p : A -> bool) (l : list A) : list A :=
  match l with
  | x :: l' => if p x then drop_while p l' else l
  | [] => []
  end.

Definition not_newline (c : ascii) : bool := negb (Ascii.eqb c newline).

(** [re.match(r'(\w+)\s*=\s*(.+)', where_str.strip())].  Each greedy
    group has one way to succeed: the column is the longest run of word
    characters, the blanks before the equals sign are all taken, and the
    value runs from the first character after the blanks that follow it to
    the end of the line.  When only blanks follow the equals sign the
    pattern gives some of them back, and the value is one or more blanks
    (which [strip] then empties), unless they are all newlines. *)
Definition _parse_where `{FloatText} (where_str : string)
  : option where_clause :=
  let s := list_ascii_of_string (strip where_str) in
  let column := take_while is_word s in
  match column with
  | [] => None
  | _ :: _ =>
      match drop_while is_space (drop_while is_word s) with
      | c :: after =>
          if Ascii.eqb c "="%char then
            match drop_while is_space after with
            | x :: v =>
                let group2 :=
                  string_of_list_ascii (take_while not_newline (x :: v)) in
                Some (Where (string_of_list_ascii column)
                            (_parse_single_value (strip group2)))
            | [] =>
                if existsb not_newline after then
                  Some (Where (string_of_list_ascii column)
                              (_parse_single_value (strip "")))
                else None
            end
          else None
      | [] => None
      end
  end.

End QueryParser.

Import Types QueryParser.

(** A row, [Dict[str, Any]]. *)
Abbreviation row := (gmap string value).

(** The result dictionary: ['success'], ['message'] and, for the SELECT
    family, ['columns'] and ['data'].  A cell of ['data'] is what
    [row.get(col)] gives: [None] where the row has no such key. *)
Record result := Result {
  success : bool;
  message : string;
  res_columns : option (list string);
  res_data : option (list (list (option value)))
}.

Definition status (ok : bool) (msg : string) : result :=
  Result ok msg None None.

(** [row.get(where_col) == where_val] *)
Definition row_matches (w : where_clause) (r : row) : bool :=
  match r !! where_col w with
  | Some v => py_eq v (where_val w)
  | None => false
  end.

(** [[idx for idx, row in enumerate(rows) if row.get(where_col) == where_val]],
    counting from [idx]. *)
Fixpoint find_matching (w : where_clause) (rows : list row) (idx : nat)
  : list nat :=
  match rows with
  | [] => []
  | r :: rows' =>
      if row_matches w r then idx :: find_matching w rows' (S idx)
      else find_matching w rows' (S idx)
  end.

(** [[row.get(col) for col in columns]] *)
Definition project (columns : list string) (r : row) : list (option value) :=
  map (fun col => r !! col) columns.

(* ===================================================================== *)
(** * src/table.py                                                         *)
(* ===================================================================== *)

Module Table.

(** The attributes of a table.  [unique_columns] is a Python set: the list
    holds its elements once each, in the order the set iterates them.  The
    order shows in which unique violation a failing insert names, and in
    nothing the theorems state. *)
Record t := Make {
  name : string;
  columns : list (string * string);
  primary_key : string;
  unique_columns : list string;
  rows : list row;
  primary_index : dict;
  unique_indexes : gmap string dict
}.

(** [self.column_names] and [self.column_types] are computed from
    [columns] by [__init__] and never assigned again. *)
Definition column_names (tbl : t) : list string := map fst (columns tbl).

Definition column_types (tbl : t) : gmap string string :=
  fold_left (fun m col => <[fst col := snd col]> m) (columns tbl) ∅.

(** The three mutable attributes replaced, the schema kept. *)
Definition with_storage (tbl : t) (rows' : list row) (primary_index' : dict)
    (unique_indexes' : gmap string dict) : t :=
  Make (name tbl) (columns tbl) (primary_key tbl) (unique_columns tbl)
       rows' primary_index' unique_indexes'.

(** [Table.__init__] *)
Definition init (name : string) (columns : list (string * string))
    (primary_key : string) (unique_columns : list string) : t :=
  let unique := remove_dups unique_columns in
  Make name columns primary_key unique
       [] [] (fold_left (fun m col => <[col := []]> m) unique ∅).

(** *** insert *)

Inductive built :=
  | Built (r : row)
  | BuildFailed (col_name : string) (e : string)
  | BuildRaised (e : exn).

(** The loop that fills [row]; [values[i]] is the head of [values]. *)
Fixpoint build_row `{FloatText} (cols : list (string * string))
    (values : list value) (r : row) : built :=
  match cols with
  | [] => Built r
  | (col_name, col_type) :: cols' =>
      match values with
      | [] => BuildRaised IndexError
      | v :: values' =>
          match convert_value v col_type with
          | Converted x => build_row cols' values' (<[col_name := x]> r)
          | ValueError e => BuildFailed col_name e
          | Escaped e => BuildRaised e
          end
      end
  end.

Inductive checked :=
  | Pass
  | Violation (col : string) (col_value : value)
  | CheckRaised (e : exn).

(** The loop over [self.unique_columns] that checks the unique constraints. *)
Fixpoint check_unique (cols : list string) (r : row)
    (indexes : gmap string dict) : checked :=
  match cols with
  | [] => Pass
  | col :: cols' =>
      match r !! col with
      | None => CheckRaised KeyError
      | Some col_value =>
          match indexes !! col with
          | None => CheckRaised KeyError
          | Some d =>
              if dict_mem col_value d then Violation col col_value
              else check_unique cols' r indexes
          end
      end
  end.

(** [for col in self.unique_columns: self.unique_indexes[col][row[col]] = idx] *)
Fixpoint index_unique (cols : list string) (r : row) (idx : nat)
    (indexes : gmap string dict) : gmap string dict * option exn :=
  match cols with
  | [] => (indexes, None)
  | col :: cols' =>
      match indexes !! col, r !! col with
      | Some d, Some v =>
          index_unique cols' r idx (<[col := dict_set d v idx]> indexes)
      | _, _ => (indexes, Some KeyError)
      end
  end.

Definition insert `{FloatText} (tbl : t) (values : list value)
  : t * outcome result :=
  if negb (length values =? length (columns tbl)) then
    (tbl, Returned (status false
       ("Expected " +:+ str_of_nat (length (columns tbl)) +:+ " values, got "
        +:+ str_of_nat (length values))))
  else
    match build_row (columns tbl) values ∅ with
    | BuildFailed col_name e =>
        (tbl, Returned (status false
           ("Type error for column '" +:+ col_name +:+ "': " +:+ e)))
    | BuildRaised e => (tbl, Raised e)
    | Built r =>
        match r !! primary_key tbl with
        | None => (tbl, Raised KeyError)
        | Some pk_value =>
            if dict_mem pk_value (primary_index tbl) then
              (tbl, Returned (status false
                 ("Primary key violation: '" +:+ str pk_value
                  +:+ "' already exists")))
            else
              match check_unique (unique_columns tbl) r (unique_indexes tbl) with
              | CheckRaised e => (tbl, Raised e)
              | Violation col col_value =>
                  (tbl, Returned (status false
                     ("Unique constraint violation: '" +:+ col +:+ "' = '"
                      +:+ str col_value +:+ "' already exists")))
              | Pass =>
                  let row_index := length (rows tbl) in
                  let rows' := rows tbl ++ [r] in
                  let primary' := dict_set (primary_index tbl) pk_value row_index in
                  match index_unique (unique_columns tbl) r row_index
                                     (unique_indexes tbl) with
                  | (unique', Some e) =>
                      (with_storage tbl rows' primary' unique', Raised e)
                  | (unique', None) =>
                      (with_storage tbl rows' primary' unique',
                       Returned (status true
                         ("Inserted 1 row into '" +:+ name tbl +:+ "'")))
                  end
              end
        end
    end.

(** *** select *)

Definition all_columns (cols : list string) : bool :=
  match cols with
  | [] => true
  | [c] => String.eqb c "*"
  | _ => false
  end.

Definition select (tbl : t) (cols : list string) (where_ : option where_clause)
  : outcome result :=
  let cols := if all_columns cols then column_names tbl else cols in
  let filtered_rows : outcome (list row) :=
    match where_ with
    | Some w =>
        if String.eqb (where_col w) (primary_key tbl) then
          match dict_get (primary_index tbl) (where_val w) with
          | Some row_idx =>
              match rows tbl !! row_idx with
              | Some r => Returned [r]
              | None => Raised IndexError
              end
          | None => Returned []
          end
        else Returned (List.filter (row_matches w) (rows tbl))
    | None => Returned (rows tbl)
    end in
  match filtered_rows with
  | Raised e => Raised e
  | Returned filtered =>
      let result_data := map (project cols) filtered in
      Returned (Result true
        ("Selected " +:+ str_of_nat (length result_data) +:+ " row(s)")
        (Some cols) (Some result_data))
  end.

(** *** update *)

(** Why the update loop stopped early: the [return] of the handler, or an
    exception that escaped. *)
Inductive stop :=
  | ConversionFailed (e : string)
  | Threw (e : exn).

(** [for col, new_val in set_values.items()] on one row. *)
Fixpoint set_columns `{FloatText} (tbl : t) (set_values : list (string * value))
    (r : row) : row * option stop :=
  match set_values with
  | [] => (r, None)
  | (col, new_val) :: rest =>
      if bool_decide (col ∈ column_names tbl) then
        match column_types tbl !! col with
        | None => (r, Some (Threw KeyError))
        | Some ty =>
            match convert_value new_val ty with
            | Converted converted => set_columns tbl rest (<[col := converted]> r)
            | ValueError e => (r, Some (ConversionFailed e))
            | Escaped e => (r, Some (Threw e))
            end
        end
      else set_columns tbl rest r
  end.

(** [for idx in rows_to_update] *)
Fixpoint update_rows `{FloatText} (tbl : t) (set_values : list (string * value))
    (idxs : list nat) (rs : list row) : list row * option stop :=
  match idxs with
  | [] => (rs, None)
  | idx :: idxs' =>
      match rs !! idx with
      | None => (rs, Some (Threw IndexError))
      | Some r =>
          match set_columns tbl set_values r with
          | (r', Some s) => (<[idx := r']> rs, Some s)
          | (r', None) => update_rows tbl set_values idxs' (<[idx := r']> rs)
          end
      end
  end.

Definition update `{FloatText} (tbl : t) (set_values : list (string * value))
    (where_ : option where_clause) : t * outcome result :=
  match where_ with
  | None =>
      (tbl, Returned (status false "UPDATE without WHERE clause is not supported"))
  | Some w =>
      let rows_to_update := find_matching w (rows tbl) 0 in
      match rows_to_update with
      | [] => (tbl, Returned (status true "Updated 0 row(s)"))
      | _ :: _ =>
          let (rows', stopped) :=
            update_rows tbl set_values rows_to_update (rows tbl) in
          let tbl' :=
            with_storage tbl rows' (primary_index tbl) (unique_indexes tbl) in
          match stopped with
          | Some (ConversionFailed e) =>
              (tbl', Returned (status false ("Type error: " +:+ e)))
          | Some (Threw e) => (tbl', Raised e)
          | None =>
              (tbl', Returned (status true
                 ("Updated " +:+ str_of_nat (length rows_to_update)
                  +:+ " row(s)")))
          end
      end
  end.

(** *** delete and _rebuild_indexes *)

(** [for col in self.unique_columns: self.unique_indexes[col].clear()] *)
Fixpoint clear_unique (cols : list string) (indexes : gmap string dict)
  : gmap string dict * option exn :=
  match cols with
  | [] => (indexes, None)
  | col :: cols' =>
      match indexes !! col with
      | Some _ => clear_unique cols' (<[col := []]> indexes)
      | None => (indexes, Some KeyError)
      end
  end.

(** [for idx, row in enumerate(self.rows)], counting from [idx]. *)
Fixpoint rebuild_rows (pk : string) (cols : list string) (rs : list row)
    (idx : nat) (primary : dict) (indexes : gmap string dict)
  : dict * gmap string dict * option exn :=
  match rs with
  | [] => (primary, indexes, None)
  | r :: rs' =>
      match r !! pk with
      | None => (primary, indexes, Some KeyError)
      | Some v =>
          let primary' := dict_set primary v idx in
          match index_unique cols r idx indexes with
          | (indexes', Some e) => (primary', indexes', Some e)
          | (indexes', None) =>
              rebuild_rows pk cols rs' (S idx) primary' indexes'
          end
      end
  end.

Definition _rebuild_indexes (tbl : t) : t * option exn :=
  match clear_unique (unique_columns tbl) (unique_indexes tbl) with
  | (indexes, Some e) => (with_storage tbl (rows tbl) [] indexes, Some e)
  | (indexes, None) =>
      match rebuild_rows (primary_key tbl) (unique_columns tbl) (rows tbl) 0
                         [] indexes with
      | (primary', indexes', e) =>
          (with_storage tbl (rows tbl) primary' indexes', e)
      end
  end.

(** The loop that takes a removed row out of the unique indexes. *)
Fixpoint unindex_unique (cols : list string) (r : row)
    (indexes : gmap string dict) : gmap string dict * option exn :=
  match cols with
  | [] => (indexes, None)
  | col :: cols' =>
      match r !! col with
      | None => (indexes, Some KeyError)
      | Some col_val =>
          match indexes !! col with
          | None => (indexes, Some KeyError)
          | Some d =>
              unindex_unique cols' r
                (if dict_mem col_val d
                 then <[col := dict_del d col_val]> indexes
                 else indexes)
          end
      end
  end.

(** The order of [sorted(..., reverse=True)] on row positions. *)
Definition descending (a b : nat) : Prop := b ≤ a.

#[global] Instance descending_dec : RelDecision descending :=
  fun a b => decide (b ≤ a).

(** [sorted(rows_to_delete, reverse=True)] *)
Definition sorted_reverse (l : list nat) : list nat :=
  merge_sort descending l.

(** [for idx in sorted(rows_to_delete, reverse=True)] *)
Fixpoint remove_rows (tbl : t) (idxs : list nat) : t * option exn :=
  match idxs with
  | [] => (tbl, None)
  | idx :: idxs' =>
      match rows tbl !! idx with
      | None => (tbl, Some IndexError)
      | Some r =>
          let rows' := base.delete idx (rows tbl) in
          match r !! primary_key tbl with
          | None =>
              (with_storage tbl rows' (primary_index tbl) (unique_indexes tbl),
               Some KeyError)
          | Some pk_val =>
              let primary' :=
                if dict_mem pk_val (primary_index tbl)
                then dict_del (primary_index tbl) pk_val
                else primary_index tbl in
              match unindex_unique (unique_columns tbl) r (unique_indexes tbl) with
              | (indexes', Some e) =>
                  (with_storage tbl rows' primary' indexes', Some e)
              | (indexes', None) =>
                  remove_rows (with_storage tbl rows' primary' indexes') idxs'
              end
          end
      end
  end.

Definition delete (tbl : t) (where_ : option where_clause) : t * outcome result :=
  match where_ with
  | None =>
      (tbl, Returned (status false "DELETE without WHERE clause is not supported"))
  | Some w =>
      let rows_to_delete := find_matching w (rows tbl) 0 in
      match rows_to_delete with
      | [] => (tbl, Returned (status true "Deleted 0 row(s)"))
      | _ :: _ =>
          match remove_rows tbl (sorted_reverse rows_to_delete) with
          | (tbl1, Some e) => (tbl1, Raised e)
          | (tbl1, None) =>
              match _rebuild_indexes tbl1 with
              | (tbl2, Some e) => (tbl2, Raised e)
              | (tbl2, None) =>
                  (tbl2, Returned (status true
                     ("Deleted " +:+ str_of_nat (length rows_to_delete)
                      +:+ " row(s)")))
              end
          end
      end
  end.

End Table.

(* ===================================================================== *)
(** * src/database.py                                                      *)
(* ===================================================================== *)

Module SimpleDB.

(** [parsed['join_condition']] *)
Record join_condition := JoinCondition {
  jc_left_table : string;
  left_column : string;
  jc_right_table : string;
  right_column : string
}.

(** The parsed statement of type ['SELECT_JOIN']. *)
Record select_join := SelectJoin {
  sj_columns : list string;
  left_table : string;
  right_table : string;
  sj_condition : join_condition;
  sj_where : option where_clause
}.

(** [self.tables.get(name)] *)
Definition get_table (tables : gmap string Table.t) (name : string)
  : option Table.t :=
  tables !! name.

(** [f"{table}.{col}"] *)
Definition prefixed (table col : string) : string :=
  table +:+ "." +:+ col.

(** [for col in column_names: merged_row[f"{table}.{col}"] = row[col]];
    [None] is [KeyError]. *)
Fixpoint add_prefixed (table : string) (cols : list string) (r merged : row)
  : option row :=
  match cols with
  | [] => Some merged
  | col :: cols' =>
      match r !! col with
      | Some v => add_prefixed table cols' r (<[prefixed table col := v]> merged)
      | None => None
      end
  end.

Definition merge_rows (q : select_join) (l r : Table.t) (left_row right_row : row)
  : option row :=
  match add_prefixed (left_table q) (Table.column_names l) left_row ∅ with
  | Some merged =>
      add_prefixed (right_table q) (Table.column_names r) right_row merged
  | None => None
  end.

(** [for right_row in right_table.rows] *)
Fixpoint join_inner (q : select_join) (l r : Table.t) (left_row : row)
    (left_val : value) (right_rows : list row) (joined_rows : list row)
  : outcome (list row) :=
  match right_rows with
  | [] => Returned joined_rows
  | right_row :: right_rows' =>
      match right_row !! right_column (sj_condition q) with
      | None => Raised KeyError
      | Some right_val =>
          if py_eq left_val right_val then
            match merge_rows q l r left_row right_row with
            | Some merged_row =>
                join_inner q l r left_row left_val right_rows'
                           (joined_rows ++ [merged_row])
            | None => Raised KeyError
            end
          else join_inner q l r left_row left_val right_rows' joined_rows
      end
  end.

(** [for left_row in left_table.rows] *)
Fixpoint join_outer (q : select_join) (l r : Table.t) (left_rows : list row)
    (joined_rows : list row) : outcome (list row) :=
  match left_rows with
  | [] => Returned joined_rows
  | left_row :: left_rows' =>
      match left_row !! left_column (sj_condition q) with
      | None => Raised KeyError
      | Some left_val =>
          match join_inner q l r left_row left_val (Table.rows r) joined_rows with
          | Returned joined_rows' => join_outer q l r left_rows' joined_rows'
          | Raised e => Raised e
          end
      end
  end.

Definition is_star (cols : list string) : bool :=
  match cols with
  | [c] => String.eqb c "*"
  | _ => false
  end.

Definition _handle_select_join (tables : gmap string Table.t) (parsed : select_join)
  : outcome result :=
  match get_table tables (left_table parsed) with
  | None =>
      Returned (status false
        ("Table '" +:+ left_table parsed +:+ "' does not exist"))
  | Some l =>
      match get_table tables (right_table parsed) with
      | None =>
          Returned (status false
            ("Table '" +:+ right_table parsed +:+ "' does not exist"))
      | Some r =>
          let left_col := left_column (sj_condition parsed) in
          let right_col := right_column (sj_condition parsed) in
          if negb (bool_decide (left_col ∈ Table.column_names l)) then
            Returned (status false
              ("Column '" +:+ left_col +:+ "' not found in table '"
               +:+ left_table parsed +:+ "'"))
          else if negb (bool_decide (right_col ∈ Table.column_names r)) then
            Returned (status false
              ("Column '" +:+ right_col +:+ "' not found in table '"
               +:+ right_table parsed +:+ "'"))
          else
            match join_outer parsed l r (Table.rows l) [] with
            | Raised e => Raised e
            | Returned joined_rows =>
                let joined_rows :=
                  match sj_where parsed with
                  | Some w => List.filter (row_matches w) joined_rows
                  | None => joined_rows
                  end in
                let output_columns :=
                  if is_star (sj_columns parsed) then
                    map (prefixed (left_table parsed)) (Table.column_names l)
                    ++ map (prefixed (right_table parsed)) (Table.column_names r)
                  else sj_columns parsed in
                let result_data := map (project output_columns) joined_rows in
                Returned (Result true
                  ("Selected " +:+ str_of_nat (length result_data)
                   +:+ " row(s) from JOIN")
                  (Some output_columns) (Some result_data))
            end
      end
  end.

(** [SimpleDB.create_table]; [unique_columns or []] is the list given. *)
Definition create_table (tables : gmap string Table.t) (name : string)
    (columns : list (string * string)) (primary_key : string)
    (unique_columns : list string) : gmap string Table.t * result :=
  if bool_decide (is_Some (tables !! name)) then
    (tables, status false ("Table '" +:+ name +:+ "' already exists"))
  else if negb (bool_decide (primary_key ∈ map fst columns)) then
    (tables, status false
       ("Primary key '" +:+ primary_key +:+ "' not found in columns"))
  else
    (<[name := Table.init name columns primary_key unique_columns]> tables,
     status true ("Table '" +:+ name +:+ "' created successfully")).

(** The parsed statements, by their ['type']. *)
Inductive statement :=
  | CREATE_TABLE (table_name : string) (columns : list (string * string))
                 (primary_key : string) (unique_columns : list string)
  | INSERT (table_name : string) (values : list value)
  | SELECT (table_name : string) (columns : list string)
           (where_ : option where_clause)
  | SELECT_JOIN (parsed : select_join)
  | UPDATE (table_name : string) (set_values : list (string * value))
           (where_ : option where_clause)
  | DELETE (table_name : string) (where_ : option where_clause).

Definition no_table (table_name : string) : result :=
  status false ("Table '" +:+ table_name +:+ "' does not exist").

(** The handlers change the table object the dictionary holds: the new
    table takes its place under the same name. *)
Definition _handle_insert `{FloatText} (tables : gmap string Table.t)
    (table_name : string) (values : list value)
  : gmap string Table.t * outcome result :=
  match get_table tables table_name with
  | None => (tables, Returned (no_table table_name))
  | Some table =>
      let (table', out) := Table.insert table values in
      (<[table_name := table']> tables, out)
  end.

Definition _handle_select (tables : gmap string Table.t) (table_name : string)
    (columns : list string) (where_ : option where_clause) : outcome result :=
  match get_table tables table_name with
  | None => Returned (no_table table_name)
  | Some table => Table.select table columns where_
  end.

Definition _handle_update `{FloatText} (tables : gmap string Table.t)
    (table_name : string) (set_values : list (string * value))
    (where_ : option where_clause) : gmap string Table.t * outcome result :=
  match get_table tables table_name with
  | None => (tables, Returned (no_table table_name))
  | Some table =>
      let (table', out) := Table.update table set_values where_ in
      (<[table_name := table']> tables, out)
  end.

Definition _handle_delete (tables : gmap string Table.t) (table_name : string)
    (where_ : option where_clause) : gmap string Table.t * outcome result :=
  match get_table tables table_name with
  | None => (tables, Returned (no_table table_name))
  | Some table =>
      let (table', out) := Table.delete table where_ in
      (<[table_name := table']> tables, out)
  end.

(** The routing of [execute] by the type of the parsed statement, as inside
    its [try] block. *)
Definition route `{FloatText} (tables : gmap string Table.t) (parsed : statement)
  : gmap string Table.t * outcome result :=
  match parsed with
  | CREATE_TABLE table_name columns primary_key unique_columns =>
      let (tables', r) :=
        create_table tables table_name columns primary_key unique_columns in
      (tables', Returned r)
  | INSERT table_name values => _handle_insert tables table_name values
  | SELECT table_name columns where_ =>
      (tables, _handle_select tables table_name columns where_)
  | SELECT_JOIN parsed => (tables, _handle_select_join tables parsed)
  | UPDATE table_name set_values where_ =>
      _handle_update tables table_name set_values where_
  | DELETE table_name where_ => _handle_delete tables table_name where_
  end.

End SimpleDB.

(* ===================================================================== *)
(** * Python built-ins: regular expressions and more of [str]             *)
(* ===================================================================== *)

Module Re.

(** The patterns of the statement parsers.  They are made of literal
    characters, the classes [\s], [\w] and [.], a class repeated (greedy
    or lazy, from a minimum on, with or without a capturing group around
    it), an optional non-capturing group, and [$].  Every pattern is used
    with [re.IGNORECASE], so a literal is compared without case.

    [run] is the backtracking matcher of [re.match]: the alternatives are
    tried in the order of the pattern's priorities (a greedy repetition
    takes one more character before it tries to stop, a lazy one tries to
    stop first, an optional group is tried before it is skipped), and the
    first way to match the whole pattern gives the groups. *)
Inductive re :=
  | Eps
  | Lit (c : ascii)
  | Rep (cls : ascii -> bool) (min : nat) (greedy : bool) (group : option nat)
  | Seq (a b : re)
  | Opt (a : re)
  | AtEnd.

(** The groups that took part in the match, the last one set first. *)
Definition captures := list (nat * string).

(** [match.group(n)]; [None] for a group that took no part. *)
Fixpoint group (g : captures) (n : nat) : option string :=
  match g with
  | [] => None
  | (m, s) :: g' => if n =? m then Some s else group g' n
  end.

Definition lower_char (c : ascii) : ascii :=
  let n := code c in
  if (65 <=? n) && (n <=? 90) then ascii_of_nat (n + 32) else c.

(** A literal against a character of the text under [re.IGNORECASE]: the
    letters A..Z and a..z match in either case, every other character
    matches itself only (no character below 256 is a case variant of an
    ASCII letter). *)
Definition same_letter (c x : ascii) : bool :=
  Ascii.eqb (lower_char c) (lower_char x).

(** The class [.]: every character but the newline. *)
Definition dot (c : ascii) : bool := negb (Ascii.eqb c newline).

(** A class repeated: [taken] is what the repetition has matched so far,
    [k taken rest] the rest of the pattern on the rest of the text. *)
Fixpoint rep {A} (cls : ascii -> bool) (greedy : bool)
    (k : list ascii -> list ascii -> option A) (min : nat)
    (taken s : list ascii) : option A :=
  let stop := match min with 0 => k taken s | S _ => None end in
  match s with
  | x :: s' =>
      if cls x then
        let more := rep cls greedy k (pred min) (taken ++ [x]) s' in
        if greedy then match more with Some r => Some r | None => stop end
        else match stop with Some r => Some r | None => more end
      else stop
  | [] => stop
  end.

Definition set_group (n : option nat) (taken : list ascii) (g : captures)
  : captures :=
  match n with
  | Some n => (n, string_of_list_ascii taken) :: g
  | None => g
  end.

(** [$]: the end of the text, or the newline that ends it. *)
Definition at_end (s : list ascii) : bool :=
  match s with
  | [] => true
  | [c] => Ascii.eqb c newline
  | _ => false
  end.

Fixpoint run (r : re) (k : list ascii -> captures -> option captures)
    (s : list ascii) (g : captures) : option captures :=
  match r with
  | Eps => k s g
  | Lit c =>
      match s with
      | x :: s' => if same_letter c x then k s' g else None
      | [] => None
      end
  | Rep cls min greedy n =>
      rep cls greedy (fun taken rest => k rest (set_group n taken g)) min [] s
  | Seq a b => run a (run b k) s g
  | Opt a =>
      match run a k s g with
      | Some r => Some r
      | None => k s g
      end
  | AtEnd => if at_end s then k s g else None
  end.

(** [re.match(pattern, s, re.IGNORECASE)]: the pattern from the start of
    the text, the text free to go on after it. *)
Definition re_match (pattern : re) (s : string) : option captures :=
  run pattern (fun _ g => Some g) (list_ascii_of_string s) [].

(** A pattern written as the sequence of its parts. *)
Definition seq (parts : list re) : re := fold_right Seq Eps parts.

(** A run of literal characters. *)
Definition lits (s : string) : re :=
  seq (map Lit (list_ascii_of_string s)).

(** Blanks, one or more and none or more; a word as group [n]; the rest
    of the line as group [n]. *)
Definition spaces1 : re := Rep is_space 1 true None.
Definition spaces0 : re := Rep is_space 0 true None.
Definition word (n : nat) : re := Rep is_word 1 true (Some n).
Definition rest (n : nat) : re := Rep dot 0 true (Some n).

End Re.

Module Str.

(** [s.startswith(prefix)] *)
Fixpoint starts_with (prefix s : list ascii) : bool :=
  match prefix, s with
  | [], _ => true
  | p :: prefix', x :: s' => Ascii.eqb p x && starts_with prefix' s'
  | _ :: _, [] => false
  end.

(** [sub in s] for two texts. *)
Fixpoint contains (sub s : list ascii) : bool :=
  starts_with sub s
  || match s with
     | [] => false
     | _ :: s' => contains sub s'
     end.

(** [s.split(sep)] for a one-character [sep]; [current] is the piece
    being read. *)
Fixpoint split_from (sep : ascii) (s current : list ascii) : list string :=
  match s with
  | [] => [string_of_list_ascii current]
  | c :: s' =>
      if Ascii.eqb c sep then string_of_list_ascii current :: split_from sep s' []
      else split_from sep s' (current ++ [c])
  end.

Definition split (s : string) (sep : ascii) : list string :=
  split_from sep (list_ascii_of_string s) [].

(** [s.split(sep, 1)] for a text that holds [sep]: what stands before the
    first [sep] and what stands after it. *)
Definition split_once (s : string) (sep : ascii) : string * string :=
  let l := list_ascii_of_string s in
  let before := take_while (fun c => negb (Ascii.eqb c sep)) l in
  (string_of_list_ascii before,
   string_of_list_ascii (tail (drop_while (fun c => negb (Ascii.eqb c sep)) l))).

(** [s.split()]: the runs of characters that are no blanks. *)
Fixpoint words_from (s current : list ascii) : list string :=
  match s with
  | [] =>
      match current with
      | [] => []
      | _ :: _ => [string_of_list_ascii current]
      end
  | c :: s' =>
      if is_space c then
        match current with
        | [] => words_from s' []
        | _ :: _ => string_of_list_ascii current :: words_from s' []
        end
      else words_from s' (current ++ [c])
  end.

Definition words (s : string) : list string :=
  words_from (list_ascii_of_string s) [].

(** [s.upper()] in full.  Below 256 the letters a..z and the accented
    letters have their capital 32 places lower, the sharp s becomes SS, and
    the micro sign and the y with diaeresis have their capital outside the
    alphabet of the model: for a text with one of these two the result is
    [None]. *)
Definition upper_full_char (c : ascii) : option (list ascii) :=
  let n := code c in
  if ((97 <=? n) && (n <=? 122))
     || ((224 <=? n) && (n <=? 254) && negb (n =? 247))
  then Some [ascii_of_nat (n - 32)]
  else if n =? 223 then Some ["S"; "S"]%char
  else if (n =? 181) || (n =? 255) then None
  else Some [c].

Fixpoint upper_full_chars (l : list ascii) : option (list ascii) :=
  match l with
  | [] => Some []
  | c :: l' =>
      match upper_full_char c, upper_full_chars l' with
      | Some u, Some r => Some (u ++ r)
      | _, _ => None
      end
  end.

Definition upper_full (s : string) : option string :=
  string_of_list_ascii <$> upper_full_chars (list_ascii_of_string s).

(** [sub in s.upper()] and [s.upper().startswith(prefix)] for a text
    [sub] or [prefix] of the letters A..Z and the space in which no letter
    S follows another: such a text stands in the full upper case of [s]
    where it stands in the upper case of the letters a..z alone, the only
    capital below 128 that another character yields being the SS of the
    sharp s. *)
Definition upper_contains (sub s : string) : bool :=
  contains (list_ascii_of_string sub) (list_ascii_of_string (upper s)).

Definition upper_starts_with (prefix s : string) : bool :=
  starts_with (list_ascii_of_string prefix) (list_ascii_of_string (upper s)).

End Str.

(* ===================================================================== *)
(** * src/parser.py: the statements                                       *)
(* ===================================================================== *)

Module Statements.

Import Re Str SimpleDB.

(** What [parse] returns: the dictionary of a parsed statement, or the
    one that holds ['success': False] and a message. *)
Inductive parsed :=
  | Parsed (s : statement)
  | Failed (message : string).

(** [match.group(n)] for a group that takes part in every match. *)
Definition group_text (g : captures) (n : nat) : string :=
  default "" (group g n).

Definition where_group_source : string := "(?:\s+WHERE\s+(.*))?".

(** [where_group_source], the text after WHERE as group [n]. *)
Definition where_group (n : nat) : re :=
  Opt (seq [spaces1; lits "WHERE"; spaces1; rest n]).

(** The WHERE clause of a statement: [if where_str: where =
    self._parse_where(where_str)]. *)
Definition parse_where_group `{FloatText} (where_str : option string)
  : option where_clause :=
  match where_str with
  | Some s => if String.eqb s "" then None else _parse_where s
  | None => None
  end.

(** The column list of a SELECT. *)
Definition parse_columns (columns_str : string) : list string :=
  if String.eqb columns_str "*" then ["*"]
  else map strip (split columns_str ","%char).

(** *** CREATE TABLE *)

Definition create_table_source : string := "CREATE TABLE\s+(\w+)\s*\((.*)\)".

(** [create_table_source] as a tree. *)
Definition pattern_create_table : re :=
  seq [lits "CREATE TABLE"; spaces1; word 1; spaces0; Lit "("; rest 2; Lit ")"].

Inductive scanned :=
  | Scanned (columns : option (list (string * string)))
            (primary_key : option string) (unique_columns : list string)
  | BadColumn (col_def : string).

(** [for col_def in col_defs].  The list of columns is [None] once a type
    name has its upper case outside the alphabet of the model. *)
Fixpoint scan_columns (col_defs : list string)
    (columns : option (list (string * string))) (primary_key : option string)
    (unique_columns : list string) : scanned :=
  match col_defs with
  | [] => Scanned columns primary_key unique_columns
  | col_def :: col_defs' =>
      match words col_def with
      | col_name :: col_type :: _ =>
          let primary_key :=
            if upper_contains "PRIMARY" col_def && upper_contains "KEY" col_def
            then Some col_name else primary_key in
          let unique_columns :=
            if upper_contains "UNIQUE" col_def
            then unique_columns ++ [col_name] else unique_columns in
          let columns :=
            match columns, upper_full col_type with
            | Some cols, Some ty => Some (cols ++ [(col_name, ty)])
            | _, _ => None
            end in
          scan_columns col_defs' columns primary_key unique_columns
      | _ => BadColumn col_def
      end
  end.

(** [None]: the statement parses, and a type name of it has its upper
    case outside the alphabet of the model. *)
Definition _parse_create_table (query : string) : option parsed :=
  match re_match pattern_create_table query with
  | None => Some (Failed "Invalid CREATE TABLE syntax")
  | Some g =>
      let table_name := group_text g 1 in
      let columns_str := group_text g 2 in
      let col_defs := map strip (split columns_str ","%char) in
      match scan_columns col_defs (Some []) None [] with
      | BadColumn col_def =>
          Some (Failed ("Invalid column definition: " +:+ col_def))
      | Scanned _ None _ => Some (Failed "No PRIMARY KEY specified")
      | Scanned columns (Some primary_key) unique_columns =>
          (fun columns =>
             Parsed (CREATE_TABLE table_name columns primary_key unique_columns))
          <$> columns
      end
  end.

(** *** INSERT *)

Definition insert_source : string := "INSERT INTO\s+(\w+)\s+VALUES\s*\((.*)\)".

(** [insert_source] as a tree. *)
Definition pattern_insert : re :=
  seq [lits "INSERT INTO"; spaces1; word 1; spaces1; lits "VALUES"; spaces0;
       Lit "("; rest 2; Lit ")"].

Definition _parse_insert `{FloatText} (query : string) : parsed :=
  match re_match pattern_insert query with
  | None => Failed "Invalid INSERT syntax"
  | Some g =>
      let table_name := group_text g 1 in
      let values_str := group_text g 2 in
      Parsed (INSERT table_name (_parse_values values_str))
  end.

(** *** SELECT *)

Definition join_source : string :=
  "SELECT\s+(.*?)\s+FROM\s+(\w+)\s+(?:INNER\s+)?JOIN\s+(\w+)\s+ON\s+(\w+)\.(\w+)\s*=\s*(\w+)\.(\w+)(?:\s+WHERE\s+(.*))?".

(** [join_source] as a tree. *)
Definition pattern_join : re :=
  seq [lits "SELECT"; spaces1; Rep dot 0 false (Some 1); spaces1; lits "FROM";
       spaces1; word 2; spaces1; Opt (seq [lits "INNER"; spaces1]); lits "JOIN";
       spaces1; word 3; spaces1; lits "ON"; spaces1; word 4; Lit "."; word 5;
       spaces0; Lit "="; spaces0; word 6; Lit "."; word 7; where_group 8].

Definition join_syntax : string :=
  "Invalid JOIN syntax. Expected: SELECT ... FROM table1 JOIN table2 ON table1.col = table2.col".

Definition _parse_select_with_join `{FloatText} (query : string) : parsed :=
  match re_match pattern_join query with
  | None => Failed join_syntax
  | Some g =>
      let columns_str := strip (group_text g 1) in
      Parsed (SELECT_JOIN
        (SelectJoin (parse_columns columns_str) (group_text g 2) (group_text g 3)
           (JoinCondition (group_text g 4) (group_text g 5)
                          (group_text g 6) (group_text g 7))
           (parse_where_group (group g 8))))
  end.

Definition select_source : string :=
  "SELECT\s+(.*?)\s+FROM\s+(\w+)(?:\s+WHERE\s+(.*))?".

(** [select_source] as a tree. *)
Definition pattern_select : re :=
  seq [lits "SELECT"; spaces1; Rep dot 0 false (Some 1); spaces1; lits "FROM";
       spaces1; word 2; where_group 3].

Definition _parse_select `{FloatText} (query : string) : parsed :=
  if upper_contains "JOIN" query then _parse_select_with_join query
  else
    match re_match pattern_select query with
    | None => Failed "Invalid SELECT syntax"
    | Some g =>
        let columns_str := strip (group_text g 1) in
        Parsed (SELECT (group_text g 2) (parse_columns columns_str)
                       (parse_where_group (group g 3)))
    end.

(** *** UPDATE *)

Definition update_source : string :=
  "UPDATE\s+(\w+)\s+SET\s+(.+?)(?:\s+WHERE\s+(.*))?$".

(** [update_source] as a tree. *)
Definition pattern_update : re :=
  seq [lits "UPDATE"; spaces1; word 1; spaces1; lits "SET"; spaces1;
       Rep dot 1 false (Some 2); where_group 3; AtEnd].

(** [set_values[col] = val]: the value of a column that is there is
    replaced where it stands, a new column goes to the end. *)
Fixpoint assign (set_values : list (string * value)) (col : string) (val : value)
  : list (string * value) :=
  match set_values with
  | [] => [(col, val)]
  | (c, v) :: rest =>
      if String.eqb c col then (c, val) :: rest else (c, v) :: assign rest col val
  end.

(** [for part in set_parts]; the part without an equals sign on the
    right. *)
Fixpoint scan_set `{FloatText} (set_parts : list string)
    (set_values : list (string * value)) : list (string * value) + string :=
  match set_parts with
  | [] => inl set_values
  | part :: set_parts' =>
      if negb (existsb (Ascii.eqb "="%char) (list_ascii_of_string part)) then inr part
      else
        let (col, val) := split_once part "="%char in
        scan_set set_parts'
          (assign set_values (strip col) (_parse_single_value (strip val)))
  end.

Definition _parse_update `{FloatText} (query : string) : parsed :=
  match re_match pattern_update query with
  | None => Failed "Invalid UPDATE syntax"
  | Some g =>
      let table_name := group_text g 1 in
      let set_str := group_text g 2 in
      match scan_set (map strip (split set_str ","%char)) [] with
      | inr part => Failed ("Invalid SET clause: " +:+ part)
      | inl set_values =>
          Parsed (UPDATE table_name set_values (parse_where_group (group g 3)))
      end
  end.

(** *** DELETE *)

Definition delete_source : string := "DELETE FROM\s+(\w+)(?:\s+WHERE\s+(.*))?".

(** [delete_source] as a tree. *)
Definition pattern_delete : re :=
  seq [lits "DELETE FROM"; spaces1; word 1; where_group 2].

Definition _parse_delete `{FloatText} (query : string) : parsed :=
  match re_match pattern_delete query with
  | None => Failed "Invalid DELETE syntax"
  | Some g => Parsed (DELETE (group_text g 1) (parse_where_group (group g 2)))
  end.

(** *** parse *)

Definition parse `{FloatText} (query : string) : option parsed :=
  let query := strip query in
  if upper_starts_with "CREATE TABLE" query then _parse_create_table query
  else if upper_starts_with "INSERT INTO" query then Some (_parse_insert query)
  else if upper_starts_with "SELECT" query then Some (_parse_select query)
  else if upper_starts_with "UPDATE" query then Some (_parse_update query)
  else if upper_starts_with "DELETE FROM" query then Some (_parse_delete query)
  else Some (Failed "Unsupported query type").

End Statements.

(** [SimpleDB.execute], inside its [try]: a statement that does not parse
    gives the failure with the parser's message, one that parses goes to
    its handler.  The [except] clause turns an exception that escapes into
    a failure result ("Error executing query: ..."); here it stays
    [Raised].  [None]: [parse] has no result in the model. *)
Definition execute `{FloatText} (tables : gmap string Table.t) (query : string)
  : option (gmap string Table.t * outcome result) :=
  match Statements.parse query with
  | None => None
  | Some (Statements.Failed message) => Some (tables, Returned (status false message))
  | Some (Statements.Parsed s) => Some (SimpleDB.route tables s)
  end.

(* ===================================================================== *)
(** * The vocabulary of the properties                                     *)
(* ===================================================================== *)

(** ** Indexes that reflect the rows *)

(** [d] is an exact index of column [col] over the rows [rs]: as many
    entries as rows, every row found at its position under its value, and
    every entry pointing at a row that holds its key. *)
Record index_exact (col : string) (rs : list row) (d : dict) : Prop := {
  one_entry_per_row : length d = length rs;
  no_missing_entry :
    forall i r, rs !! i = Some r ->
      exists v, r !! col = Some v /\ dict_get d v = Some i;
  no_stale_entry :
    forall k i, (k, i) ∈ d ->
      exists r v, rs !! i = Some r /\ r !! col = Some v /\ py_eq v k = true
}.

(** The entries an index built in row order holds: the [i]-th key with
    position [from + i]. *)
Fixpoint number_from (from : nat) (keys : list value) : dict :=
  match keys with
  | [] => []
  | k :: keys' => (k, from) :: number_from (S from) keys'
  end.

(** No key equals a later one. *)
Fixpoint distinct (keys : list value) : Prop :=
  match keys with
  | [] => True
  | k :: keys' => Forall (fun k' => py_eq k k' = false) keys' /\ distinct keys'
  end.

(** The value of a row in a column it has. *)
Definition key_of (col : string) (r : row) : value :=
  default (VInt 0) (r !! col).

(** The form in which the code keeps an index of [col] in step with the
    rows: every row has the column, the values are distinct, and the
    entries are the values in row order, numbered from 0. *)
Definition indexed (col : string) (rs : list row) (d : dict) : Prop :=
  Forall (fun r : row => is_Some (r !! col)) rs
  /\ distinct (map (key_of col) rs)
  /\ d = number_from 0 (map (key_of col) rs).

(** The primary index and every unique index are in step with the rows. *)
Definition synced (pk : string) (cols : list string) (rs : list row)
    (primary : dict) (indexes : gmap string dict) : Prop :=
  indexed pk rs primary
  /\ forall c, c ∈ cols -> exists d, indexes !! c = Some d /\ indexed c rs d.

Definition table_synced (tbl : Table.t) : Prop :=
  NoDup (Table.unique_columns tbl)
  /\ synced (Table.primary_key tbl) (Table.unique_columns tbl) (Table.rows tbl)
            (Table.primary_index tbl) (Table.unique_indexes tbl).

(** Positions each below the one before, the first below [n]. *)
Fixpoint below (n : nat) (idxs : list nat) : Prop :=
  match idxs with
  | [] => True
  | i :: rest => i < n /\ below i rest
  end.

(** ** Sequences of operations *)

(** The two operations that add and remove rows. *)
Inductive change :=
  | Insert (values : list value)
  | Delete (where_ : option where_clause).

Definition apply_change `{FloatText} (tbl : Table.t) (c : change) : Table.t :=
  match c with
  | Insert values => fst (Table.insert tbl values)
  | Delete where_ => fst (Table.delete tbl where_)
  end.

(** The table after a sequence of inserts and deletes; a call that fails
    or raises is followed by the next one, as under [execute]. *)
Definition run_changes `{FloatText} (tbl : Table.t) (cs : list change) : Table.t :=
  fold_left apply_change cs tbl.

(** The three operations on the rows. *)
Inductive operation :=
  | Change (c : change)
  | Update (set_values : list (string * value)) (where_ : option where_clause).

Definition apply_operation `{FloatText} (tbl : Table.t) (op : operation)
  : Table.t :=
  match op with
  | Change c => apply_change tbl c
  | Update set_values where_ => fst (Table.update tbl set_values where_)
  end.

Definition run `{FloatText} (tbl : Table.t) (ops : list operation) : Table.t :=
  fold_left apply_operation ops tbl.

(** Every row has every column of the table. *)
Definition complete (tbl : Table.t) : Prop :=
  Forall (fun r : row => forall c, c ∈ Table.column_names tbl -> is_Some (r !! c))
         (Table.rows tbl).

(** ** Joins *)

(** The number of pairs (left row, right row) whose join-column values are
    equal under [eq]. *)
Definition pair_matches (eq : value -> value -> bool) (lc rc : string)
    (p : row * row) : bool :=
  match fst p !! lc, snd p !! rc with
  | Some a, Some b => eq a b
  | _, _ => false
  end.

Definition matching_pairs (eq : value -> value -> bool) (lc rc : string)
    (ls rs : list row) : nat :=
  length (List.filter (pair_matches eq lc rc) (list_prod ls rs)).

(** Equality as the data model of the specification words it: structural
    and sensitive to the type, the integer 1 and the float 1.0 distinct. *)
Definition typed_eq (a b : value) : bool :=
  match a, b with
  | VInt x, VInt y => (x =? y)%Z
  | VFloat f, VFloat g => number_eqb (float_number f) (float_number g)
  | VText s, VText t => String.eqb s t
  | _, _ => false
  end.

(** ** Value lists *)

(** The segments of a value list: the text between the commas that stand
    outside quotes, the quote characters themselves left out. *)
Record pieces := Pieces {
  finished : list string;
  piece : string;
  quoted : bool;
  quote : option ascii
}.

Definition piece_char (st : pieces) (char : ascii) : pieces :=
  if is_quote char && negb (quoted st) then
    Pieces (finished st) (piece st) true (Some char)
  else if same_quote (quote st) char && quoted st then
    Pieces (finished st) (piece st) false None
  else if Ascii.eqb char ","%char && negb (quoted st) then
    Pieces (finished st ++ [piece st]) "" (quoted st) (quote st)
  else
    Pieces (finished st) (piece st +:+ String char "") (quoted st) (quote st).

Definition split_pieces (values_str : string) : pieces :=
  fold_left piece_char (list_ascii_of_string values_str) (Pieces [] "" false None).

Definition segments (values_str : string) : list string :=
  finished (split_pieces values_str) ++ [piece (split_pieces values_str)].

Definition last_segment (values_str : string) : string :=
  piece (split_pieces values_str).

(** A segment that is empty or whitespace. *)
Definition blank (s : string) : bool := String.eqb (strip s) "".

(** ** Updates *)

(** The number of rows a WHERE predicate matches. *)
Definition matched (w : where_clause) (rs : list row) : nat :=
  length (List.filter (row_matches w) rs).

(** The assignment to [col] converts: it is not to a column of the table,
    or its value converts to the declared type. *)
Definition converts `{FloatText} (tbl : Table.t) (a : string * value) : Prop :=
  fst a ∈ Table.column_names tbl ->
  exists ty x, Table.column_types tbl !! fst a = Some ty
               /\ convert_value (snd a) ty = Converted x.

(** ** What the proofs carry along *)

(** What the rows and the unique indexes need for the loops of [delete]
    to raise nothing: the key column and the unique columns in every row,
    and an index for every unique column. *)
Definition keyed (tbl : Table.t) : Prop :=
  Forall (fun r : row => is_Some (r !! Table.primary_key tbl)
            /\ forall c, c ∈ Table.unique_columns tbl -> is_Some (r !! c))
         (Table.rows tbl)
  /\ forall c, c ∈ Table.unique_columns tbl ->
       is_Some (Table.unique_indexes tbl !! c).

Definition same_schema (a b : Table.t) : Prop :=
  Table.name a = Table.name b /\ Table.columns a = Table.columns b
  /\ Table.primary_key a = Table.primary_key b
  /\ Table.unique_columns a = Table.unique_columns b.

(** The state of [_parse_values] that goes with a state of the splitting. *)
Definition scan_of `{FloatText} (p : pieces) : scan :=
  Scan (map (fun s => _parse_single_value (strip s)) (finished p))
       (piece p) (quoted p) (quote p).

(** [complete], as a computation. *)
Definition complete_check (tbl : Table.t) : bool :=
  forallb (fun r : row =>
             forallb (fun c => bool_decide (is_Some (r !! c)))
                     (Table.column_names tbl))
          (Table.rows tbl).

(** Every entry of the primary index points at a row. *)
Definition in_range (tbl : Table.t) : Prop :=
  Forall (fun e : value * nat => snd e < length (Table.rows tbl))
         (Table.primary_index tbl).

(** Every value stored in a column passes [validate_type] at the type the
    table declares for the column. *)
Definition typed (tbl : Table.t) : Prop :=
  Forall (fun r : row =>
            forall c ty v, Table.column_types tbl !! c = Some ty ->
              r !! c = Some v -> validate_type v ty = true)
         (Table.rows tbl).

(** What every table has that was made by [Table.__init__] and changed
    by the three operations only. *)
Definition sound (tbl : Table.t) : Prop :=
  keyed tbl /\ in_range tbl /\ typed tbl.

(** An operation that assigns no primary-key and no unique column. *)
Definition assigns_no_key (pk : string) (unique : list string) (op : operation)
  : Prop :=
  match op with
  | Change _ => True
  | Update set_values _ =>
      forall c, c ∈ map fst set_values -> c <> pk /\ c ∉ unique
  end.

(** What an update makes of a row when every assignment converts. *)
Definition updated `{FloatText} (tbl : Table.t) (set_values : list (string * value))
    (w : where_clause) (r : row) : row :=
  if row_matches w r then fst (Table.set_columns tbl set_values r) else r.

(** ** Databases *)

(** The database after a sequence of parsed statements; a statement that
    fails or raises is followed by the next one, as under [execute]. *)
Definition run_statements `{FloatText} (tables : gmap string Table.t)
    (stmts : list SimpleDB.statement) : gmap string Table.t :=
  fold_left (fun t s => fst (SimpleDB.route t s)) stmts tables.

(** The table a statement can change. *)
Definition statement_table (s : SimpleDB.statement) : option string :=
  match s with
  | SimpleDB.CREATE_TABLE table_name _ _ _ => Some table_name
  | SimpleDB.INSERT table_name _ => Some table_name
  | SimpleDB.UPDATE table_name _ _ => Some table_name
  | SimpleDB.DELETE table_name _ => Some table_name
  | SimpleDB.SELECT _ _ _ => None
  | SimpleDB.SELECT_JOIN _ => None
  end.

(** ** Joined rows *)

(** The cells of a joined row under [*]: those of the left row in the left
    table's column order, then those of the right row. *)
Definition joined_cells (l r : Table.t) (p : row * row) : list (option value) :=
  project (Table.column_names l) (fst p) ++ project (Table.column_names r) (snd p).

(** A name made of word characters, as the parser's [\w+] takes it. *)
Definition identifier (s : string) : Prop :=
  Forall (fun c => is_word c = true) (list_ascii_of_string s).

(** ** The digits of an integer *)

(** The runtime converts between an integer and its text up to 4300
    digits; a conversion of more digits raises [ValueError], in [str()]
    and in an f-string as in [int()]. *)
Definition within_digit_limit (z : Z) : Prop := (Z.abs z < 10 ^ 4300)%Z.

(** A value that [str()] and an f-string print. *)
Definition prints (v : value) : Prop :=
  match v with
  | VInt z => within_digit_limit z
  | VFloat _ | VText _ => True
  end.

(** ** Texts of a known shape *)

(** The text does not go on with a character of the class. *)
Definition stops (cls : ascii -> bool) (s : list ascii) : Prop :=
  match s with
  | [] => True
  | x :: _ => cls x = false
  end.

(** A name as a list of characters: one or more word characters. *)
Definition name_chars (t : list ascii) : Prop :=
  t <> [] /\ Forall (fun c => is_word c = true) t.

(** No blank of the text stands before the letter W, in either case. *)
Fixpoint no_where_start (l : list ascii) : bool :=
  match l with
  | [] => true
  | c :: l' =>
      match l' with
      | y :: _ => negb (is_space c && Ascii.eqb (upper_char y) "W"%char)
      | [] => true
      end && no_where_start l'
  end.

(** ** Column definitions of a known shape *)











(* ===================================================================== *)
(** * Tables and statements of the examples                                *)
(* ===================================================================== *)

(** A runtime for running the examples: it reads no text as a float and
    prints every float the same.  The examples convert no text to a float
    and no float to text, so they hold under every runtime. *)
Definition no_floats : FloatText :=
  {| float_of_text := fun _ => None; text_of_float := fun _ => "float" |}.

(** The two tables of the join test, after its five inserts. *)
Definition ex_users : Table.t :=
  Table.Make "users" [("id", "INT"); ("name", "TEXT")] "id" []
    [ <["id" := VInt 1]> {["name" := VText "John Doe"]};
      <["id" := VInt 2]> {["name" := VText "Jane Smith"]} ]
    [(VInt 1, 0); (VInt 2, 1)] ∅.

Definition ex_orders : Table.t :=
  Table.Make "orders" [("id", "INT"); ("user_id", "INT"); ("product", "TEXT")]
    "id" []
    [ <["id" := VInt 101]> (<["user_id" := VInt 1]> {["product" := VText "Laptop"]});
      <["id" := VInt 102]> (<["user_id" := VInt 1]> {["product" := VText "Mouse"]});
      <["id" := VInt 103]> (<["user_id" := VInt 2]> {["product" := VText "Keyboard"]}) ]
    [(VInt 101, 0); (VInt 102, 1); (VInt 103, 2)] ∅.

Definition ex_tables : gmap string Table.t :=
  <["users" := ex_users]> {["orders" := ex_orders]}.

(** [SELECT * FROM users JOIN orders ON users.id = orders.user_id WHERE ...] *)
Definition ex_join (where_ : option where_clause) : SimpleDB.select_join :=
  SimpleDB.SelectJoin ["*"] "users" "orders"
    (SimpleDB.JoinCondition "users" "id" "orders" "user_id") where_.

Definition ex_join_columns : list string :=
  ["users.id"; "users.name"; "orders.id"; "orders.user_id"; "orders.product"].

Definition ex_joined_1 : list (list (option value)) :=
  [ [Some (VInt 1); Some (VText "John Doe"); Some (VInt 101); Some (VInt 1);
     Some (VText "Laptop")];
    [Some (VInt 1); Some (VText "John Doe"); Some (VInt 102); Some (VInt 1);
     Some (VText "Mouse")] ].

Definition ex_joined_2 : list (list (option value)) :=
  [ [Some (VInt 2); Some (VText "Jane Smith"); Some (VInt 103); Some (VInt 2);
     Some (VText "Keyboard")] ].

Definition ex_users_3 : Table.t :=
  fst (Table.insert (H := no_floats) ex_users [VInt 3; VText "Jim"]).

Definition ex_where_id_1 : where_clause := Where "id" (VInt 1).

Definition ex_row_1 : row := <["id" := VInt 1]> {["name" := VText "John Doe"]}.
Definition ex_row_1_renamed : row :=
  <["id" := VInt 1]> {["name" := VText "Jonathan"]}.


(** The users table of the scenarios: [id INT PRIMARY KEY, name TEXT,
    email TEXT UNIQUE]. *)
Definition sc_users : Table.t :=
  Table.init "users" [("id", "INT"); ("name", "TEXT"); ("email", "TEXT")]
             "id" ["email"].

Definition sc_john : list value := [VInt 1; VText "John"; VText "j@x.com"].

(** A table keyed by an integer and a table that refers to it through a
    FLOAT column. *)
Definition cex_users : Table.t :=
  Table.Make "users" [("id", "INT")] "id" []
    [ {["id" := VInt 1]} ] [(VInt 1, 0)] ∅.

Definition cex_orders : Table.t :=
  Table.Make "orders" [("id", "INT"); ("user_id", "FLOAT")] "id" []
    [ <["id" := VInt 7]> {["user_id" := VFloat (FFinite false 1 0)]} ]
    [(VInt 7, 0)] ∅.

Definition cex_tables : gmap string Table.t :=
  <["users" := cex_users]> {["orders" := cex_orders]}.

Definition cex_join : SimpleDB.select_join :=
  SimpleDB.SelectJoin ["*"] "users" "orders"
    (SimpleDB.JoinCondition "users" "id" "orders" "user_id") None.

(** ** More tables and statements of the examples *)

Definition ex_where_id_2 : where_clause := Where "id" (VInt 2).

Definition ex_row_2 : row := <["id" := VInt 2]> {["name" := VText "Jane Smith"]}.

Definition ex_rename : list (string * value) := [("name", VText "Jonathan")].

(** Operations on the users table of the scenarios that assign no key. *)
Definition sc_columns : list (string * string) :=
  [("id", "INT"); ("name", "TEXT"); ("email", "TEXT")].

Definition sc_jane : list value := [VInt 2; VText "Jane"; VText "k@x.com"].

Definition sc_ops : list operation :=
  [Change (Insert sc_john); Change (Insert sc_jane);
   Update ex_rename (Some ex_where_id_1)].

Definition sc_row_1 : row :=
  <["id" := VInt 1]> (<["name" := VText "Jonathan"]> {["email" := VText "j@x.com"]}).

Definition sc_row_2 : row :=
  <["id" := VInt 2]> (<["name" := VText "Jane"]> {["email" := VText "k@x.com"]}).

(** The statements that make the one-column users table. *)
Definition cex_statements : list SimpleDB.statement :=
  [SimpleDB.CREATE_TABLE "users" [("id", "INT")] "id" [];
   SimpleDB.INSERT "users" [VInt 1]].

Definition ex_statements : list SimpleDB.statement :=
  [SimpleDB.DELETE "users" (Some ex_where_id_1);
   SimpleDB.CREATE_TABLE "users" [("x", "INT")] "x" []].

Definition ex_row_3 : row := <["id" := VInt 3]> {["name" := VText "Jim"]}.

(** [SELECT * FROM orders JOIN orders ON orders.user_id = orders.user_id] *)
Definition ex_self_join : SimpleDB.select_join :=
  SimpleDB.SelectJoin ["*"] "orders" "orders"
    (SimpleDB.JoinCondition "orders" "user_id" "orders" "user_id") None.


(* ===================================================================== *)
(** * Lemmas and theorems                                                  *)
(* ===================================================================== *)

(** ** Equality of values *)

Section py_eq_facts.

Lemma dyadic_eqb_refl m e : dyadic_eqb m e m e = true.
Proof. unfold dyadic_eqb. apply Z.eqb_refl. Qed.

Lemma dyadic_eqb_sym m1 e1 m2 e2 : dyadic_eqb m1 e1 m2 e2 = dyadic_eqb m2 e2 m1 e1.
Proof. unfold dyadic_eqb. rewrite (Z.min_comm e2 e1). apply Z.eqb_sym. Qed.

(** Scaling both sides to any common exponent below the two decides the
    same equation. *)
Lemma dyadic_eqb_at m1 e1 m2 e2 k :
  (k <= e1)%Z -> (k <= e2)%Z ->
  dyadic_eqb m1 e1 m2 e2 = true <-> (m1 * 2 ^ (e1 - k) = m2 * 2 ^ (e2 - k))%Z.
Proof.
  intros H1 H2. unfold dyadic_eqb. rewrite Z.eqb_eq.
  set (mu := Z.min e1 e2).
  assert (Hmu1 : (mu <= e1)%Z) by (subst mu; lia).
  assert (Hmu2 : (mu <= e2)%Z) by (subst mu; lia).
  assert (Hk : (k <= mu)%Z) by (subst mu; lia).
  replace (e1 - k)%Z with ((e1 - mu) + (mu - k))%Z by lia.
  replace (e2 - k)%Z with ((e2 - mu) + (mu - k))%Z by lia.
  rewrite !Z.pow_add_r by lia.
  rewrite !Z.mul_assoc.
  assert (Hpos : (0 < 2 ^ (mu - k))%Z) by (apply Z.pow_pos_nonneg; lia).
  split.
  - intros ->. reflexivity.
  - intros H. apply Z.mul_cancel_r in H; [exact H | lia].
Qed.

Lemma dyadic_eqb_trans m1 e1 m2 e2 m3 e3 :
  dyadic_eqb m1 e1 m2 e2 = true -> dyadic_eqb m2 e2 m3 e3 = true ->
  dyadic_eqb m1 e1 m3 e3 = true.
Proof.
  set (k := Z.min e1 (Z.min e2 e3)).
  intros H12 H23.
  apply (dyadic_eqb_at m1 e1 m2 e2 k) in H12; [| subst k; lia ..].
  apply (dyadic_eqb_at m2 e2 m3 e3 k) in H23; [| subst k; lia ..].
  apply (dyadic_eqb_at m1 e1 m3 e3 k); [subst k; lia .. |].
  congruence.
Qed.

Lemma number_eqb_refl a : number_eqb a a = true.
Proof. destruct a as [m e | []]; simpl; auto using dyadic_eqb_refl. Qed.

Lemma number_eqb_sym a b : number_eqb a b = number_eqb b a.
Proof.
  destruct a as [m1 e1 | s1], b as [m2 e2 | s2]; simpl; auto using dyadic_eqb_sym.
  destruct s1, s2; reflexivity.
Qed.

Lemma number_eqb_trans a b c :
  number_eqb a b = true -> number_eqb b c = true -> number_eqb a c = true.
Proof.
  destruct a as [m1 e1 | s1], b as [m2 e2 | s2], c as [m3 e3 | s3]; simpl;
    try discriminate; eauto using dyadic_eqb_trans.
  destruct s1, s2, s3; simpl; congruence.
Qed.

Lemma py_eq_refl v : py_eq v v = true.
Proof.
  destruct v; simpl.
  - apply Z.eqb_refl.
  - apply number_eqb_refl.
  - apply String.eqb_refl.
Qed.

Lemma py_eq_sym a b : py_eq a b = py_eq b a.
Proof.
  destruct a, b; simpl; auto using number_eqb_sym, Z.eqb_sym, String.eqb_sym.
Qed.

Lemma int_as_number x y : (x =? y)%Z = number_eqb (Dyadic x 0) (Dyadic y 0).
Proof.
  simpl. unfold dyadic_eqb. rewrite Z.min_id, Z.sub_diag. simpl.
  rewrite !Z.mul_1_r. reflexivity.
Qed.

Lemma py_eq_trans a b c :
  py_eq a b = true -> py_eq b c = true -> py_eq a c = true.
Proof.
  destruct a, b, c; unfold py_eq; try discriminate;
    rewrite ?int_as_number; try (intros; eapply number_eqb_trans; eassumption).
  intros H1 H2. apply String.eqb_eq in H1, H2. apply String.eqb_eq. congruence.
Qed.

End py_eq_facts.

(** ** Dictionaries and indexes *)

Section dict_facts.

Lemma py_eq_compat k0 k k' :
  py_eq k k' = true -> py_eq k0 k = py_eq k0 k'.
Proof.
  intros E. destruct (py_eq k0 k) eqn:E1.
  - symmetry. eauto using py_eq_trans.
  - destruct (py_eq k0 k') eqn:E2; [| reflexivity].
    rewrite py_eq_sym in E. rewrite <- E1. eauto using py_eq_trans.
Qed.

Lemma dict_get_proper d k k' :
  py_eq k k' = true -> dict_get d k = dict_get d k'.
Proof.
  intros E. induction d as [| [k0 v] d IH]; simpl; [reflexivity |].
  rewrite (py_eq_compat k0 k k' E), IH. reflexivity.
Qed.

Lemma dict_get_set d k k' v :
  py_eq k k' = true -> dict_get (dict_set d k v) k' = Some v.
Proof.
  intros E. induction d as [| [k0 v0] d IH]; simpl.
  - rewrite E. reflexivity.
  - destruct (py_eq k0 k) eqn:E0; simpl.
    + rewrite <- (py_eq_compat k0 k k' E), E0. reflexivity.
    + rewrite <- (py_eq_compat k0 k k' E), E0. exact IH.
Qed.

Lemma dict_get_fresh d k :
  dict_get d k = None <-> Forall (fun e => py_eq (fst e) k = false) d.
Proof.
  induction d as [| [k0 v0] d IH]; simpl.
  - split; [constructor | reflexivity].
  - destruct (py_eq k0 k) eqn:E0.
    + split; [discriminate |]. intros H. inversion H; subst. simpl in *. congruence.
    + rewrite IH. split.
      * intros H. constructor; assumption.
      * intros H. inversion H; assumption.
Qed.

Lemma dict_mem_false k d :
  dict_mem k d = false -> Forall (fun e => py_eq (fst e) k = false) d.
Proof.
  unfold dict_mem. intros H. apply dict_get_fresh.
  destruct (dict_get d k); [discriminate | reflexivity].
Qed.

Lemma dict_set_fresh d k v :
  Forall (fun e => py_eq (fst e) k = false) d -> dict_set d k v = d ++ [(k, v)].
Proof.
  induction 1 as [| [k0 v0] d E _ IH]; simpl; [reflexivity |].
  simpl in E. rewrite E, IH. reflexivity.
Qed.

End dict_facts.

Section index_facts.

Lemma map_fmap {A B} (f : A -> B) (l : list A) : map f l = f <$> l.
Proof. induction l; simpl; f_equal; auto. Qed.

Lemma Forall_sublist {A} (P : A -> Prop) (l1 l2 : list A) :
  sublist l1 l2 -> Forall P l2 -> Forall P l1.
Proof.
  intros S F. rewrite Forall_forall in *. intros x Hx.
  apply F. eapply elem_of_sublist; eassumption.
Qed.

Lemma number_from_app from a b :
  number_from from (a ++ b)
  = number_from from a ++ number_from (from + length a) b.
Proof.
  revert from. induction a as [| k a IH]; intros from; simpl.
  - rewrite Nat.add_0_r. reflexivity.
  - rewrite IH, Nat.add_succ_r. reflexivity.
Qed.

Lemma number_from_length from ks : length (number_from from ks) = length ks.
Proof. revert from. induction ks; intros; simpl; auto. Qed.

Lemma number_from_keys from ks : map fst (number_from from ks) = ks.
Proof. revert from. induction ks; intros; simpl; f_equal; auto. Qed.

Lemma elem_of_number_from from ks k i :
  (k, i) ∈ number_from from ks <-> exists j, i = from + j /\ ks !! j = Some k.
Proof.
  revert from. induction ks as [| k0 ks IH]; intros from; simpl.
  - split; [intros H; inversion H | intros (j & _ & H); discriminate].
  - rewrite elem_of_cons, IH. split.
    + intros [E | (j & -> & H)].
      * inversion E; subst. exists 0. split; [lia | reflexivity].
      * exists (S j). split; [lia | exact H].
    + intros ([| j] & -> & H); simpl in H.
      * left. inversion H. f_equal. lia.
      * right. exists j. split; [lia | exact H].
Qed.

Lemma dict_get_number_from from ks j k :
  distinct ks -> ks !! j = Some k ->
  dict_get (number_from from ks) k = Some (from + j).
Proof.
  revert from j. induction ks as [| k0 ks IH]; intros from j D H; [discriminate |].
  destruct D as [D0 D]. destruct j as [| j]; simpl in *.
  - inversion H; subst. rewrite py_eq_refl. f_equal. lia.
  - rewrite Forall_forall in D0.
    rewrite (D0 k) by (eapply list_elem_of_lookup_2; exact H).
    rewrite (IH (S from) j D H). f_equal. lia.
Qed.

Lemma distinct_snoc ks k :
  distinct ks -> Forall (fun k' => py_eq k' k = false) ks -> distinct (ks ++ [k]).
Proof.
  induction ks as [| k0 ks IH]; simpl.
  - intros _ _. split; [constructor | exact I].
  - intros [D0 D] F. inversion F; subst. split.
    + apply Forall_app. split; [exact D0 | constructor; [assumption | constructor]].
    + apply IH; assumption.
Qed.

Lemma distinct_sublist l1 l2 : sublist l1 l2 -> distinct l2 -> distinct l1.
Proof.
  induction 1 as [| x l1 l2 S IH | x l1 l2 S IH]; simpl.
  - trivial.
  - intros [D0 D]. split; [| auto].
    eapply Forall_sublist; eassumption.
  - intros [_ D]. auto.
Qed.

Lemma indexed_nil col : indexed col [] [].
Proof. repeat split; constructor. Qed.

Lemma key_of_lookup col (r : row) v : r !! col = Some v -> key_of col r = v.
Proof. unfold key_of. intros ->. reflexivity. Qed.

Lemma indexed_exact col (rs : list row) d : indexed col rs d -> index_exact col rs d.
Proof.
  intros (C & D & ->). split.
  - rewrite number_from_length, length_map. reflexivity.
  - intros i r Hr.
    rewrite Forall_forall in C.
    destruct (C r) as [v Hv].
    { eapply list_elem_of_lookup_2; exact Hr. }
    exists v. split; [exact Hv |].
    change i with (0 + i). apply dict_get_number_from; [exact D |].
    rewrite map_fmap, list_lookup_fmap, Hr. simpl. f_equal. apply key_of_lookup, Hv.
  - intros k i Hin. apply elem_of_number_from in Hin as (j & -> & Hj).
    rewrite map_fmap, list_lookup_fmap in Hj. simpl.
    destruct (rs !! j) as [r |] eqn:Hr; [| discriminate].
    simpl in Hj. inversion Hj; subst.
    rewrite Forall_forall in C.
    destruct (C r) as [v Hv].
    { eapply list_elem_of_lookup_2; exact Hr. }
    exists r, v. repeat split; [exact Hv |].
    rewrite (key_of_lookup _ _ _ Hv). apply py_eq_refl.
Qed.

End index_facts.

(** ** Indexes under insert *)

Section sync_facts.

Lemma distinct_before a k b :
  distinct (a ++ k :: b) -> Forall (fun k' => py_eq k' k = false) a.
Proof.
  induction a as [| x a IH]; simpl; [constructor |].
  intros [F D]. constructor; [| auto].
  rewrite Forall_forall in F. apply F. apply elem_of_app. right. left.
Qed.

(** The step both [insert] and [_rebuild_indexes] take: one more row,
    whose value no earlier row has. *)
Lemma indexed_snoc_fresh col (rs : list row) d (r : row) v :
  indexed col rs d -> r !! col = Some v ->
  Forall (fun k' => py_eq k' v = false) (map (key_of col) rs) ->
  indexed col (rs ++ [r]) (dict_set d v (length rs)).
Proof.
  intros (C & D & ->) Hv F.
  rewrite dict_set_fresh.
  - repeat split.
    + apply Forall_app. split; [exact C | constructor; [eauto | constructor]].
    + rewrite map_app. simpl. rewrite (key_of_lookup _ _ _ Hv).
      apply distinct_snoc; assumption.
    + rewrite map_app, number_from_app. simpl.
      rewrite (key_of_lookup _ _ _ Hv), length_map. reflexivity.
  - apply Forall_forall. intros [k i] Hin. simpl.
    rewrite Forall_forall in F. apply F.
    rewrite <- (number_from_keys 0 (map (key_of col) rs)), (map_fmap fst).
    apply list_elem_of_fmap. exists (k, i). split; [reflexivity | exact Hin].
Qed.

Lemma indexed_fresh col (rs : list row) d v :
  indexed col rs d -> dict_mem v d = false ->
  Forall (fun k' => py_eq k' v = false) (map (key_of col) rs).
Proof.
  intros (_ & _ & ->) M. apply dict_mem_false in M.
  rewrite <- (number_from_keys 0 (map (key_of col) rs)).
  rewrite Forall_forall in M. apply Forall_forall. intros k Hk.
  rewrite map_fmap in Hk.
  apply list_elem_of_fmap in Hk as ([k' i] & -> & Hin). apply (M _ Hin).
Qed.

Lemma index_unique_spec cols (r : row) idx (u : gmap string dict) :
  NoDup cols ->
  (forall c, c ∈ cols -> is_Some (r !! c) /\ is_Some (u !! c)) ->
  exists u', Table.index_unique cols r idx u = (u', None)
    /\ (forall c, c ∉ cols -> u' !! c = u !! c)
    /\ (forall c v d, c ∈ cols -> r !! c = Some v -> u !! c = Some d ->
          u' !! c = Some (dict_set d v idx)).
Proof.
  revert u. induction cols as [| col cols IH]; intros u ND Hpres; simpl.
  - exists u. split; [reflexivity |]. split; [reflexivity |].
    intros c v d Hc. inversion Hc.
  - destruct (Hpres col) as [[v Hv] [d Hd]]; [left |].
    rewrite Hd, Hv.
    apply NoDup_cons in ND as [Hnotin ND].
    destruct (IH (<[col := dict_set d v idx]> u) ND) as (u' & E & Hout & Hin).
    { intros c Hc. destruct (Hpres c) as [Hr Hu]; [right; exact Hc |].
      split; [exact Hr |].
      destruct (decide (col = c)) as [-> |]; [rewrite lookup_insert_eq; eauto |].
      rewrite lookup_insert_ne by assumption. exact Hu. }
    exists u'. split; [exact E |]. split.
    + intros c Hc. apply not_elem_of_cons in Hc as [Hne Hc].
      rewrite Hout by exact Hc. apply lookup_insert_ne. congruence.
    + intros c v' d' Hc Hv' Hd'.
      apply elem_of_cons in Hc as [-> | Hc].
      * rewrite Hout by assumption. rewrite lookup_insert_eq. congruence.
      * apply Hin; [assumption .. |].
        rewrite lookup_insert_ne; [assumption |]. intros ->. contradiction.
Qed.

Lemma check_unique_pass cols (r : row) (u : gmap string dict) :
  Table.check_unique cols r u = Table.Pass ->
  forall c, c ∈ cols ->
    exists v d, r !! c = Some v /\ u !! c = Some d /\ dict_mem v d = false.
Proof.
  induction cols as [| col cols IH]; simpl; intros H c Hc; [inversion Hc |].
  destruct (r !! col) as [v |] eqn:Hv; [| discriminate].
  destruct (u !! col) as [d |] eqn:Hd; [| discriminate].
  destruct (dict_mem v d) eqn:M; [discriminate |].
  apply elem_of_cons in Hc as [-> | Hc]; eauto.
Qed.

(** One more row whose values are fresh keeps the indexes in step. *)
Lemma synced_snoc pk cols (rs : list row) primary u (r : row) pkv :
  NoDup cols ->
  synced pk cols rs primary u ->
  r !! pk = Some pkv ->
  Forall (fun k' => py_eq k' pkv = false) (map (key_of pk) rs) ->
  (forall c, c ∈ cols -> exists v, r !! c = Some v
     /\ Forall (fun k' => py_eq k' v = false) (map (key_of c) rs)) ->
  exists u', Table.index_unique cols r (length rs) u = (u', None)
    /\ synced pk cols (rs ++ [r]) (dict_set primary pkv (length rs)) u'.
Proof.
  intros ND [Hp Hu] Hpk Fpk Fu.
  destruct (index_unique_spec cols r (length rs) u ND) as (u' & E & _ & Hin).
  { intros c Hc. destruct (Fu c Hc) as (v & Hv & _).
    destruct (Hu c Hc) as (d & Hd & _). eauto. }
  exists u'. split; [exact E |]. split.
  - apply indexed_snoc_fresh; assumption.
  - intros c Hc. destruct (Fu c Hc) as (v & Hv & F).
    destruct (Hu c Hc) as (d & Hd & Hi).
    exists (dict_set d v (length rs)). split; [eauto |].
    apply indexed_snoc_fresh; assumption.
Qed.

End sync_facts.

Section insert_facts.
Context `{FloatText}.

Lemma insert_synced tbl values :
  table_synced tbl -> table_synced (fst (Table.insert tbl values)).
Proof.
  intros [ND S]. unfold Table.insert.
  destruct (negb _); [split; assumption |].
  destruct (Table.build_row _ _ _) as [r | |]; try (split; assumption).
  destruct (r !! Table.primary_key tbl) as [pkv |] eqn:Hpk; [| split; assumption].
  destruct (dict_mem pkv (Table.primary_index tbl)) eqn:M; [split; assumption |].
  destruct (Table.check_unique _ _ _) eqn:Hc; try (split; assumption).
  destruct (synced_snoc _ _ _ _ _ r pkv ND S Hpk) as (u' & E & S').
  - destruct S as [Sp _]. eapply indexed_fresh; eassumption.
  - intros c Hcol.
    destruct (check_unique_pass _ _ _ Hc c Hcol) as (v & d & Hv & Hd & Md).
    exists v. split; [exact Hv |].
    destruct S as [_ Su]. destruct (Su c Hcol) as (d' & Hd' & Hi).
    assert (d' = d) by congruence. subst d'.
    eapply indexed_fresh; eassumption.
  - rewrite E. simpl. split; assumption.
Qed.

End insert_facts.

(** ** The loops of delete *)

Section delete_facts.

(** *** The positions that match *)

Lemma find_matching_bounds w (rs : list row) idx :
  Forall (fun j => idx <= j < idx + length rs) (find_matching w rs idx).
Proof.
  revert idx. induction rs as [| r rs IH]; intros idx; simpl; [constructor |].
  assert (T : Forall (fun j => idx <= j < idx + S (length rs))
                     (find_matching w rs (S idx))).
  { eapply Forall_impl; [apply IH |]. simpl. intros j. lia. }
  destruct (row_matches w r); [constructor; [lia | exact T] | exact T].
Qed.

Lemma find_matching_NoDup w (rs : list row) idx :
  NoDup (find_matching w rs idx).
Proof.
  revert idx. induction rs as [| r rs IH]; intros idx; simpl; [constructor |].
  destruct (row_matches w r); [| apply IH].
  constructor; [| apply IH].
  intros Hin. pose proof (find_matching_bounds w rs (S idx)) as B.
  rewrite Forall_forall in B. specialize (B _ Hin). lia.
Qed.

Lemma find_matching_length w (rs : list row) idx :
  length (find_matching w rs idx) = matched w rs.
Proof.
  unfold matched. revert idx. induction rs as [| r rs IH]; intros idx; simpl;
    [reflexivity |].
  destruct (row_matches w r); simpl; rewrite IH; reflexivity.
Qed.

(** *** Sorting them in reverse *)

#[local] Instance descending_trans : Transitive Table.descending.
Proof. unfold Table.descending. intros a b c. lia. Qed.

#[local] Instance descending_total : Total Table.descending.
Proof. unfold Table.descending. intros a b. lia. Qed.

Lemma below_mono n m idxs : n <= m -> below n idxs -> below m idxs.
Proof. destruct idxs; simpl; [trivial |]. intros ? [? ?]. split; [lia | assumption]. Qed.

Lemma strongly_sorted_below n idxs :
  StronglySorted Table.descending idxs -> NoDup idxs -> Forall (fun j => j < n) idxs ->
  below n idxs.
Proof.
  intros S. revert n. induction S as [| i rest S IH F]; intros n ND B; simpl;
    [exact I |].
  apply NoDup_cons in ND as [Hi ND]. inversion B; subst.
  split; [assumption |]. apply IH; [assumption |].
  rewrite Forall_forall in *. intros j Hj.
  pose proof (F j Hj) as L. unfold Table.descending in L.
  assert (j <> i) by (intros ->; contradiction). lia.
Qed.

Lemma sorted_reverse_below w (rs : list row) :
  below (length rs) (Table.sorted_reverse (find_matching w rs 0)).
Proof.
  unfold Table.sorted_reverse.
  pose proof (merge_sort_Permutation Table.descending (find_matching w rs 0)) as Pm.
  apply strongly_sorted_below.
  - apply StronglySorted_merge_sort; apply _.
  - rewrite Pm. apply find_matching_NoDup.
  - rewrite Pm. eapply Forall_impl; [apply find_matching_bounds |].
    simpl. intros j. lia.
Qed.

(** *** Removing the rows *)

Lemma unindex_unique_spec cols (r : row) (u : gmap string dict) :
  (forall c, c ∈ cols -> is_Some (r !! c) /\ is_Some (u !! c)) ->
  exists u', Table.unindex_unique cols r u = (u', None)
    /\ forall c, is_Some (u !! c) -> is_Some (u' !! c).
Proof.
  revert u. induction cols as [| col cols IH]; intros u Hpres; simpl.
  - exists u. split; [reflexivity | trivial].
  - destruct (Hpres col) as [[v Hv] [d Hd]]; [left |].
    rewrite Hv, Hd.
    set (u1 := if dict_mem v d then <[col := dict_del d v]> u else u).
    assert (K : forall c, is_Some (u !! c) -> is_Some (u1 !! c)).
    { intros c Hc. subst u1. destruct (dict_mem v d); [| exact Hc].
      destruct (decide (col = c)) as [-> |]; [rewrite lookup_insert_eq; eauto |].
      rewrite lookup_insert_ne by assumption. exact Hc. }
    destruct (IH u1) as (u' & E & K').
    { intros c Hc. destruct (Hpres c) as [Hr Hu]; [right; exact Hc |]. auto. }
    exists u'. split; [exact E | auto].
Qed.

Lemma remove_rows_spec idxs tbl :
  keyed tbl -> below (length (Table.rows tbl)) idxs ->
  exists tbl', Table.remove_rows tbl idxs = (tbl', None)
    /\ sublist (Table.rows tbl') (Table.rows tbl)
    /\ same_schema tbl' tbl
    /\ forall c, c ∈ Table.unique_columns tbl ->
         is_Some (Table.unique_indexes tbl' !! c).
Proof.
  revert tbl. induction idxs as [| idx idxs IH]; intros tbl K B; simpl.
  - exists tbl. repeat split; [reflexivity | apply K].
  - destruct B as [Hlt B]. destruct K as [Kr Ku].
    destruct (lookup_lt_is_Some_2 _ _ Hlt) as [r Hr]. rewrite Hr.
    pose proof (Forall_lookup_1 _ _ _ _ Kr Hr) as [[pkv Hpk] Hcols].
    rewrite Hpk.
    destruct (unindex_unique_spec (Table.unique_columns tbl) r
                (Table.unique_indexes tbl)) as (u' & E & Dom); [auto |].
    rewrite E.
    match goal with |- context [Table.remove_rows ?t idxs] => set (tbl1 := t) end.
    destruct (IH tbl1) as (tbl' & E' & Sub & Sch & Dom').
    + split; [apply Forall_delete; exact Kr | intros c Hc; apply Dom, Ku, Hc].
    + simpl. eapply below_mono; [| exact B].
      rewrite length_delete by eauto. lia.
    + exists tbl'. split; [exact E' |]. split; [| split].
      * etransitivity; [exact Sub |]. apply sublist_delete.
      * destruct Sch as (? & ? & ? & ?). repeat split; assumption.
      * exact Dom'.
Qed.

(** *** Rebuilding the indexes *)

Lemma clear_unique_spec cols (u : gmap string dict) :
  (forall c, c ∈ cols -> is_Some (u !! c)) ->
  exists u', Table.clear_unique cols u = (u', None)
    /\ (forall c, c ∈ cols -> u' !! c = Some [])
    /\ (forall c, c ∉ cols -> u' !! c = u !! c).
Proof.
  revert u. induction cols as [| col cols IH]; intros u Hpres; simpl.
  - exists u. split; [reflexivity |]. split; [| reflexivity].
    intros c Hc. inversion Hc.
  - destruct (Hpres col) as [d Hd]; [left |]. rewrite Hd.
    destruct (IH (<[col := []]> u)) as (u' & E & Hin & Hout).
    { intros c Hc. destruct (decide (col = c)) as [-> |];
        [rewrite lookup_insert_eq; eauto |].
      rewrite lookup_insert_ne by assumption. apply Hpres. right. exact Hc. }
    exists u'. split; [exact E |]. split.
    + intros c Hc. destruct (decide (c ∈ cols)) as [Hc' | Hc']; [auto |].
      apply elem_of_cons in Hc as [-> | Hc]; [| contradiction].
      rewrite Hout by exact Hc'. apply lookup_insert_eq.
    + intros c Hc. apply not_elem_of_cons in Hc as [Hne Hc].
      rewrite Hout by exact Hc. apply lookup_insert_ne. congruence.
Qed.

End delete_facts.

(** ** Indexes under delete, and after any sequence of changes *)

Section rebuild_facts.

Lemma sublist_map {A B} (f : A -> B) (l1 l2 : list A) :
  sublist l1 l2 -> sublist (map f l1) (map f l2).
Proof. intros S. rewrite !map_fmap. apply fmap_sublist, S. Qed.

Lemma rebuild_rows_synced pk cols (rs done : list row) primary u :
  NoDup cols ->
  synced pk cols done primary u ->
  Forall (fun r : row => is_Some (r !! pk)
            /\ forall c, c ∈ cols -> is_Some (r !! c)) rs ->
  distinct (map (key_of pk) (done ++ rs)) ->
  (forall c, c ∈ cols -> distinct (map (key_of c) (done ++ rs))) ->
  exists primary' u',
    Table.rebuild_rows pk cols rs (length done) primary u = (primary', u', None)
    /\ synced pk cols (done ++ rs) primary' u'.
Proof.
  intros ND. revert done primary u.
  induction rs as [| r rs IH]; intros done primary u S K Dp Du; simpl.
  - exists primary, u. rewrite app_nil_r. split; [reflexivity | exact S].
  - inversion K as [| ? ? [[v Hv] Hcols] K']; subst. rewrite Hv.
    destruct (synced_snoc pk cols done primary u r v ND S Hv) as (u1 & E & S1).
    + rewrite map_app in Dp. simpl in Dp.
      rewrite (key_of_lookup _ _ _ Hv) in Dp. eapply distinct_before, Dp.
    + intros c Hc. destruct (Hcols c Hc) as [x Hx]. exists x. split; [exact Hx |].
      specialize (Du c Hc). rewrite map_app in Du. simpl in Du.
      rewrite (key_of_lookup _ _ _ Hx) in Du. eapply distinct_before, Du.
    + rewrite E.
      destruct (IH (done ++ [r]) (dict_set primary v (length done)) u1)
        as (primary' & u' & E' & S').
      * exact S1.
      * exact K'.
      * rewrite <- app_assoc. exact Dp.
      * intros c Hc. rewrite <- app_assoc. exact (Du c Hc).
      * rewrite length_app, Nat.add_1_r in E'. simpl in E'.
        rewrite <- app_assoc in S'. simpl in S'.
        exists primary', u'. split; assumption.
Qed.

Lemma synced_keyed tbl : table_synced tbl -> keyed tbl.
Proof.
  intros [_ [(Cp & _ & _) Su]]. split.
  - apply Forall_forall. intros r Hr. split.
    + rewrite Forall_forall in Cp. exact (Cp r Hr).
    + intros c Hc. destruct (Su c Hc) as (d & _ & (Cc & _ & _)).
      rewrite Forall_forall in Cc. exact (Cc r Hr).
  - intros c Hc. destruct (Su c Hc) as (d & Hd & _). eauto.
Qed.

Lemma rebuild_indexes_synced tbl1 tbl :
  table_synced tbl ->
  sublist (Table.rows tbl1) (Table.rows tbl) ->
  same_schema tbl1 tbl ->
  (forall c, c ∈ Table.unique_columns tbl ->
     is_Some (Table.unique_indexes tbl1 !! c)) ->
  exists tbl2, Table._rebuild_indexes tbl1 = (tbl2, None)
    /\ table_synced tbl2 /\ same_schema tbl2 tbl.
Proof.
  intros St Sub (Hn & Hc & Hpk & Hu) Dom.
  pose proof (synced_keyed tbl St) as [Kr _].
  destruct St as [ND [(_ & Dp & _) Su]].
  unfold Table._rebuild_indexes. rewrite Hu, Hpk.
  destruct (clear_unique_spec (Table.unique_columns tbl)
              (Table.unique_indexes tbl1) Dom) as (u0 & E0 & Hin0 & _).
  rewrite E0.
  destruct (rebuild_rows_synced (Table.primary_key tbl) (Table.unique_columns tbl)
              (Table.rows tbl1) [] [] u0 ND) as (primary' & u' & E & S').
  - split; [apply indexed_nil |].
    intros c Hcol. exists []. split; [auto | apply indexed_nil].
  - eapply Forall_sublist; eassumption.
  - simpl. eapply distinct_sublist; [apply sublist_map, Sub | exact Dp].
  - intros c Hcol. simpl. destruct (Su c Hcol) as (d & _ & (_ & Dc & _)).
    eapply distinct_sublist; [apply sublist_map, Sub | exact Dc].
  - simpl in E. rewrite E. eexists. split; [reflexivity |]. split.
    + split; simpl; [rewrite Hu; exact ND | rewrite Hpk, Hu; exact S'].
    + repeat split; assumption.
Qed.

Lemma delete_synced tbl where_ :
  table_synced tbl ->
  table_synced (fst (Table.delete tbl where_))
  /\ same_schema (fst (Table.delete tbl where_)) tbl.
Proof.
  intros St. unfold Table.delete.
  destruct where_ as [w |]; [| split; [exact St | repeat split]].
  destruct (find_matching w (Table.rows tbl) 0) as [| i rest] eqn:Hm;
    [split; [exact St | repeat split] |].
  rewrite <- Hm.
  destruct (remove_rows_spec (Table.sorted_reverse (find_matching w (Table.rows tbl) 0))
              tbl (synced_keyed tbl St) (sorted_reverse_below w (Table.rows tbl)))
    as (tbl1 & E1 & Sub & Sch & Dom).
  rewrite E1.
  destruct (rebuild_indexes_synced tbl1 tbl St Sub Sch Dom) as (tbl2 & E2 & S2 & Sch2).
  rewrite E2. simpl. split; assumption.
Qed.

End rebuild_facts.

Section run_facts.
Context `{FloatText}.

Lemma insert_schema tbl values : same_schema (fst (Table.insert tbl values)) tbl.
Proof.
  unfold Table.insert.
  repeat match goal with
         | |- context [if ?b then _ else _] => destruct b
         | |- context [match ?x with _ => _ end] => destruct x eqn:?
         end; simpl; repeat split.
Qed.

Lemma init_synced name columns primary_key unique_columns :
  table_synced (Table.init name columns primary_key unique_columns).
Proof.
  split; simpl; [apply NoDup_remove_dups |]. split; [apply indexed_nil |].
  intros c Hc. exists []. split; [| apply indexed_nil].
  generalize (∅ : gmap string dict).
  induction (remove_dups unique_columns) as [| col cols IH]; intros m;
    [inversion Hc |].
  simpl. destruct (decide (c ∈ cols)) as [Hin | Hout]; [auto |].
  apply elem_of_cons in Hc as [-> | Hc]; [| contradiction].
  clear IH. assert (G : forall m, m !! col = Some [] ->
    fold_left (fun (m : gmap string dict) c => <[c := []]> m) cols m !! col = Some []).
  { clear. induction cols as [| c cols IH]; intros m Hm; simpl; [exact Hm |].
    apply IH. destruct (decide (c = col)) as [-> |];
      [apply lookup_insert_eq | rewrite lookup_insert_ne; assumption]. }
  apply G, lookup_insert_eq.
Qed.

Lemma run_changes_synced tbl cs :
  table_synced tbl ->
  table_synced (run_changes tbl cs) /\ same_schema (run_changes tbl cs) tbl.
Proof.
  revert tbl. induction cs as [| c cs IH]; intros tbl St; simpl.
  - split; [exact St | repeat split].
  - assert (St1 : table_synced (apply_change tbl c)
                  /\ same_schema (apply_change tbl c) tbl).
    { destruct c as [values | where_]; simpl.
      - split; [apply insert_synced, St | apply insert_schema].
      - apply delete_synced, St. }
    destruct St1 as [St1 (? & ? & ? & ?)].
    destruct (IH _ St1) as [St2 (? & ? & ? & ?)].
    split; [exact St2 |]. repeat split; congruence.
Qed.

(** C1.  After any sequence of inserts and deletes on a table fresh from
    [Table.__init__], the primary index has exactly one entry per stored
    row and maps the primary-key value of each row to its current position,
    and so does the unique index of every unique column: nothing stale,
    nothing missing. *)
Theorem indexes_exact_after_changes name columns primary_key unique_columns
    (cs : list change) :
  let tbl := run_changes (Table.init name columns primary_key unique_columns) cs in
  index_exact primary_key (Table.rows tbl) (Table.primary_index tbl)
  /\ forall c, c ∈ unique_columns ->
       exists d, Table.unique_indexes tbl !! c = Some d
                 /\ index_exact c (Table.rows tbl) d.
Proof.
  intros tbl.
  destruct (run_changes_synced (Table.init name columns primary_key unique_columns)
              cs (init_synced _ _ _ _)) as [[_ [Sp Su]] (_ & _ & Hpk & Hu)].
  fold tbl in Sp, Su, Hpk, Hu. simpl in Hpk, Hu. rewrite Hpk, Hu in *.
  split; [apply indexed_exact, Sp |].
  intros c Hc. destruct (Su c) as (d & Hd & Hi).
  { apply elem_of_remove_dups, Hc. }
  exists d. split; [exact Hd | apply indexed_exact, Hi].
Qed.

End run_facts.

(** ** Insert, select, and the calls without WHERE *)

Section insert_select.
Context `{FloatText}.

(** The shape of a successful insert. *)
Lemma insert_success tbl values tbl' res :
  Table.insert tbl values = (tbl', Returned res) -> success res = true ->
  exists r pk_value indexes',
    Table.build_row (Table.columns tbl) values ∅ = Table.Built r
    /\ r !! Table.primary_key tbl = Some pk_value
    /\ tbl' = Table.with_storage tbl (Table.rows tbl ++ [r])
                (dict_set (Table.primary_index tbl) pk_value
                          (length (Table.rows tbl)))
                indexes'
    /\ res = status true ("Inserted 1 row into '" +:+ Table.name tbl +:+ "'").
Proof.
  unfold Table.insert. intros E S.
  destruct (negb _); [inversion E; subst; discriminate |].
  destruct (Table.build_row _ _ _) as [r | |] eqn:Hb;
    try (inversion E; subst; discriminate).
  destruct (r !! Table.primary_key tbl) as [pkv |] eqn:Hpk; [| discriminate].
  destruct (dict_mem _ _); [inversion E; subst; discriminate |].
  destruct (Table.check_unique _ _ _); try (inversion E; subst; discriminate).
  destruct (Table.index_unique _ _ _ _) as [u' [e |]]; [discriminate |].
  inversion E; subst. exists r, pkv, u'.
  split; [reflexivity |]. split; [exact Hpk |]. split; reflexivity.
Qed.

Lemma insert_failure tbl values tbl' res :
  Table.insert tbl values = (tbl', Returned res) -> success res = false ->
  tbl' = tbl.
Proof.
  unfold Table.insert. intros E S.
  destruct (negb _); [inversion E; reflexivity |].
  destruct (Table.build_row _ _ _) as [r | |];
    try (inversion E; reflexivity).
  destruct (r !! Table.primary_key tbl) as [pkv |]; [| inversion E; reflexivity].
  destruct (dict_mem _ _); [inversion E; reflexivity |].
  destruct (Table.check_unique _ _ _); try (inversion E; reflexivity).
  destruct (Table.index_unique _ _ _ _) as [u' [e |]]; [discriminate |].
  inversion E; subst. discriminate.
Qed.

(** C2.  Insert is atomic: when it returns a failure result, the rows, the
    primary index and every unique index are what they were before the
    call. *)
Theorem insert_atomic tbl values tbl' res :
  Table.insert tbl values = (tbl', Returned res) -> success res = false ->
  Table.rows tbl' = Table.rows tbl
  /\ Table.primary_index tbl' = Table.primary_index tbl
  /\ Table.unique_indexes tbl' = Table.unique_indexes tbl
  /\ tbl' = tbl.
Proof.
  intros E S. rewrite (insert_failure _ _ _ _ E S). repeat split.
Qed.

(** After the unique constraints have been checked, indexing the new row
    raises nothing. *)
Lemma index_unique_no_error cols (r : row) idx (u : gmap string dict) :
  (forall c, c ∈ cols -> is_Some (r !! c) /\ is_Some (u !! c)) ->
  snd (Table.index_unique cols r idx u) = None.
Proof.
  revert u. induction cols as [| col cols IH]; intros u Hpres; simpl;
    [reflexivity |].
  destruct (Hpres col) as [[v Hv] [d Hd]]; [left |]. rewrite Hd, Hv.
  apply IH. intros c Hc. destruct (Hpres c) as [Hr Hu]; [right; exact Hc |].
  split; [exact Hr |].
  destruct (decide (col = c)) as [-> |]; [rewrite lookup_insert_eq; eauto |].
  rewrite lookup_insert_ne by assumption. exact Hu.
Qed.

(** An exception that escapes [insert] leaves the table as it was, too. *)
Lemma insert_raise_changes_nothing tbl values tbl' e :
  Table.insert tbl values = (tbl', Raised e) -> tbl' = tbl.
Proof.
  unfold Table.insert. intros E.
  destruct (negb _); [inversion E; reflexivity |].
  destruct (Table.build_row _ _ _) as [r | |];
    try (inversion E; reflexivity).
  destruct (r !! Table.primary_key tbl) as [pkv |]; [| inversion E; reflexivity].
  destruct (dict_mem _ _); [inversion E; reflexivity |].
  destruct (Table.check_unique _ _ _) eqn:Hc; try (inversion E; reflexivity).
  pose proof (index_unique_no_error (Table.unique_columns tbl) r
                (length (Table.rows tbl)) (Table.unique_indexes tbl)) as N.
  destruct (Table.index_unique _ _ _ _) as [u' [e' |]]; [| discriminate].
  simpl in N. discriminate N.
  intros c Hcol. destruct (check_unique_pass _ _ _ Hc c Hcol) as (v & d & -> & -> & _).
  eauto.
Qed.

(** C5.  Update and delete without a WHERE predicate return a failure
    result and leave the table as it was. *)
Theorem update_delete_need_where tbl set_values :
  Table.update tbl set_values None
  = (tbl, Returned (status false "UPDATE without WHERE clause is not supported"))
  /\ Table.delete tbl None
     = (tbl, Returned (status false "DELETE without WHERE clause is not supported")).
Proof. split; reflexivity. Qed.

(** [build_row] leaves every column it went through in the row. *)
Lemma build_row_keeps cols values (r0 r : row) c :
  Table.build_row cols values r0 = Table.Built r -> is_Some (r0 !! c) ->
  is_Some (r !! c).
Proof.
  revert values r0. induction cols as [| [col_name col_type] cols IH];
    intros values r0 E Hc; simpl in E.
  - inversion E; subst. exact Hc.
  - destruct values as [| v values]; [discriminate |].
    destruct (convert_value v col_type) as [x | |]; try discriminate.
    apply (IH _ _ E).
    destruct (decide (col_name = c)) as [-> |];
      [rewrite lookup_insert_eq; eauto | rewrite lookup_insert_ne; assumption].
Qed.

Lemma build_row_complete cols values (r0 r : row) c :
  Table.build_row cols values r0 = Table.Built r -> c ∈ map fst cols ->
  is_Some (r !! c).
Proof.
  revert values r0. induction cols as [| [col_name col_type] cols IH];
    intros values r0 E Hc; simpl in *.
  - inversion Hc.
  - destruct values as [| v values]; [discriminate |].
    destruct (convert_value v col_type) as [x | |]; try discriminate.
    destruct (decide (c ∈ map fst cols)) as [Hin | Hout]; [eauto |].
    apply elem_of_cons in Hc as [-> | Hc]; [| contradiction].
    apply (build_row_keeps _ _ _ _ _ E). rewrite lookup_insert_eq. eauto.
Qed.

Lemma build_row_frame cols values (r0 r : row) c :
  Table.build_row cols values r0 = Table.Built r -> c ∉ map fst cols ->
  r !! c = r0 !! c.
Proof.
  revert values r0. induction cols as [| [cn ct] cols IH]; intros values r0 E Hc;
    simpl in E.
  - injection E as <-. reflexivity.
  - destruct values as [| v values]; [discriminate |].
    destruct (convert_value v ct) as [x | |]; try discriminate.
    simpl in Hc. apply not_elem_of_cons in Hc as [Hne Hc].
    rewrite (IH _ _ E Hc). apply lookup_insert_ne. congruence.
Qed.

(** The row built from the values holds, at a column that no later column
    repeats, the value at the column's position, converted. *)
Lemma build_row_cell cols values (r0 r : row) i c ty v :
  Table.build_row cols values r0 = Table.Built r ->
  cols !! i = Some (c, ty) -> values !! i = Some v ->
  (forall j c' ty', i < j -> cols !! j = Some (c', ty') -> c' <> c) ->
  exists x, convert_value v ty = Converted x /\ r !! c = Some x.
Proof.
  revert values r0 i. induction cols as [| [cn ct] cols IH]; intros values r0 i E Hc Hv Hlast;
    [discriminate |].
  destruct values as [| v0 values]; [discriminate |]. simpl in E.
  destruct (convert_value v0 ct) as [x0 | |] eqn:Hx0; try discriminate.
  destruct i as [| i]; simpl in Hc, Hv.
  - injection Hc as -> ->. injection Hv as ->. exists x0. split; [exact Hx0 |].
    rewrite (build_row_frame _ _ _ _ c E).
    + apply lookup_insert_eq.
    + intros Hin. apply list_elem_of_fmap in Hin as ([c' ty'] & Ec & Hin).
      apply list_elem_of_lookup in Hin as [j Hj]. simpl in Ec. subst c'.
      apply (Hlast (S j) c ty'); [lia | exact Hj | reflexivity].
  - apply (IH values _ i E Hc Hv). intros j c' ty' Hij Hj.
    apply (Hlast (S j) c' ty'); [lia | exact Hj].
Qed.

Lemma all_present (l : list (option value)) :
  Forall is_Some l -> exists xs, l = map Some xs.
Proof.
  induction 1 as [| o l [x ->] _ [xs ->]]; [exists []; reflexivity |].
  exists (x :: xs). reflexivity.
Qed.

(** C6.  Round trip: after an insert that succeeds, selecting all columns
    where the primary-key column equals the key of the new row returns
    success with exactly one data row.  The row has one cell for each
    column, every cell holds a value, the cell of a column is the value the
    stored row has at it, and where no later column repeats the name it is
    the value given at the column's position, converted to the column's
    type. *)
Theorem insert_select_round_trip tbl values tbl' res :
  Table.insert tbl values = (tbl', Returned res) -> success res = true ->
  exists (r : row) pk_value (cells : list value),
    Table.build_row (Table.columns tbl) values ∅ = Table.Built r
    /\ Table.rows tbl' = Table.rows tbl ++ [r]
    /\ r !! Table.primary_key tbl = Some pk_value
    /\ length cells = length (Table.columns tbl)
    /\ (forall i c ty, Table.columns tbl !! i = Some (c, ty) -> r !! c = cells !! i)
    /\ (forall i c ty v,
          Table.columns tbl !! i = Some (c, ty) -> values !! i = Some v ->
          (forall j c' ty', i < j -> Table.columns tbl !! j = Some (c', ty') -> c' <> c) ->
          exists x, convert_value v ty = Converted x /\ cells !! i = Some x)
    /\ forall cols w,
         Table.all_columns cols = true ->
         where_col w = Table.primary_key tbl ->
         py_eq pk_value (where_val w) = true ->
         Table.select tbl' cols (Some w)
         = Returned (Result true "Selected 1 row(s)"
                       (Some (map fst (Table.columns tbl)))
                       (Some [map Some cells])).
Proof.
  intros E S.
  destruct (insert_success _ _ _ _ E S) as (r & pkv & u' & Hb & Hpk & -> & _).
  assert (Hall : Forall is_Some (project (Table.column_names tbl) r)).
  { apply Forall_forall. intros cell Hcell. unfold project in Hcell.
    rewrite map_fmap in Hcell.
    apply list_elem_of_fmap in Hcell as (c & -> & Hc).
    eapply build_row_complete; eassumption. }
  destruct (all_present _ Hall) as [cells Hcells].
  assert (Hcell : forall i c ty, Table.columns tbl !! i = Some (c, ty) ->
                    r !! c = cells !! i).
  { intros i c ty Hi.
    assert (K : project (Table.column_names tbl) r !! i = Some (r !! c)).
    { unfold project, Table.column_names. rewrite !map_fmap, !list_lookup_fmap, Hi.
      reflexivity. }
    rewrite Hcells, map_fmap, list_lookup_fmap in K.
    destruct (cells !! i) as [x |]; [| discriminate]. injection K as K. symmetry. exact K. }
  exists r, pkv, cells. split; [exact Hb |]. split; [reflexivity |].
  split; [exact Hpk |]. split.
  { pose proof (f_equal length Hcells) as L. unfold project, Table.column_names in L.
    rewrite !length_map in L. symmetry. exact L. }
  split; [exact Hcell |]. split.
  - intros i c ty v Hi Hv Hlast.
    destruct (build_row_cell _ _ _ _ i c ty v Hb Hi Hv Hlast) as (x & Hx & Hr).
    exists x. split; [exact Hx |]. rewrite <- (Hcell i c ty Hi). exact Hr.
  - intros cols w Hall' Hcol Heq. unfold Table.select. rewrite Hall'.
    simpl. rewrite Hcol, String.eqb_refl.
    rewrite (dict_get_set _ _ _ _ Heq).
    rewrite list_lookup_middle by reflexivity.
    fold (Table.column_names tbl). rewrite <- Hcells. reflexivity.
Qed.

End insert_select.

(** ** Joins *)

Section join_facts.

Lemma add_prefixed_some table cols (r merged : row) :
  (forall c, c ∈ cols -> is_Some (r !! c)) ->
  is_Some (SimpleDB.add_prefixed table cols r merged).
Proof.
  revert merged. induction cols as [| col cols IH]; intros merged Hr; simpl;
    [eauto |].
  destruct (Hr col) as [v Hv]; [left |]. rewrite Hv.
  apply IH. intros c Hc. apply Hr. right. exact Hc.
Qed.

Lemma merge_rows_some q l r (left_row right_row : row) :
  (forall c, c ∈ Table.column_names l -> is_Some (left_row !! c)) ->
  (forall c, c ∈ Table.column_names r -> is_Some (right_row !! c)) ->
  is_Some (SimpleDB.merge_rows q l r left_row right_row).
Proof.
  intros Hl Hr. unfold SimpleDB.merge_rows.
  destruct (add_prefixed_some (SimpleDB.left_table q) _ left_row ∅ Hl) as [m ->].
  apply add_prefixed_some, Hr.
Qed.

Lemma join_inner_spec q l r (left_row : row) left_val right_rows joined :
  (forall c, c ∈ Table.column_names l -> is_Some (left_row !! c)) ->
  Forall (fun rr : row => forall c, c ∈ Table.column_names r -> is_Some (rr !! c))
         right_rows ->
  SimpleDB.right_column (SimpleDB.sj_condition q) ∈ Table.column_names r ->
  left_row !! SimpleDB.left_column (SimpleDB.sj_condition q) = Some left_val ->
  exists new,
    SimpleDB.join_inner q l r left_row left_val right_rows joined
    = Returned (joined ++ new)
    /\ length new
       = length (List.filter
                   (pair_matches py_eq (SimpleDB.left_column (SimpleDB.sj_condition q))
                                 (SimpleDB.right_column (SimpleDB.sj_condition q)))
                   (map (pair left_row) right_rows)).
Proof.
  intros Hl Hr Hc Hv. revert joined.
  induction Hr as [| rr right_rows Hrr _ IH]; intros joined; simpl.
  - exists []. rewrite app_nil_r. split; reflexivity.
  - destruct (Hrr _ Hc) as [right_val Hrv]. rewrite Hrv.
    unfold pair_matches at 1. simpl. rewrite Hv, Hrv.
    destruct (py_eq left_val right_val).
    + destruct (merge_rows_some q l r left_row rr Hl Hrr) as [m ->].
      destruct (IH (joined ++ [m])) as (new & E & L).
      exists (m :: new). rewrite E, <- app_assoc. simpl.
      split; [reflexivity | f_equal; exact L].
    + apply IH.
Qed.

Lemma join_outer_spec q l r left_rows joined :
  Forall (fun lr : row => forall c, c ∈ Table.column_names l -> is_Some (lr !! c))
         left_rows ->
  complete r ->
  SimpleDB.left_column (SimpleDB.sj_condition q) ∈ Table.column_names l ->
  SimpleDB.right_column (SimpleDB.sj_condition q) ∈ Table.column_names r ->
  exists new,
    SimpleDB.join_outer q l r left_rows joined = Returned (joined ++ new)
    /\ length new
       = matching_pairs py_eq (SimpleDB.left_column (SimpleDB.sj_condition q))
                        (SimpleDB.right_column (SimpleDB.sj_condition q))
                        left_rows (Table.rows r).
Proof.
  intros Hl Hr Hlc Hrc. revert joined.
  induction Hl as [| lr left_rows Hlr _ IH]; intros joined; simpl.
  - exists []. rewrite app_nil_r. split; reflexivity.
  - destruct (Hlr _ Hlc) as [left_val Hv]. rewrite Hv.
    destruct (join_inner_spec q l r lr left_val (Table.rows r) joined Hlr Hr Hrc Hv)
      as (new1 & E1 & L1).
    rewrite E1.
    destruct (IH (joined ++ new1)) as (new2 & E2 & L2).
    exists (new1 ++ new2). rewrite E2, app_assoc. split; [reflexivity |].
    unfold matching_pairs in *. simpl.
    rewrite List.filter_app, !length_app, L1, L2. reflexivity.
Qed.

(** C7, amended.  For two existing tables with valid join columns and no
    WHERE predicate, the join returns success with as many data rows as
    there are pairs (left row, right row) whose join-column values are equal
    under [==] ([py_eq]: an integer and a float compare by the number they
    denote); with no such pair the data is empty; and the output columns of
    [*] are the left table's columns and then the right table's, each
    prefixed with its table. *)
Theorem join_result_counts_equal_pairs tables q l r :
  SimpleDB.get_table tables (SimpleDB.left_table q) = Some l ->
  SimpleDB.get_table tables (SimpleDB.right_table q) = Some r ->
  SimpleDB.left_column (SimpleDB.sj_condition q) ∈ Table.column_names l ->
  SimpleDB.right_column (SimpleDB.sj_condition q) ∈ Table.column_names r ->
  complete l -> complete r ->
  SimpleDB.sj_where q = None ->
  exists cols data,
    SimpleDB._handle_select_join tables q
    = Returned (Result true
                  ("Selected " +:+ str_of_nat (length data) +:+ " row(s) from JOIN")
                  (Some cols) (Some data))
    /\ length data
       = matching_pairs py_eq (SimpleDB.left_column (SimpleDB.sj_condition q))
                        (SimpleDB.right_column (SimpleDB.sj_condition q))
                        (Table.rows l) (Table.rows r)
    /\ (length data = 0 -> data = [])
    /\ (SimpleDB.sj_columns q = ["*"] ->
        cols = map (SimpleDB.prefixed (SimpleDB.left_table q)) (Table.column_names l)
               ++ map (SimpleDB.prefixed (SimpleDB.right_table q))
                      (Table.column_names r)).
Proof.
  intros Hl Hr Hlc Hrc Cl Cr Hw. unfold SimpleDB._handle_select_join.
  rewrite Hl, Hr, Hw.
  rewrite (bool_decide_eq_true_2 _ Hlc), (bool_decide_eq_true_2 _ Hrc). simpl.
  destruct (join_outer_spec q l r (Table.rows l) [] Cl Cr Hlc Hrc) as (new & E & L).
  rewrite E. simpl.
  eexists _, _. split; [reflexivity |]. rewrite length_map.
  split; [exact L |]. split.
  - intros Z. destruct new; [reflexivity | discriminate].
  - intros ->. reflexivity.
Qed.

(** Values equal under the type-sensitive equality are equal under [==]. *)
Lemma typed_eq_py_eq a b : typed_eq a b = true -> py_eq a b = true.
Proof. destruct a, b; simpl; auto; discriminate. Qed.

(** Handed a WHERE predicate, the executor keeps the combined rows that
    match it, whatever its column. *)
Lemma join_where_filters tables q l r w :
  SimpleDB.get_table tables (SimpleDB.left_table q) = Some l ->
  SimpleDB.get_table tables (SimpleDB.right_table q) = Some r ->
  SimpleDB.left_column (SimpleDB.sj_condition q) ∈ Table.column_names l ->
  SimpleDB.right_column (SimpleDB.sj_condition q) ∈ Table.column_names r ->
  complete l -> complete r ->
  SimpleDB.sj_where q = Some w ->
  exists joined cols,
    SimpleDB.join_outer q l r (Table.rows l) [] = Returned joined
    /\ SimpleDB._handle_select_join tables q
       = Returned (Result true
           ("Selected "
            +:+ str_of_nat (length (List.filter (row_matches w) joined))
            +:+ " row(s) from JOIN")
           (Some cols)
           (Some (map (project cols) (List.filter (row_matches w) joined)))).
Proof.
  intros Hl Hr Hlc Hrc Cl Cr Hw. unfold SimpleDB._handle_select_join.
  rewrite Hl, Hr, Hw.
  rewrite (bool_decide_eq_true_2 _ Hlc), (bool_decide_eq_true_2 _ Hrc). simpl.
  destruct (join_outer_spec q l r (Table.rows l) [] Cl Cr Hlc Hrc) as (new & E & _).
  rewrite E. simpl. eexists _, _. split; [reflexivity |].
  rewrite length_map. reflexivity.
Qed.

End join_facts.

(** The two tables below are what the inserts of [1] and of [(7, 1)]
    leave. *)
Lemma cex_reachable `{FloatText} :
  fst (Table.insert (Table.init "users" [("id", "INT")] "id" []) [VInt 1]) = cex_users
  /\ fst (Table.insert (Table.init "orders" [("id", "INT"); ("user_id", "FLOAT")] "id" [])
                       [VInt 7; VInt 1]) = cex_orders.
Proof. split; reflexivity. Qed.

(** C7 as stated fails: the integer key 1 joins the float 1.0, a pair
    that type-sensitive equality does not count. *)
Lemma join_equates_int_and_float :
  SimpleDB._handle_select_join cex_tables cex_join
  = Returned (Result true "Selected 1 row(s) from JOIN"
                (Some ["users.id"; "orders.id"; "orders.user_id"])
                (Some [[Some (VInt 1); Some (VInt 7);
                        Some (VFloat (FFinite false 1 0))]]))
  /\ matching_pairs typed_eq "id" "user_id"
                    (Table.rows cex_users) (Table.rows cex_orders) = 0.
Proof. split; reflexivity. Qed.

(** ** Updates *)

Section update_facts.
Context `{FloatText}.

Lemma column_types_some tbl c :
  c ∈ Table.column_names tbl -> is_Some (Table.column_types tbl !! c).
Proof.
  unfold Table.column_names, Table.column_types.
  generalize (∅ : gmap string string).
  induction (Table.columns tbl) as [| [n ty] cols IH]; intros m Hc; simpl in *;
    [inversion Hc |].
  destruct (decide (c ∈ map fst cols)) as [Hin | Hout]; [auto |].
  apply elem_of_cons in Hc as [-> | Hc]; [| contradiction].
  clear IH Hout.
  assert (G : forall m : gmap string string, is_Some (m !! n) ->
    is_Some (fold_left (fun m col => <[fst col := snd col]> m) cols m !! n)).
  { clear. induction cols as [| [n' ty'] cols IH]; intros m Hm; simpl; [exact Hm |].
    apply IH. destruct (decide (n' = n)) as [-> |];
      [rewrite lookup_insert_eq; eauto | rewrite lookup_insert_ne; assumption]. }
  apply G. rewrite lookup_insert_eq. eauto.
Qed.

(** An assignment to a column the table does not have is passed over. *)
Lemma set_columns_skip tbl pre c v post (r : row) :
  c ∉ Table.column_names tbl ->
  Table.set_columns tbl (pre ++ (c, v) :: post) r
  = Table.set_columns tbl (pre ++ post) r.
Proof.
  intros Hc. revert r. induction pre as [| [c0 v0] pre IH]; intros r; simpl.
  - rewrite bool_decide_eq_false_2 by exact Hc. reflexivity.
  - destruct (bool_decide _); [| apply IH].
    destruct (Table.column_types tbl !! c0); [| reflexivity].
    destruct (convert_value v0 s); try reflexivity. apply IH.
Qed.

Lemma update_rows_skip tbl pre c v post idxs rs :
  c ∉ Table.column_names tbl ->
  Table.update_rows tbl (pre ++ (c, v) :: post) idxs rs
  = Table.update_rows tbl (pre ++ post) idxs rs.
Proof.
  intros Hc. revert rs. induction idxs as [| idx idxs IH]; intros rs; simpl;
    [reflexivity |].
  destruct (rs !! idx); [| reflexivity].
  rewrite set_columns_skip by exact Hc.
  destruct (Table.set_columns _ _ _) as [r' [s |]]; [reflexivity | apply IH].
Qed.

(** [set_columns] changes a column only if the SET clause names it and the
    table has it. *)
Lemma set_columns_frame tbl set_values (r r' : row) s c :
  Table.set_columns tbl set_values r = (r', s) ->
  c ∉ map fst set_values \/ c ∉ Table.column_names tbl ->
  r' !! c = r !! c.
Proof.
  revert r. induction set_values as [| [c0 v0] rest IH]; intros r E Hc; simpl in E.
  - inversion E; reflexivity.
  - assert (Hrest : c ∉ map fst rest \/ c ∉ Table.column_names tbl).
    { destruct Hc as [Hc | Hc]; [left | right; exact Hc].
      simpl in Hc. apply not_elem_of_cons in Hc as [_ Hc]. exact Hc. }
    destruct (bool_decide (c0 ∈ Table.column_names tbl)) eqn:Hin; [| eauto].
    apply bool_decide_eq_true_1 in Hin.
    destruct (Table.column_types tbl !! c0); [| inversion E; reflexivity].
    destruct (convert_value v0 s0); try (inversion E; reflexivity).
    rewrite (IH _ E Hrest). apply lookup_insert_ne.
    intros ->. destruct Hc as [Hc | Hc]; [| contradiction].
    apply Hc. simpl. left.
Qed.

(** The assignments that ran are in the row. *)
Lemma set_columns_applied tbl set_values (r r' : row) :
  Table.set_columns tbl set_values r = (r', None) ->
  NoDup (map fst set_values) ->
  forall c v, (c, v) ∈ set_values -> c ∈ Table.column_names tbl ->
    exists ty x, Table.column_types tbl !! c = Some ty
                 /\ convert_value v ty = Converted x /\ r' !! c = Some x.
Proof.
  revert r. induction set_values as [| [c0 v0] rest IH]; intros r E ND c v Hin Hc;
    [inversion Hin |].
  simpl in E, ND. apply NoDup_cons in ND as [Hfresh ND].
  apply elem_of_cons in Hin as [Heq | Hin].
  - inversion Heq; subst c0 v0.
    rewrite (bool_decide_eq_true_2 _ Hc) in E.
    destruct (Table.column_types tbl !! c) as [ty |]; [| discriminate].
    destruct (convert_value v ty) as [x | |] eqn:Hx; try discriminate.
    exists ty, x. split; [reflexivity |]. split; [exact Hx |].
    rewrite (set_columns_frame _ _ _ _ _ c E) by (left; exact Hfresh).
    apply lookup_insert_eq.
  - destruct (bool_decide (c0 ∈ Table.column_names tbl)); [| eauto].
    destruct (Table.column_types tbl !! c0); [| discriminate].
    destruct (convert_value v0 s); try discriminate. eauto.
Qed.

Lemma set_columns_converts tbl set_values (r : row) :
  Forall (converts tbl) set_values ->
  exists r', Table.set_columns tbl set_values r = (r', None).
Proof.
  intros F. revert r. induction F as [| [c v] rest Hcv _ IH]; intros r; simpl;
    [eauto |].
  destruct (bool_decide (c ∈ Table.column_names tbl)) eqn:Hin; [| apply IH].
  apply bool_decide_eq_true_1 in Hin.
  destruct (Hcv Hin) as (ty & x & Hty & Hx). simpl in Hty, Hx.
  rewrite Hty, Hx. apply IH.
Qed.

(** [update_rows] keeps the number of rows and the columns that are not
    the table's. *)
Lemma update_rows_frame tbl set_values idxs rs rows' s c :
  Table.update_rows tbl set_values idxs rs = (rows', s) ->
  c ∉ Table.column_names tbl ->
  forall i, (rows' !! i) ≫= (fun r : row => r !! c)
            = (rs !! i) ≫= (fun r : row => r !! c).
Proof.
  intros E Hc. revert rs E. induction idxs as [| idx idxs IH]; intros rs E i;
    simpl in E.
  - inversion E; reflexivity.
  - destruct (rs !! idx) as [r |] eqn:Hr; [| inversion E; reflexivity].
    destruct (Table.set_columns tbl set_values r) as [r' st] eqn:Hs.
    assert (K : (<[idx := r']> rs !! i) ≫= (fun r : row => r !! c)
                = (rs !! i) ≫= (fun r : row => r !! c)).
    { destruct (decide (idx = i)) as [-> |].
      - rewrite list_lookup_insert_eq by (eapply lookup_lt_Some; exact Hr).
        rewrite Hr. simpl. eapply set_columns_frame; [exact Hs | right; exact Hc].
      - rewrite list_lookup_insert_ne by assumption. reflexivity. }
    destruct st as [st |].
    + inversion E; subst. exact K.
    + rewrite (IH _ E i). exact K.
Qed.

Lemma update_rows_converts tbl set_values idxs rs :
  Forall (converts tbl) set_values ->
  Forall (fun i => i < length rs) idxs ->
  exists rows', Table.update_rows tbl set_values idxs rs = (rows', None).
Proof.
  intros F B. revert rs B. induction idxs as [| idx idxs IH]; intros rs B; simpl;
    [eauto |].
  inversion B as [| ? ? Hlt B']; subst.
  destruct (lookup_lt_is_Some_2 _ _ Hlt) as [r ->].
  destruct (set_columns_converts tbl set_values r F) as [r' ->].
  apply IH. rewrite length_insert. exact B'.
Qed.

(** C9.  An assignment of the SET clause to a column the table does not
    have is passed over: the call does what it does without it, no row
    gains the column, and when the assignments to the table's columns
    convert, the call returns success with the message
    "Updated N row(s)", N the number of rows the WHERE predicate matches. *)
Theorem update_skips_unknown_column tbl pre c v post where_ :
  c ∉ Table.column_names tbl ->
  Table.update tbl (pre ++ (c, v) :: post) where_
  = Table.update tbl (pre ++ post) where_
  /\ (forall i,
        (Table.rows (fst (Table.update tbl (pre ++ (c, v) :: post) where_)) !! i)
          ≫= (fun r : row => r !! c)
        = (Table.rows tbl !! i) ≫= (fun r : row => r !! c))
  /\ (forall w, where_ = Some w -> Forall (converts tbl) (pre ++ post) ->
        snd (Table.update tbl (pre ++ (c, v) :: post) where_)
        = Returned (status true
            ("Updated " +:+ str_of_nat (matched w (Table.rows tbl)) +:+ " row(s)"))).
Proof.
  intros Hc.
  assert (Eq : Table.update tbl (pre ++ (c, v) :: post) where_
               = Table.update tbl (pre ++ post) where_).
  { unfold Table.update. destruct where_ as [w |]; [| reflexivity].
    destruct (find_matching w (Table.rows tbl) 0); [reflexivity |].
    rewrite update_rows_skip by exact Hc. reflexivity. }
  split; [exact Eq |]. rewrite Eq. split.
  - intros i. unfold Table.update. destruct where_ as [w |]; [| reflexivity].
    destruct (find_matching w (Table.rows tbl) 0) as [| i0 rest] eqn:Hm;
      [reflexivity |].
    destruct (Table.update_rows _ _ _ _) as [rows' s] eqn:Hu.
    pose proof (update_rows_frame _ _ _ _ _ _ c Hu Hc i) as K.
    destruct s as [[e | e] |]; exact K.
  - intros w -> F. unfold Table.update.
    rewrite <- (find_matching_length w (Table.rows tbl) 0).
    destruct (find_matching w (Table.rows tbl) 0) as [| i0 rest] eqn:Hm;
      [reflexivity |].
    destruct (update_rows_converts tbl (pre ++ post) (i0 :: rest) (Table.rows tbl) F)
      as [rows' ->]; [| reflexivity].
    rewrite <- Hm. eapply Forall_impl; [apply find_matching_bounds |].
    simpl. intros j. lia.
Qed.


(** When the conversion lets an exception escape instead, [update] raises
    it, and storage is left in the same state. *)
Lemma update_partial_on_escaped_error tbl pre c v post w i0 rest
    (r0 r1 : row) ty e :
  find_matching w (Table.rows tbl) 0 = i0 :: rest ->
  Table.rows tbl !! i0 = Some r0 ->
  Table.set_columns tbl pre r0 = (r1, None) ->
  c ∈ Table.column_names tbl ->
  Table.column_types tbl !! c = Some ty ->
  convert_value v ty = Escaped e ->
  Table.update tbl (pre ++ (c, v) :: post) (Some w)
  = (Table.with_storage tbl (<[i0 := r1]> (Table.rows tbl))
       (Table.primary_index tbl) (Table.unique_indexes tbl),
     Raised e).
Proof.
  intros Hm Hr Hpre Hc Hty Hv.
  unfold Table.update. rewrite Hm. simpl. rewrite Hr.
  assert (E : Table.set_columns tbl (pre ++ (c, v) :: post) r0
              = (r1, Some (Table.Threw e))).
  { clear Hr. revert r0 Hpre. induction pre as [| [c0 v0] pre IH]; intros r0 Hpre;
      simpl in *.
    - inversion Hpre; subst. rewrite (bool_decide_eq_true_2 _ Hc), Hty, Hv.
      reflexivity.
    - destruct (bool_decide (c0 ∈ Table.column_names tbl)); [| auto].
      destruct (Table.column_types tbl !! c0); [| discriminate].
      destruct (convert_value v0 s); try discriminate. auto. }
  rewrite E. reflexivity.
Qed.

(** An infinity assigned to an INT column is such a case. *)
Example infinity_to_int_escapes :
  convert_value (VFloat (FInf false)) "INT" = Escaped OverflowError
  /\ convert_value (VInt (2 ^ 1024)) "FLOAT" = Escaped OverflowError.
Proof. split; reflexivity. Qed.

End update_facts.

(** ** Value lists and WHERE clauses *)

Section values_facts.
Context `{FloatText}.

Lemma scan_char_pieces p char :
  scan_char (scan_of p) char = scan_of (piece_char p char).
Proof.
  unfold scan_char, piece_char, scan_of. simpl.
  destruct (is_quote char && negb (quoted p)); [reflexivity |].
  destruct (same_quote (quote p) char && quoted p); [reflexivity |].
  destruct (Ascii.eqb char "," && negb (quoted p)); [| reflexivity].
  simpl. rewrite map_app. reflexivity.
Qed.

Lemma scan_pieces l p :
  fold_left scan_char l (scan_of p) = scan_of (fold_left piece_char l p).
Proof.
  revert p. induction l as [| c l IH]; intros p; simpl; [reflexivity |].
  rewrite scan_char_pieces. apply IH.
Qed.

Lemma parse_values_segments values_str :
  _parse_values values_str
  = map (fun s => _parse_single_value (strip s))
        (finished (split_pieces values_str))
    ++ (if blank (last_segment values_str) then []
        else [_parse_single_value (strip (last_segment values_str))]).
Proof.
  unfold _parse_values, split_pieces, last_segment, blank.
  change scan_start with (scan_of (Pieces [] "" false None)).
  rewrite scan_pieces. simpl.
  destruct (String.eqb _ ""); [rewrite app_nil_r |]; reflexivity.
Qed.

(** C10.  When the last segment of a value list is empty or whitespace
    once its quotes are gone, no value is parsed from it: the parsed list
    is one shorter than the list of segments, and inserting it into a table
    with one column per segment fails on the count. *)
Theorem blank_last_segment_dropped values_str :
  blank (last_segment values_str) = true ->
  _parse_values values_str
  = map (fun s => _parse_single_value (strip s)) (removelast (segments values_str))
  /\ S (length (_parse_values values_str)) = length (segments values_str)
  /\ forall tbl,
       length (Table.columns tbl) = length (segments values_str) ->
       Table.insert tbl (_parse_values values_str)
       = (tbl, Returned (status false
            ("Expected " +:+ str_of_nat (length (segments values_str))
             +:+ " values, got "
             +:+ str_of_nat (length (_parse_values values_str))))).
Proof.
  intros B.
  assert (E : _parse_values values_str
              = map (fun s => _parse_single_value (strip s))
                    (finished (split_pieces values_str))).
  { rewrite parse_values_segments, B, app_nil_r. reflexivity. }
  assert (L : S (length (_parse_values values_str)) = length (segments values_str)).
  { rewrite E. unfold segments. rewrite length_map, length_app. simpl. lia. }
  split; [| split; [exact L |]].
  - rewrite E. unfold segments. rewrite removelast_last. reflexivity.
  - intros tbl Hn. unfold Table.insert. rewrite Hn, <- L.
    replace (length (_parse_values values_str)
             =? S (length (_parse_values values_str))) with false
      by (symmetry; apply Nat.eqb_neq; lia).
    reflexivity.
Qed.

(** C4, at the failing input.  The quoted literal ['123'] of a value list
    parses to the integer 123, and ['007'] to 7; the same text as a WHERE or
    SET literal parses to the text. *)
Theorem quoted_number_parses_as_integer :
  _parse_values "'123'" = [VInt 123]
  /\ _parse_single_value "'123'" = VText "123"
  /\ _parse_values "1, '007'" = [VInt 1; VInt 7].
Proof. repeat split; reflexivity. Qed.

End values_facts.

Section where_facts.
Context `{FloatText}.

Lemma word_not_space c : is_word c = true -> is_space c = false.
Proof.
  destruct c as [[] [] [] [] [] [] [] []]; vm_compute; congruence.
Qed.

Lemma rstrip_keeps a x b :
  is_space x = false -> exists b', rstrip_chars (a ++ x :: b) = a ++ x :: b'.
Proof.
  intros Hx. induction a as [| c a [b' IH]]; simpl.
  - rewrite Hx. destruct (rstrip_chars b); eauto.
  - rewrite IH. destruct a; simpl; eauto.
Qed.

Lemma lstrip_word t l :
  Forall (fun c => is_word c = true) t ->
  lstrip_chars (t ++ "."%char :: l) = t ++ "."%char :: l.
Proof.
  intros F. destruct F as [| c t Hc _]; simpl.
  - reflexivity.
  - rewrite (word_not_space c Hc). reflexivity.
Qed.

Lemma take_while_word t l :
  Forall (fun c => is_word c = true) t ->
  take_while is_word (t ++ "."%char :: l) = t
  /\ drop_while is_word (t ++ "."%char :: l) = "."%char :: l.
Proof.
  induction 1 as [| c t Hc _ [IH1 IH2]]; simpl.
  - split; reflexivity.
  - rewrite Hc, IH1, IH2. split; reflexivity.
Qed.

(** No WHERE text that starts with a qualified name, [<table>.<column>],
    is accepted: the column of the pattern is a run of word characters and
    the next character must be a blank or the equals sign. *)
Lemma parse_where_rejects_qualified table rest :
  Forall (fun c => is_word c = true) table ->
  _parse_where (string_of_list_ascii (table ++ "."%char :: rest)) = None.
Proof.
  intros F. unfold _parse_where, strip, strip_chars.
  rewrite !list_ascii_of_string_of_list_ascii.
  rewrite (lstrip_word _ _ F).
  destruct (rstrip_keeps table "."%char rest) as [b' ->]; [reflexivity |].
  rewrite ?list_ascii_of_string_of_list_ascii.
  destruct (take_while_word table b' F) as [-> ->].
  destruct table; reflexivity.
Qed.

End where_facts.

Section join_where.
Context `{FloatText}.

(** The tables of the examples are what the inserts of the join test
    leave. *)
Lemma ex_tables_reachable :
  run (Table.init "users" [("id", "INT"); ("name", "TEXT")] "id" [])
      [Change (Insert [VInt 1; VText "John Doe"]);
       Change (Insert [VInt 2; VText "Jane Smith"])] = ex_users
  /\ run (Table.init "orders"
            [("id", "INT"); ("user_id", "INT"); ("product", "TEXT")] "id" [])
         [Change (Insert [VInt 101; VInt 1; VText "Laptop"]);
          Change (Insert [VInt 102; VInt 1; VText "Mouse"]);
          Change (Insert [VInt 103; VInt 2; VText "Keyboard"])] = ex_orders.
Proof. split; reflexivity. Qed.

(** C3, at the failing input.  The WHERE text [users.id = 1] of a join
    query parses to no predicate, so the join returns all three combined
    rows; handed the predicate on [users.id] directly, the executor keeps
    the two rows whose [users.id] is 1. *)
Theorem join_where_on_qualified_column_ignored :
  _parse_where "users.id = 1" = None
  /\ SimpleDB._handle_select_join ex_tables (ex_join (_parse_where "users.id = 1"))
     = Returned (Result true "Selected 3 row(s) from JOIN"
                   (Some ex_join_columns) (Some (ex_joined_1 ++ ex_joined_2)))
  /\ SimpleDB._handle_select_join ex_tables
       (ex_join (Some (Where "users.id" (VInt 1))))
     = Returned (Result true "Selected 2 row(s) from JOIN"
                   (Some ex_join_columns) (Some ex_joined_1)).
Proof. repeat split; reflexivity. Qed.

End join_where.

(** ** Complete rows, and the theorems at concrete tables *)

Section complete_facts.
Context `{FloatText}.

Lemma complete_check_sound tbl : complete_check tbl = true -> complete tbl.
Proof.
  unfold complete_check, complete. intros E.
  apply Forall_forall. intros r Hr c Hc.
  rewrite List.forallb_forall in E.
  specialize (E r (proj1 (list_elem_of_In _ _) Hr)).
  rewrite List.forallb_forall in E.
  exact (bool_decide_eq_true_1 _ (E c (proj1 (list_elem_of_In _ _) Hc))).
Qed.

Lemma set_columns_keeps tbl set_values (r r' : row) s c :
  Table.set_columns tbl set_values r = (r', s) -> is_Some (r !! c) ->
  is_Some (r' !! c).
Proof.
  revert r. induction set_values as [| [c0 v0] rest IH]; intros r E Hc; simpl in E.
  - inversion E; subst. exact Hc.
  - destruct (bool_decide (c0 ∈ Table.column_names tbl)); [| eauto].
    destruct (Table.column_types tbl !! c0); [| inversion E; subst; exact Hc].
    destruct (convert_value v0 s0); try (inversion E; subst; exact Hc).
    apply (IH _ E).
    destruct (decide (c0 = c)) as [-> |];
      [rewrite lookup_insert_eq; eauto | rewrite lookup_insert_ne; assumption].
Qed.

Lemma update_rows_keeps tbl set_values idxs rs rows' s (P : row -> Prop) :
  (forall r r' st, Table.set_columns tbl set_values r = (r', st) -> P r -> P r') ->
  Table.update_rows tbl set_values idxs rs = (rows', s) ->
  Forall P rs -> Forall P rows'.
Proof.
  intros HP. revert rs. induction idxs as [| idx idxs IH]; intros rs E F;
    simpl in E.
  - inversion E; subst. exact F.
  - destruct (rs !! idx) as [r |] eqn:Hr; [| inversion E; subst; exact F].
    destruct (Table.set_columns tbl set_values r) as [r' st] eqn:Hs.
    assert (F' : Forall P (<[idx := r']> rs)).
    { apply Forall_insert; [exact F |].
      eapply HP; [exact Hs |]. eapply Forall_lookup_1; eassumption. }
    destruct st; [inversion E; subst; exact F' | eauto].
Qed.

Lemma remove_rows_sublist idxs tbl :
  sublist (Table.rows (fst (Table.remove_rows tbl idxs))) (Table.rows tbl)
  /\ Table.columns (fst (Table.remove_rows tbl idxs)) = Table.columns tbl.
Proof.
  revert tbl. induction idxs as [| idx idxs IH]; intros tbl; simpl;
    [split; reflexivity |].
  destruct (Table.rows tbl !! idx) as [r |]; [| split; reflexivity].
  destruct (r !! Table.primary_key tbl); [| split; [apply sublist_delete | reflexivity]].
  destruct (Table.unindex_unique _ _ _) as [u' [e |]];
    [split; [apply sublist_delete | reflexivity] |].
  match goal with |- context [Table.remove_rows ?t idxs] =>
    destruct (IH t) as [S C] end.
  split; [| rewrite C; reflexivity].
  etransitivity; [exact S |]. apply sublist_delete.
Qed.

Lemma rebuild_indexes_rows tbl :
  Table.rows (fst (Table._rebuild_indexes tbl)) = Table.rows tbl
  /\ Table.columns (fst (Table._rebuild_indexes tbl)) = Table.columns tbl.
Proof.
  unfold Table._rebuild_indexes.
  destruct (Table.clear_unique _ _) as [u [e |]]; [split; reflexivity |].
  destruct (Table.rebuild_rows _ _ _ _ _ _) as [[p u'] e]. split; reflexivity.
Qed.

Lemma delete_rows tbl where_ :
  sublist (Table.rows (fst (Table.delete tbl where_))) (Table.rows tbl)
  /\ Table.columns (fst (Table.delete tbl where_)) = Table.columns tbl.
Proof.
  unfold Table.delete. destruct where_ as [w |]; [| split; reflexivity].
  destruct (find_matching w (Table.rows tbl) 0) as [| i rest];
    [split; reflexivity |].
  pose proof (remove_rows_sublist (Table.sorted_reverse (i :: rest)) tbl) as [S C].
  destruct (Table.remove_rows tbl _) as [tbl1 [e |]]; [split; assumption |].
  pose proof (rebuild_indexes_rows tbl1) as [R C'].
  destruct (Table._rebuild_indexes tbl1) as [tbl2 [e |]]; simpl in *;
    rewrite R, C'; split; assumption.
Qed.

Lemma apply_operation_complete tbl op :
  complete tbl ->
  complete (apply_operation tbl op)
  /\ Table.columns (apply_operation tbl op) = Table.columns tbl.
Proof.
  intros C. destruct op as [[values | where_] | set_values where_]; simpl.
  - unfold Table.insert.
    destruct (negb _); [split; [exact C | reflexivity] |].
    destruct (Table.build_row _ _ _) as [r | |] eqn:Hb;
      try (split; [exact C | reflexivity]).
    destruct (r !! Table.primary_key tbl); [| split; [exact C | reflexivity]].
    destruct (dict_mem _ _); [split; [exact C | reflexivity] |].
    destruct (Table.check_unique _ _ _); try (split; [exact C | reflexivity]).
    assert (C' : Forall (fun r : row => forall c, c ∈ Table.column_names tbl ->
                           is_Some (r !! c)) (Table.rows tbl ++ [r])).
    { apply Forall_app. split; [exact C |]. constructor; [| constructor].
      intros c Hc. eapply build_row_complete; eassumption. }
    destruct (Table.index_unique _ _ _ _) as [u' [e |]]; split;
      solve [exact C' | reflexivity].
  - destruct (delete_rows tbl where_) as [S Hc]. split; [| exact Hc].
    unfold complete, Table.column_names. rewrite Hc.
    eapply Forall_sublist; eassumption.
  - unfold Table.update. destruct where_ as [w |]; [| split; [exact C | reflexivity]].
    destruct (find_matching w (Table.rows tbl) 0) as [| i rest];
      [split; [exact C | reflexivity] |].
    destruct (Table.update_rows _ _ _ _) as [rows' s] eqn:Hu.
    assert (C' : Forall (fun r : row => forall c, c ∈ Table.column_names tbl ->
                           is_Some (r !! c)) rows').
    { eapply update_rows_keeps; [| exact Hu | exact C].
      intros r r' st Hs Hr c Hc. eapply set_columns_keeps; eauto. }
    destruct s as [[e | e] |]; split; solve [exact C' | reflexivity].
Qed.

(** Every table reached from [Table.__init__] by inserts, updates and
    deletes has complete rows. *)
Lemma run_complete name columns primary_key unique_columns ops :
  complete (run (Table.init name columns primary_key unique_columns) ops).
Proof.
  assert (G : forall tbl, complete tbl -> complete (run tbl ops)).
  { induction ops as [| op ops IH]; intros tbl C; simpl; [exact C |].
    apply IH. apply apply_operation_complete, C. }
  apply G. constructor.
Qed.

End complete_facts.

(** C2 on the users table: a second row with the key 1 is refused. *)
Lemma insert_atomic_witness :
  (Table.insert (H := no_floats) ex_users [VInt 1; VText "Ann"]
   = (ex_users, Returned (status false "Primary key violation: '1' already exists"))
   /\ success (status false "Primary key violation: '1' already exists") = false)
  /\ (Table.rows ex_users = Table.rows ex_users
      /\ Table.primary_index ex_users = Table.primary_index ex_users
      /\ Table.unique_indexes ex_users = Table.unique_indexes ex_users
      /\ ex_users = ex_users).
Proof.
  split; [split; reflexivity |].
  apply (insert_atomic (H := no_floats) ex_users [VInt 1; VText "Ann"] ex_users
           (status false "Primary key violation: '1' already exists"));
    reflexivity.
Defined.

(** C6 on the users table: the row of key 3. *)
Lemma insert_select_round_trip_witness :
  (Table.insert (H := no_floats) ex_users [VInt 3; VText "Jim"]
   = (ex_users_3, Returned (status true "Inserted 1 row into 'users'"))
   /\ success (status true "Inserted 1 row into 'users'") = true)
  /\ Table.rows ex_users_3 = Table.rows ex_users ++ [ex_row_3]
  /\ Table.select ex_users_3 ["*"] (Some (Where "id" (VInt 3)))
     = Returned (Result true "Selected 1 row(s)" (Some ["id"; "name"])
                   (Some [[Some (VInt 3); Some (VText "Jim")]])).
Proof.
  split; [split; reflexivity |].
  destruct (insert_select_round_trip (H := no_floats) ex_users [VInt 3; VText "Jim"]
              ex_users_3 (status true "Inserted 1 row into 'users'")
              eq_refl eq_refl)
    as (r & pk & cells & Hb & Hrows & Hpk & Hlen & Hcell & Hconv & Hsel).
  assert (Er : r = ex_row_3).
  { assert (K : Table.Built r = Table.Built ex_row_3) by (rewrite <- Hb; reflexivity).
    injection K as K. exact K. }
  subst r.
  assert (Ek : pk = VInt 3).
  { assert (K : Some pk = Some (VInt 3)) by (rewrite <- Hpk; reflexivity).
    injection K as K. exact K. }
  subst pk.
  assert (Ec : cells = [VInt 3; VText "Jim"]).
  { pose proof (Hcell 0 "id" "INT" eq_refl) as C0.
    pose proof (Hcell 1 "name" "TEXT" eq_refl) as C1.
    destruct cells as [| x0 [| x1 [| x2 cells]]]; try discriminate Hlen.
    simpl in C0, C1.
    assert (K0 : Some x0 = Some (VInt 3)) by (rewrite <- C0; reflexivity).
    assert (K1 : Some x1 = Some (VText "Jim")) by (rewrite <- C1; reflexivity).
    injection K0 as ->. injection K1 as ->. reflexivity. }
  subst cells.
  split; [exact Hrows |].
  exact (Hsel ["*"] (Where "id" (VInt 3)) eq_refl eq_refl eq_refl).
Defined.

(** C7, amended, on the users and orders tables. *)
Lemma join_result_counts_equal_pairs_witness :
  exists cols data,
    SimpleDB._handle_select_join ex_tables (ex_join None)
    = Returned (Result true
                  ("Selected " +:+ str_of_nat (length data) +:+ " row(s) from JOIN")
                  (Some cols) (Some data))
    /\ length data = matching_pairs py_eq "id" "user_id"
                       (Table.rows ex_users) (Table.rows ex_orders)
    /\ (length data = 0 -> data = [])
    /\ (["*"] = ["*"] ->
        cols = map (SimpleDB.prefixed "users") (Table.column_names ex_users)
               ++ map (SimpleDB.prefixed "orders") (Table.column_names ex_orders)).
Proof.
  apply (join_result_counts_equal_pairs ex_tables (ex_join None) ex_users ex_orders).
  - reflexivity.
  - reflexivity.
  - vm_compute. left.
  - vm_compute. right. left.
  - apply complete_check_sound. reflexivity.
  - apply complete_check_sound. reflexivity.
  - reflexivity.
Defined.


(** The failed update above has changed the stored row. *)
Example update_failure_changes_storage :
  Table.rows ex_users !! 0 = Some ex_row_1
  /\ Table.rows (fst (Table.update (H := no_floats) ex_users
                       [("name", VText "Jonathan"); ("id", VText "abc")]
                       (Some ex_where_id_1))) !! 0
     = Some ex_row_1_renamed.
Proof. split; reflexivity. Qed.

(** C9 on the users table: the SET clause names a nickname column. *)
Lemma update_skips_unknown_column_witness :
  Table.update (H := no_floats) ex_users
    ([("name", VText "Jonathan")] ++ ("nickname", VText "Jo") :: [])
    (Some ex_where_id_1)
  = Table.update (H := no_floats) ex_users ([("name", VText "Jonathan")] ++ [])
      (Some ex_where_id_1)
  /\ (forall i,
        (Table.rows (fst (Table.update (H := no_floats) ex_users
           ([("name", VText "Jonathan")] ++ ("nickname", VText "Jo") :: [])
           (Some ex_where_id_1))) !! i)
          ≫= (fun r : row => r !! "nickname")
        = (Table.rows ex_users !! i) ≫= (fun r : row => r !! "nickname"))
  /\ (forall w, Some ex_where_id_1 = Some w ->
        Forall (converts (H := no_floats) ex_users) ([("name", VText "Jonathan")] ++ []) ->
        snd (Table.update (H := no_floats) ex_users
               ([("name", VText "Jonathan")] ++ ("nickname", VText "Jo") :: [])
               (Some ex_where_id_1))
        = Returned (status true
            ("Updated " +:+ str_of_nat (matched w (Table.rows ex_users))
             +:+ " row(s)"))).
Proof.
  apply (update_skips_unknown_column (H := no_floats) ex_users
           [("name", VText "Jonathan")] "nickname" (VText "Jo") []
           (Some ex_where_id_1)).
  vm_compute. intros Hin.
  repeat (apply elem_of_cons in Hin as [Hin | Hin]; [discriminate |]).
  apply elem_of_nil in Hin. exact Hin.
Defined.

(** C9 as stated fails: an assignment to a column the table does not have
    does not make the call succeed.  With [nickname] unknown, the update
    below matches one row and returns the failure of the conversion of
    [x] for the INT column, and the update without a WHERE predicate is
    refused. *)
Lemma update_with_unknown_column_can_fail :
  bool_decide ("nickname" ∈ Table.column_names ex_users) = false
  /\ matched ex_where_id_1 (Table.rows ex_users) = 1
  /\ Table.update (H := no_floats) ex_users
       [("nickname", VText "Jo"); ("id", VText "x")] (Some ex_where_id_1)
     = (ex_users,
        Returned (status false
          "Type error: Cannot convert 'x' to INT: invalid literal for int() with base 10: 'x'"))
  /\ Table.update (H := no_floats) ex_users [("nickname", VText "Jo")] None
     = (ex_users,
        Returned (status false "UPDATE without WHERE clause is not supported")).
Proof. repeat split; reflexivity. Qed.

(** C10 on the value list [1, '']. *)
Lemma blank_last_segment_dropped_witness :
  blank (last_segment "1, ''") = true
  /\ (_parse_values (H := no_floats) "1, ''"
      = map (fun s => _parse_single_value (H := no_floats) (strip s))
            (removelast (segments "1, ''"))
      /\ S (length (_parse_values (H := no_floats) "1, ''"))
         = length (segments "1, ''")
      /\ forall tbl,
           length (Table.columns tbl) = length (segments "1, ''") ->
           Table.insert (H := no_floats) tbl (_parse_values (H := no_floats) "1, ''")
           = (tbl, Returned (status false
                ("Expected " +:+ str_of_nat (length (segments "1, ''"))
                 +:+ " values, got "
                 +:+ str_of_nat (length (_parse_values (H := no_floats) "1, ''")))))).
Proof.
  split; [reflexivity |].
  apply (blank_last_segment_dropped (H := no_floats) "1, ''"). reflexivity.
Defined.

(** With the nickname assignment, the update of the users table succeeds. *)
Example update_with_unknown_column_succeeds :
  snd (Table.update (H := no_floats) ex_users
         [("name", VText "Jonathan"); ("nickname", VText "Jo")] (Some ex_where_id_1))
  = Returned (status true "Updated 1 row(s)").
Proof. reflexivity. Qed.

Example trailing_empty_text_fails_insert :
  _parse_values (H := no_floats) "1, ''" = [VInt 1]
  /\ segments "1, ''" = ["1"; " "]
  /\ Table.insert (H := no_floats) ex_users (_parse_values (H := no_floats) "1, ''")
     = (ex_users, Returned (status false "Expected 2 values, got 1")).
Proof. repeat split; reflexivity. Qed.

(** ** The scenarios of the specification *)

Section scenarios.
Context `{FloatText}.

(** The scenarios of the specification on the users table. *)
Example scenario_insert_and_violations :
  let users1 := fst (Table.insert sc_users sc_john) in
  snd (Table.insert sc_users sc_john)
  = Returned (status true "Inserted 1 row into 'users'")
  /\ length (Table.rows users1) = 1
  /\ snd (Table.insert users1 [VInt 1; VText "Jane"; VText "k@x.com"])
     = Returned (status false "Primary key violation: '1' already exists")
  /\ snd (Table.insert users1 [VInt 2; VText "Jane"; VText "j@x.com"])
     = Returned (status false
          "Unique constraint violation: 'email' = 'j@x.com' already exists").
Proof. repeat split; reflexivity. Qed.

Example scenario_type_error :
  Table.insert sc_users [VText "x"; VText "John"; VText "j@x.com"]
  = (sc_users,
     Returned (status false
       ("Type error for column 'id': Cannot convert 'x' to INT: "
        +:+ "invalid literal for int() with base 10: 'x'"))).
Proof. reflexivity. Qed.

Example scenario_select_update_delete :
  let users1 := fst (Table.insert sc_users sc_john) in
  let by_id := Some (Where "id" (VInt 1)) in
  Table.select users1 ["*"] by_id
  = Returned (Result true "Selected 1 row(s)" (Some ["id"; "name"; "email"])
                (Some [[Some (VInt 1); Some (VText "John"); Some (VText "j@x.com")]]))
  /\ snd (Table.update users1 [("name", VText "Jonathan")] by_id)
     = Returned (status true "Updated 1 row(s)")
  /\ Table.select (fst (Table.update users1 [("name", VText "Jonathan")] by_id))
       ["*"] by_id
     = Returned (Result true "Selected 1 row(s)" (Some ["id"; "name"; "email"])
         (Some [[Some (VInt 1); Some (VText "Jonathan"); Some (VText "j@x.com")]]))
  /\ snd (Table.delete users1 by_id) = Returned (status true "Deleted 1 row(s)")
  /\ Table.select (fst (Table.delete users1 by_id)) ["*"] None
     = Returned (Result true "Selected 0 row(s)" (Some ["id"; "name"; "email"])
                   (Some [])).
Proof. repeat split; reflexivity. Qed.

End scenarios.

(** ** What delete leaves *)

Section delete_result.

Lemma sublist_list_filter {A} (f : A -> bool) (l : list A) :
  sublist (List.filter f l) l.
Proof.
  induction l as [| x l IH]; simpl; [constructor |].
  destruct (f x); [apply sublist_skip | apply sublist_cons]; exact IH.
Qed.

Lemma find_matching_shift w (rs : list row) idx :
  find_matching w rs (S idx) = map S (find_matching w rs idx).
Proof.
  revert idx. induction rs as [|r rs IH]; intros idx; simpl; [reflexivity|].
  rewrite IH. destruct (row_matches w r); reflexivity.
Qed.

Lemma delete_positions_shift (l : list nat) (r : row) (rs : list row) :
  fold_left (fun (acc : list row) i => base.delete i acc) (map S l) (r :: rs)
  = r :: fold_left (fun (acc : list row) i => base.delete i acc) l rs.
Proof.
  revert rs. induction l as [|i l IH]; intros rs; simpl; [reflexivity|].
  apply IH.
Qed.

Lemma delete_rev_matching w (rs : list row) :
  fold_left (fun (acc : list row) i => base.delete i acc)
            (rev (find_matching w rs 0)) rs
  = List.filter (fun r => negb (row_matches w r)) rs.
Proof.
  induction rs as [|r rs IH]; simpl; [reflexivity|].
  rewrite find_matching_shift.
  destruct (row_matches w r); simpl.
  - rewrite <- map_rev, fold_left_app, delete_positions_shift, IH. reflexivity.
  - rewrite <- map_rev, delete_positions_shift, IH. reflexivity.
Qed.

#[local] Instance descending_antisymm : AntiSymm (=) Table.descending.
Proof. intros a b Hab Hba. unfold Table.descending in *. lia. Qed.

#[local] Instance descending_transitive : Transitive Table.descending.
Proof. intros a b c. unfold Table.descending. lia. Qed.

#[local] Instance descending_connex : Total Table.descending.
Proof. intros a b. unfold Table.descending. lia. Qed.

Lemma find_matching_ascending w (rs : list row) idx :
  StronglySorted lt (find_matching w rs idx).
Proof.
  revert idx. induction rs as [|r rs IH]; intros idx; simpl; [constructor|].
  destruct (row_matches w r); [|apply IH].
  constructor; [apply IH|].
  eapply Forall_impl; [apply (find_matching_bounds w rs (S idx))|].
  simpl. intros j Hj. lia.
Qed.

Lemma rev_descending (l : list nat) :
  StronglySorted lt l -> StronglySorted Table.descending (rev l).
Proof.
  induction 1 as [|a l Hs IH Ha]; simpl; [constructor|].
  apply StronglySorted_app_2; [|exact IH|repeat constructor].
  intros x1 x2 Hx1 Hx2. apply list_elem_of_singleton in Hx2 as ->.
  apply list_elem_of_In, in_rev, list_elem_of_In in Hx1.
  rewrite Forall_forall in Ha.
  specialize (Ha _ Hx1). unfold Table.descending. lia.
Qed.

Lemma sorted_reverse_rev w (rs : list row) :
  Table.sorted_reverse (find_matching w rs 0) = rev (find_matching w rs 0).
Proof.
  unfold Table.sorted_reverse.
  apply (StronglySorted_unique Table.descending).
  - apply StronglySorted_merge_sort; apply _.
  - apply rev_descending, find_matching_ascending.
  - rewrite merge_sort_Permutation. apply Permutation_rev.
Qed.

Lemma remove_rows_rows idxs tbl tbl' :
  Table.remove_rows tbl idxs = (tbl', None) ->
  Table.rows tbl'
  = fold_left (fun (acc : list row) i => base.delete i acc) idxs (Table.rows tbl).
Proof.
  revert tbl. induction idxs as [|i idxs IH]; intros tbl Hr; simpl in *.
  - injection Hr as <-. reflexivity.
  - destruct (Table.rows tbl !! i) as [r|]; [|discriminate].
    destruct (r !! Table.primary_key tbl) as [pk_val|]; [|discriminate].
    destruct (Table.unindex_unique _ r _) as [u' [e|]]; [discriminate|].
    apply IH in Hr. exact Hr.
Qed.

End delete_result.

(** ** Conversion and validation *)

Section conversion_facts.
Context `{FloatText}.

Lemma convert_validates v ty x :
  convert_value v ty = Converted x -> validate_type x ty = true.
Proof.
  unfold convert_value, validate_type. intros E.
  destruct (String.eqb (upper ty) "INT").
  - destruct v as [z | f | s].
    + injection E as <-. reflexivity.
    + destruct (int_of_float f); [injection E as <-; reflexivity | discriminate].
    + destruct (int_of_text s); [injection E as <-; reflexivity | discriminate].
  - destruct (existsb _ text_types); [injection E as <-; reflexivity |].
    destruct (existsb _ float_types); [| reflexivity].
    destruct v as [z | f | s].
    + destruct (float_of_int z); [injection E as <-; reflexivity | discriminate].
    + injection E as <-. reflexivity.
    + destruct (float_of_text s); [injection E as <-; reflexivity | discriminate].
Qed.

Lemma convert_again v ty x :
  convert_value v ty = Converted x -> convert_value x ty = Converted x.
Proof.
  unfold convert_value. intros E.
  destruct (String.eqb (upper ty) "INT").
  - destruct v as [z | f | s].
    + injection E as <-. reflexivity.
    + destruct (int_of_float f); [injection E as <-; reflexivity | discriminate].
    + destruct (int_of_text s); [injection E as <-; reflexivity | discriminate].
  - destruct (existsb _ text_types); [injection E as <-; reflexivity |].
    destruct (existsb _ float_types); [| reflexivity].
    destruct v as [z | f | s].
    + destruct (float_of_int z); [injection E as <-; reflexivity | discriminate].
    + injection E as <-. reflexivity.
    + destruct (float_of_text s); [injection E as <-; reflexivity | discriminate].
Qed.

End conversion_facts.

(** ** What every reachable table has *)

Section sound_facts.
Context `{FloatText}.

Lemma index_unique_keeps cols (r : row) idx (u : gmap string dict) c :
  is_Some (u !! c) -> is_Some (fst (Table.index_unique cols r idx u) !! c).
Proof.
  revert u. induction cols as [| col cols IH]; intros u Hc; simpl; [exact Hc |].
  destruct (u !! col) as [d |] eqn:Hd; [| exact Hc].
  destruct (r !! col) as [v |]; [| exact Hc].
  apply IH. destruct (decide (col = c)) as [-> | Hne].
  - rewrite lookup_insert_eq. eauto.
  - rewrite lookup_insert_ne by exact Hne. exact Hc.
Qed.

Lemma dict_set_range (d : dict) k i n :
  Forall (fun e : value * nat => snd e < n) d -> i < n ->
  Forall (fun e : value * nat => snd e < n) (dict_set d k i).
Proof.
  intros Hd Hi. induction d as [| [k' v'] d IH]; simpl.
  - constructor; [exact Hi | constructor].
  - inversion Hd as [| ? ? Hv Hd']; subst.
    destruct (py_eq k' k); constructor; auto.
Qed.

(** The three outcomes of an insert, by what they leave. *)
Lemma insert_cases tbl values :
  fst (Table.insert tbl values) = tbl
  \/ exists r pk_value u',
       Table.build_row (Table.columns tbl) values ∅ = Table.Built r
       /\ r !! Table.primary_key tbl = Some pk_value
       /\ dict_mem pk_value (Table.primary_index tbl) = false
       /\ Table.check_unique (Table.unique_columns tbl) r (Table.unique_indexes tbl)
          = Table.Pass
       /\ Table.index_unique (Table.unique_columns tbl) r (length (Table.rows tbl))
                             (Table.unique_indexes tbl) = (u', None)
       /\ Table.insert tbl values
          = (Table.with_storage tbl (Table.rows tbl ++ [r])
               (dict_set (Table.primary_index tbl) pk_value (length (Table.rows tbl)))
               u',
             Returned (status true ("Inserted 1 row into '" +:+ Table.name tbl +:+ "'"))).
Proof.
  unfold Table.insert.
  destruct (negb _); [left; reflexivity |].
  destruct (Table.build_row _ _ _) as [r | |] eqn:Hb; try (left; reflexivity).
  destruct (r !! Table.primary_key tbl) as [pkv |] eqn:Hpk; [| left; reflexivity].
  destruct (dict_mem _ _) eqn:Hm; [left; reflexivity |].
  destruct (Table.check_unique _ _ _) eqn:Hc; try (left; reflexivity).
  pose proof (index_unique_no_error (Table.unique_columns tbl) r
                (length (Table.rows tbl)) (Table.unique_indexes tbl)) as N.
  destruct (Table.index_unique _ _ _ _) as [u' [e' |]] eqn:Hi.
  - simpl in N. discriminate N.
    intros c Hcol.
    destruct (check_unique_pass _ _ _ Hc c Hcol) as (v & d & -> & -> & _). eauto.
  - right. exists r, pkv, u'. repeat split; solve [reflexivity | assumption].
Qed.

Lemma build_row_typed cols values (m : gmap string string) (r0 r : row) :
  (forall c v, r0 !! c = Some v ->
     exists ty, m !! c = Some ty /\ validate_type v ty = true) ->
  Table.build_row cols values r0 = Table.Built r ->
  forall c v, r !! c = Some v ->
    exists ty, fold_left (fun m col => <[fst col := snd col]> m) cols m !! c = Some ty
               /\ validate_type v ty = true.
Proof.
  revert values m r0. induction cols as [| [cn ct] cols IH];
    intros values m r0 Inv E; simpl in *.
  - injection E as <-. exact Inv.
  - destruct values as [| v0 values]; [discriminate |].
    destruct (convert_value v0 ct) as [x | |] eqn:Hx; try discriminate.
    eapply IH; [| exact E].
    intros c v Hc. destruct (decide (cn = c)) as [-> | Hne].
    + rewrite lookup_insert_eq in Hc. injection Hc as <-.
      exists ct. rewrite lookup_insert_eq. split; [reflexivity |].
      eapply convert_validates; exact Hx.
    + rewrite lookup_insert_ne in Hc by exact Hne.
      rewrite lookup_insert_ne by exact Hne. apply Inv, Hc.
Qed.

Lemma set_columns_typed tbl set_values (r r' : row) s :
  Table.set_columns tbl set_values r = (r', s) ->
  (forall c ty v, Table.column_types tbl !! c = Some ty -> r !! c = Some v ->
     validate_type v ty = true) ->
  forall c ty v, Table.column_types tbl !! c = Some ty -> r' !! c = Some v ->
    validate_type v ty = true.
Proof.
  revert r. induction set_values as [| [col new_val] rest IH]; intros r E Inv; simpl in E.
  - injection E as <- _. exact Inv.
  - destruct (bool_decide _); [| eapply IH; eassumption].
    destruct (Table.column_types tbl !! col) as [ty0 |] eqn:Hty;
      [| injection E as <- _; exact Inv].
    destruct (convert_value new_val ty0) as [x | e | e] eqn:Hx;
      try (injection E as <- _; exact Inv).
    eapply IH; [exact E |].
    intros c ty v Hc Hv. destruct (decide (col = c)) as [-> | Hne].
    + rewrite lookup_insert_eq in Hv. injection Hv as <-.
      rewrite Hty in Hc. injection Hc as <-.
      eapply convert_validates; exact Hx.
    + rewrite lookup_insert_ne in Hv by exact Hne. eapply Inv; eassumption.
Qed.

Lemma update_rows_length tbl set_values idxs rs rows' s :
  Table.update_rows tbl set_values idxs rs = (rows', s) -> length rows' = length rs.
Proof.
  revert rs. induction idxs as [| idx idxs IH]; intros rs E; simpl in E.
  - injection E as <- _. reflexivity.
  - destruct (rs !! idx) as [r |]; [| injection E as <- _; reflexivity].
    destruct (Table.set_columns tbl set_values r) as [r' [st |]].
    + injection E as <- _. apply length_insert.
    + apply IH in E. rewrite E. apply length_insert.
Qed.

(** The shape of what [update] returns. *)
Lemma update_shape tbl set_values where_ :
  exists rows',
    fst (Table.update tbl set_values where_)
    = Table.with_storage tbl rows' (Table.primary_index tbl) (Table.unique_indexes tbl)
    /\ length rows' = length (Table.rows tbl)
    /\ forall P : row -> Prop,
         (forall r r' st, Table.set_columns tbl set_values r = (r', st) -> P r -> P r') ->
         Forall P (Table.rows tbl) -> Forall P rows'.
Proof.
  unfold Table.update.
  assert (Same : exists rows',
    tbl = Table.with_storage tbl rows' (Table.primary_index tbl) (Table.unique_indexes tbl)
    /\ length rows' = length (Table.rows tbl)
    /\ forall P : row -> Prop,
         (forall r r' st, Table.set_columns tbl set_values r = (r', st) -> P r -> P r') ->
         Forall P (Table.rows tbl) -> Forall P rows').
  { exists (Table.rows tbl). split; [destruct tbl; reflexivity |]. auto. }
  destruct where_ as [w |]; [| exact Same].
  destruct (find_matching w (Table.rows tbl) 0) as [| i rest]; [exact Same |].
  destruct (Table.update_rows _ _ _ _) as [rows' s] eqn:Hu.
  exists rows'. split; [destruct s as [[e | e] |]; reflexivity |].
  split; [eapply update_rows_length; exact Hu |].
  intros P HP HF. eapply update_rows_keeps; eassumption.
Qed.

Lemma rebuild_rows_ok pk cols (rs : list row) idx primary (u : gmap string dict) n :
  Forall (fun r : row => is_Some (r !! pk)
            /\ forall c, c ∈ cols -> is_Some (r !! c)) rs ->
  (forall c, c ∈ cols -> is_Some (u !! c)) ->
  Forall (fun e : value * nat => snd e < n) primary ->
  idx + length rs <= n ->
  exists primary' u',
    Table.rebuild_rows pk cols rs idx primary u = (primary', u', None)
    /\ (forall c, is_Some (u !! c) -> is_Some (u' !! c))
    /\ Forall (fun e : value * nat => snd e < n) primary'.
Proof.
  revert idx primary u.
  induction rs as [| r rs IH]; intros idx primary u Hrs Hu Hp Hn; simpl.
  - exists primary, u. auto.
  - inversion Hrs as [| ? ? [[v Hv] Hcols] Hrs']; subst. rewrite Hv.
    pose proof (index_unique_no_error cols r idx u) as N.
    pose proof (fun c => index_unique_keeps cols r idx u c) as K.
    destruct (Table.index_unique cols r idx u) as [u1 [e |]].
    { simpl in N. discriminate N. intros c Hc. split; [apply Hcols, Hc | apply Hu, Hc]. }
    simpl in K, Hn.
    destruct (IH (S idx) (dict_set primary v idx) u1) as (p' & u' & E & Dom & R).
    + exact Hrs'.
    + intros c Hc. apply K, Hu, Hc.
    + apply dict_set_range; [exact Hp | lia].
    + lia.
    + exists p', u'. split; [exact E |]. split; [| exact R].
      intros c Hc. apply Dom, K, Hc.
Qed.

Lemma rebuild_indexes_keyed tbl :
  keyed tbl ->
  exists primary' u',
    Table._rebuild_indexes tbl
    = (Table.with_storage tbl (Table.rows tbl) primary' u', None)
    /\ (forall c, c ∈ Table.unique_columns tbl -> is_Some (u' !! c))
    /\ Forall (fun e : value * nat => snd e < length (Table.rows tbl)) primary'.
Proof.
  intros [Kr Ku]. unfold Table._rebuild_indexes.
  destruct (clear_unique_spec (Table.unique_columns tbl) (Table.unique_indexes tbl) Ku)
    as (u0 & -> & Hin & _).
  destruct (rebuild_rows_ok (Table.primary_key tbl) (Table.unique_columns tbl)
              (Table.rows tbl) 0 [] u0 (length (Table.rows tbl)))
    as (p' & u' & -> & Dom & R).
  - exact Kr.
  - intros c Hc. eexists. apply Hin, Hc.
  - constructor.
  - simpl. lia.
  - exists p', u'. split; [reflexivity |]. split; [| exact R].
    intros c Hc. apply Dom. eexists. apply Hin, Hc.
Qed.

(** What [delete] does on a table whose rows carry their key columns: it
    raises nothing, removes the rows that match and keeps the others in
    their order. *)
Lemma delete_keyed tbl w :
  keyed tbl ->
  exists primary' u',
    Table.delete tbl (Some w)
    = (Table.with_storage tbl
         (List.filter (fun r => negb (row_matches w r)) (Table.rows tbl)) primary' u',
       Returned (status true
         ("Deleted " +:+ str_of_nat (matched w (Table.rows tbl)) +:+ " row(s)")))
    /\ (forall c, c ∈ Table.unique_columns tbl -> is_Some (u' !! c))
    /\ (in_range tbl ->
        Forall (fun e : value * nat =>
                  snd e < length (List.filter (fun r => negb (row_matches w r))
                                              (Table.rows tbl))) primary').
Proof.
  intros K. unfold Table.delete.
  pose proof (find_matching_length w (Table.rows tbl) 0) as L.
  pose proof (delete_rev_matching w (Table.rows tbl)) as D.
  pose proof (sorted_reverse_below w (Table.rows tbl)) as B.
  rewrite sorted_reverse_rev in B.
  destruct (find_matching w (Table.rows tbl) 0) as [| i rest] eqn:Hf.
  - simpl in D. rewrite <- D, <- L. simpl.
    exists (Table.primary_index tbl), (Table.unique_indexes tbl).
    split; [destruct tbl; reflexivity |]. split; [apply K |]. auto.
  - rewrite <- Hf, sorted_reverse_rev, Hf.
    destruct (remove_rows_spec _ tbl K B) as (tbl1 & E1 & Sub & Sch & Dom).
    rewrite E1. rewrite <- L.
    pose proof (remove_rows_rows _ _ _ E1) as R1. rewrite D in R1.
    assert (K1 : keyed tbl1).
    { destruct Sch as (_ & _ & Hpk & Hu). split.
      - rewrite Hpk, Hu. eapply Forall_sublist; [exact Sub | apply K].
      - rewrite Hu. exact Dom. }
    destruct (rebuild_indexes_keyed tbl1 K1) as (p' & u' & E2 & Dom2 & R2).
    rewrite E2. exists p', u'.
    destruct Sch as (Hn & Hc & Hpk & Hu).
    split; [| split].
    + unfold Table.with_storage. rewrite Hn, Hc, Hpk, Hu, R1. reflexivity.
    + rewrite <- Hu. exact Dom2.
    + intros _. rewrite <- R1. exact R2.
Qed.

Lemma apply_operation_sound tbl op :
  sound tbl ->
  sound (apply_operation tbl op)
  /\ Table.columns (apply_operation tbl op) = Table.columns tbl.
Proof.
  intros (K & R & T). destruct op as [[values | where_] | set_values where_]; simpl.
  - destruct (insert_cases tbl values)
      as [-> | (r & pkv & u' & Hb & Hpk & Hm & Hc & Hi & ->)];
      [split; [exact (conj K (conj R T)) | reflexivity] |].
    simpl. split; [| reflexivity]. split; [| split].
    + destruct K as [Kr Ku]. split; simpl.
      * apply Forall_app. split; [exact Kr |]. constructor; [| constructor].
        split; [eauto |]. intros c Hcol.
        destruct (check_unique_pass _ _ _ Hc c Hcol) as (v & d & -> & _). eauto.
      * intros c Hcol.
        pose proof (index_unique_keeps (Table.unique_columns tbl) r
                      (length (Table.rows tbl)) (Table.unique_indexes tbl) c
                      (Ku c Hcol)) as Hk.
        rewrite Hi in Hk. exact Hk.
    + unfold in_range; simpl. rewrite length_app; simpl.
      apply dict_set_range; [| lia].
      eapply Forall_impl; [exact R |]. simpl. intros; lia.
    + unfold typed; simpl. apply Forall_app. split; [exact T |].
      constructor; [| constructor]. intros c ty v Hty Hv.
      destruct (build_row_typed (Table.columns tbl) values ∅ ∅ r) with (c := c) (v := v)
        as (ty' & Hty' & Hval); [| exact Hb | exact Hv |].
      * intros c0 v0 Hc0. rewrite lookup_empty in Hc0. discriminate.
      * unfold Table.column_types in Hty. simpl in Hty.
        rewrite Hty' in Hty. injection Hty as <-. exact Hval.
  - destruct where_ as [w |]; [| split; [exact (conj K (conj R T)) | reflexivity]].
    destruct (delete_keyed tbl w K) as (p' & u' & -> & Dom & Rng).
    simpl. split; [| reflexivity]. split; [| split].
    + split; simpl; [| exact Dom].
      eapply Forall_sublist; [| apply K].
      apply sublist_list_filter.
    + unfold in_range; simpl. apply Rng, R.
    + unfold typed; simpl. eapply Forall_sublist; [| exact T].
      apply sublist_list_filter.
  - destruct (update_shape tbl set_values where_) as (rows' & -> & Hlen & Keep).
    simpl. split; [| reflexivity]. split; [| split].
    + split; simpl; [| apply K].
      apply Keep; [| apply K].
      intros r r' st Hs [Hpk Hcols]. split.
      * eapply set_columns_keeps; eassumption.
      * intros c Hc. eapply set_columns_keeps; eauto.
    + unfold in_range; simpl. rewrite Hlen. exact R.
    + unfold typed; simpl. apply Keep; [| exact T].
      intros r r' st Hs Hr c ty v Hty Hv.
      eapply (set_columns_typed tbl set_values r r' st Hs); [| exact Hty | exact Hv].
      exact Hr.
Qed.

Lemma init_sound name columns primary_key unique_columns :
  sound (Table.init name columns primary_key unique_columns).
Proof.
  split; [| split].
  - apply synced_keyed, init_synced.
  - constructor.
  - constructor.
Qed.

Lemma run_sound tbl ops :
  sound tbl -> sound (run tbl ops) /\ Table.columns (run tbl ops) = Table.columns tbl.
Proof.
  revert tbl. induction ops as [| op ops IH]; intros tbl S; simpl.
  - split; [exact S | reflexivity].
  - destruct (apply_operation_sound tbl op S) as [S' C'].
    destruct (IH _ S') as [S'' C'']. split; [exact S'' |].
    rewrite C''. exact C'.
Qed.

End sound_facts.

(** ** Delete and select on reachable tables *)

Section reachable_facts.
Context `{FloatText}.

(** X1.  On every table made by [Table.__init__] and changed by any
    inserts, updates and deletes, a delete with a WHERE predicate raises
    nothing, reports the number of rows that match, and leaves exactly the
    rows that do not match, in their order. *)
Theorem delete_removes_the_matching_rows name columns primary_key unique_columns
    (ops : list operation) w :
  let tbl := run (Table.init name columns primary_key unique_columns) ops in
  snd (Table.delete tbl (Some w))
  = Returned (status true
      ("Deleted " +:+ str_of_nat (matched w (Table.rows tbl)) +:+ " row(s)"))
  /\ Table.rows (fst (Table.delete tbl (Some w)))
     = List.filter (fun r => negb (row_matches w r)) (Table.rows tbl).
Proof.
  intros tbl.
  destruct (run_sound _ ops (init_sound name columns primary_key unique_columns))
    as [(K & _ & _) _].
  destruct (delete_keyed tbl w K) as (p' & u' & -> & _ & _).
  split; reflexivity.
Qed.

Lemma sublist_singleton {A} (l : list A) i x : l !! i = Some x -> sublist [x] l.
Proof.
  revert i. induction l as [| y l IH]; intros i Hi; [discriminate |].
  destruct i as [| i]; simpl in Hi.
  - injection Hi as ->. apply sublist_skip, sublist_nil_l.
  - apply sublist_cons. eapply IH; exact Hi.
Qed.

(** X2.  On every such table a select raises nothing: it returns success
    with the projections of stored rows, taken in their order, and when all
    columns are asked for no cell is missing. *)
Theorem select_never_raises name columns primary_key unique_columns
    (ops : list operation) cols where_ :
  let tbl := run (Table.init name columns primary_key unique_columns) ops in
  let out := if Table.all_columns cols then map fst columns else cols in
  exists found,
    Table.select tbl cols where_
    = Returned (Result true ("Selected " +:+ str_of_nat (length found) +:+ " row(s)")
                  (Some out) (Some (map (project out) found)))
    /\ sublist found (Table.rows tbl)
    /\ (Table.all_columns cols = true ->
        Forall (Forall is_Some) (map (project out) found)).
Proof.
  intros tbl out.
  destruct (run_sound _ ops (init_sound name columns primary_key unique_columns))
    as [(_ & R & _) Hc].
  pose proof (run_complete name columns primary_key unique_columns ops) as C.
  fold tbl in R, Hc, C. simpl in Hc.
  assert (Hout : (if Table.all_columns cols then Table.column_names tbl else cols) = out).
  { unfold out, Table.column_names. rewrite Hc. reflexivity. }
  assert (Fin : forall found, sublist found (Table.rows tbl) ->
            Table.all_columns cols = true ->
            Forall (Forall is_Some) (map (project out) found)).
  { intros found Sub Hall. rewrite <- Hout, Hall.
    apply Forall_forall. intros cells Hcells.
    apply list_elem_of_In, in_map_iff in Hcells as (r & <- & Hr).
    apply list_elem_of_In in Hr.
    pose proof (Forall_sublist _ _ _ Sub C) as C'. rewrite Forall_forall in C'.
    apply Forall_forall. intros cell Hcell.
    apply list_elem_of_In, in_map_iff in Hcell as (c & <- & Hcin).
    apply C'; [exact Hr | apply list_elem_of_In, Hcin]. }
  unfold Table.select. rewrite Hout.
  destruct where_ as [w |].
  - destruct (String.eqb (where_col w) (Table.primary_key tbl)).
    + destruct (dict_get (Table.primary_index tbl) (where_val w)) as [i |] eqn:Hg.
      * assert (Hi : i < length (Table.rows tbl)).
        { clear -Hg R. unfold in_range in R.
          induction (Table.primary_index tbl) as [| [k v] d IH]; [discriminate |].
          inversion R as [| ? ? Hv R']; subst. simpl in Hg.
          destruct (py_eq k (where_val w)); [injection Hg as <-; exact Hv | auto]. }
        destruct (lookup_lt_is_Some_2 _ _ Hi) as [r Hr]. rewrite Hr.
        exists [r]. rewrite length_map. split; [reflexivity |].
        split; [eapply sublist_singleton; exact Hr |].
        apply Fin. eapply sublist_singleton; exact Hr.
      * exists []. split; [reflexivity |]. split; [apply sublist_nil_l |].
        intros _. constructor.
    + exists (List.filter (row_matches w) (Table.rows tbl)). rewrite length_map.
      split; [reflexivity |]. split; [apply sublist_list_filter |].
      apply Fin, sublist_list_filter.
  - exists (Table.rows tbl). rewrite length_map. split; [reflexivity |].
    split; [reflexivity |]. apply Fin. reflexivity.
Qed.

(** X3.  Every value stored in a table passes [validate_type] at the type
    declared for its column, after any sequence of operations, updates that
    stop at a failure included. *)
Theorem stored_values_validate name columns primary_key unique_columns
    (ops : list operation) :
  typed (run (Table.init name columns primary_key unique_columns) ops).
Proof.
  destruct (run_sound _ ops (init_sound name columns primary_key unique_columns))
    as [(_ & _ & T) _].
  exact T.
Qed.

End reachable_facts.

(** ** Select through the index *)

Section scan_facts.

Lemma filter_none_matches col v (rs : list row) k :
  Forall (fun r : row => is_Some (r !! col)) rs ->
  Forall (fun k' => py_eq k k' = false) (map (key_of col) rs) ->
  py_eq k v = true ->
  List.filter (row_matches (Where col v)) rs = [].
Proof.
  intros Hs Hd Hk. induction rs as [| r rs IH]; simpl; [reflexivity |].
  inversion Hs as [| ? ? [x Hx] Hs']; subst.
  inversion Hd as [| ? ? Hkx Hd']; subst.
  assert (Hm : row_matches (Where col v) r = py_eq x v).
  { unfold row_matches; simpl. rewrite Hx. reflexivity. }
  rewrite Hm.
  rewrite (key_of_lookup _ _ _ Hx) in Hkx.
  destruct (py_eq x v) eqn:Hxv; [| apply IH; assumption].
  rewrite py_eq_sym in Hxv.
  rewrite (py_eq_trans _ _ _ Hk Hxv) in Hkx. discriminate.
Qed.

(** What a lookup in an index in step with the rows finds, against the
    linear scan. *)
Lemma scan_indexed col v (rs : list row) from :
  Forall (fun r : row => is_Some (r !! col)) rs ->
  distinct (map (key_of col) rs) ->
  match dict_get (number_from from (map (key_of col) rs)) v with
  | Some i => exists r, rs !! (i - from) = Some r /\ from <= i
                        /\ List.filter (row_matches (Where col v)) rs = [r]
  | None => List.filter (row_matches (Where col v)) rs = []
  end.
Proof.
  revert from. induction rs as [| r rs IH]; intros from Hs Hd; simpl; [reflexivity |].
  inversion Hs as [| ? ? [x Hx] Hs']; subst. destruct Hd as [Hfresh Hd].
  rewrite (key_of_lookup _ _ _ Hx). rewrite (key_of_lookup _ _ _ Hx) in Hfresh.
  assert (Hm : row_matches (Where col v) r = py_eq x v).
  { unfold row_matches; simpl. rewrite Hx. reflexivity. }
  rewrite Hm.
  destruct (py_eq x v) eqn:Hxv.
  - exists r. rewrite Nat.sub_diag. split; [reflexivity |]. split; [lia |].
    rewrite (filter_none_matches col v rs x Hs' Hfresh Hxv). reflexivity.
  - specialize (IH (S from) Hs' Hd).
    destruct (dict_get _ v) as [i |]; [| exact IH].
    destruct IH as (r' & Hr' & Hle & Hf). exists r'.
    split; [| split; [lia | exact Hf]].
    replace (i - from) with (S (i - S from)) by lia. exact Hr'.
Qed.

Lemma select_synced tbl cols w :
  table_synced tbl ->
  Table.select tbl cols (Some w)
  = let out := if Table.all_columns cols then Table.column_names tbl else cols in
    Returned (Result true
      ("Selected " +:+ str_of_nat (matched w (Table.rows tbl)) +:+ " row(s)")
      (Some out)
      (Some (map (project out) (List.filter (row_matches w) (Table.rows tbl))))).
Proof.
  intros [_ [(Hs & Hd & Hi) _]]. unfold Table.select, matched. simpl.
  destruct (String.eqb (where_col w) (Table.primary_key tbl)) eqn:Hpk;
    [| rewrite length_map; reflexivity].
  apply String.eqb_eq in Hpk.
  pose proof (scan_indexed (Table.primary_key tbl) (where_val w) (Table.rows tbl) 0
                Hs Hd) as Sc.
  rewrite <- Hi, <- Hpk in Sc.
  replace (Where (where_col w) (where_val w)) with w in Sc by (destruct w; reflexivity).
  destruct (dict_get (Table.primary_index tbl) (where_val w)) as [i |].
  - destruct Sc as (r & Hr & _ & ->). rewrite Nat.sub_0_r in Hr. rewrite Hr.
    reflexivity.
  - rewrite Sc. reflexivity.
Qed.

(** X4.  While the indexes are in step with the rows, the lookup that a
    select on the primary key makes in the index returns what the linear
    scan returns: the projections of the rows whose value equals the
    predicate's, in row order. *)
Theorem select_by_key_agrees_with_scan tbl cols w :
  table_synced tbl ->
  where_col w = Table.primary_key tbl ->
  Table.select tbl cols (Some w)
  = Returned (Result true
      ("Selected " +:+ str_of_nat (matched w (Table.rows tbl)) +:+ " row(s)")
      (Some (if Table.all_columns cols then Table.column_names tbl else cols))
      (Some (map (project (if Table.all_columns cols then Table.column_names tbl
                           else cols))
                 (List.filter (row_matches w) (Table.rows tbl)))))
  /\ matched w (Table.rows tbl) <= 1.
Proof.
  intros S Hpk. split; [apply select_synced, S |].
  destruct S as [_ [(Hs & Hd & Hi) _]]. unfold matched.
  pose proof (scan_indexed (Table.primary_key tbl) (where_val w) (Table.rows tbl) 0
                Hs Hd) as Sc.
  rewrite <- Hpk in Sc.
  replace (Where (where_col w) (where_val w)) with w in Sc by (destruct w; reflexivity).
  destruct (dict_get _ _) as [i |].
  - destruct Sc as (r & _ & _ & ->). simpl. lia.
  - rewrite Sc. simpl. lia.
Qed.

Lemma filter_after_delete w (rs : list row) :
  List.filter (row_matches w) (List.filter (fun r => negb (row_matches w r)) rs) = [].
Proof.
  induction rs as [| r rs IH]; simpl; [reflexivity |].
  destruct (row_matches w r) eqn:Hm; simpl; [exact IH |].
  rewrite Hm. exact IH.
Qed.

(** X5.  While the indexes are in step with the rows, a select that
    follows a delete with the same predicate finds nothing, whether it goes
    through the index or scans. *)
Theorem select_after_delete_is_empty tbl cols w :
  table_synced tbl ->
  Table.select (fst (Table.delete tbl (Some w))) cols (Some w)
  = Returned (Result true "Selected 0 row(s)"
      (Some (if Table.all_columns cols then Table.column_names tbl else cols))
      (Some [])).
Proof.
  intros S.
  destruct (delete_keyed tbl w (synced_keyed tbl S)) as (p' & u' & E & _ & _).
  destruct (delete_synced tbl (Some w) S) as [S' _].
  rewrite E in S' |- *. cbn [fst] in *.
  rewrite (select_synced _ cols w S'). unfold matched. cbn [Table.rows Table.with_storage].
  rewrite filter_after_delete. reflexivity.
Qed.

End scan_facts.

(** ** Updates and the indexes *)

Section update_index_facts.
Context `{FloatText}.

Lemma update_rows_related tbl set_values idxs rs rows' s (Rel : row -> row -> Prop) :
  (forall r, Rel r r) ->
  (forall a b c, Rel a b -> Rel b c -> Rel a c) ->
  (forall r r' st, Table.set_columns tbl set_values r = (r', st) -> Rel r r') ->
  Table.update_rows tbl set_values idxs rs = (rows', s) ->
  Forall2 Rel rs rows'.
Proof.
  intros Hrefl Htrans Hset. revert rs.
  assert (Same : forall rs : list row, Forall2 Rel rs rs).
  { intros rs. apply Forall2_same_length_lookup. split; [reflexivity |].
    intros i x y Hx Hy. rewrite Hx in Hy. injection Hy as <-. apply Hrefl. }
  induction idxs as [| idx idxs IH]; intros rs E; simpl in E.
  - injection E as <- _. apply Same.
  - destruct (rs !! idx) as [r |] eqn:Hr; [| injection E as <- _; apply Same].
    destruct (Table.set_columns tbl set_values r) as [r' st] eqn:Hs.
    assert (Step : Forall2 Rel rs (<[idx := r']> rs)).
    { apply Forall2_same_length_lookup. split; [symmetry; apply length_insert |].
      intros i x y Hx Hy. destruct (decide (i = idx)) as [-> | Hne].
      - rewrite list_lookup_insert_eq in Hy by (eapply lookup_lt_Some; exact Hr).
        injection Hy as <-. rewrite Hr in Hx. injection Hx as <-.
        eapply Hset; exact Hs.
      - rewrite list_lookup_insert_ne in Hy by congruence.
        rewrite Hx in Hy. injection Hy as <-. apply Hrefl. }
    destruct st as [st |]; [injection E as <- _; exact Step |].
    apply IH in E.
    apply Forall2_same_length_lookup. split.
    + rewrite (Forall2_length _ _ _ Step). apply (Forall2_length _ _ _ E).
    + intros i x z Hx Hz.
      destruct (Forall2_lookup_l _ _ _ _ _ Step Hx) as (y & Hy & Rxy).
      destruct (Forall2_lookup_l _ _ _ _ _ E Hy) as (z' & Hz' & Ryz).
      rewrite Hz in Hz'. injection Hz' as <-. eapply Htrans; eassumption.
Qed.

Lemma indexed_related col (rs rows' : list row) d :
  Forall2 (fun r r' : row => r' !! col = r !! col) rs rows' ->
  indexed col rs d -> indexed col rows' d.
Proof.
  intros F (Hs & Hd & Hi).
  assert (Hk : map (key_of col) rows' = map (key_of col) rs).
  { clear -F. induction F as [| r r' rs rows' Hr _ IH]; simpl; [reflexivity |].
    unfold key_of at 1 3. rewrite Hr, IH. reflexivity. }
  split; [| rewrite Hk; split; assumption].
  clear -F Hs. induction F as [| r r' rs rows' Hr _ IH]; [constructor |].
  inversion Hs; subst. constructor; [rewrite Hr; assumption | auto].
Qed.

Lemma update_synced tbl set_values where_ :
  table_synced tbl ->
  assigns_no_key (Table.primary_key tbl) (Table.unique_columns tbl)
                 (Update set_values where_) ->
  table_synced (fst (Table.update tbl set_values where_))
  /\ same_schema (fst (Table.update tbl set_values where_)) tbl.
Proof.
  intros [Nd [Sp Su]] Hno. simpl in Hno. unfold Table.update.
  destruct where_ as [w |]; [| split; [exact (conj Nd (conj Sp Su)) | repeat split]].
  destruct (find_matching w (Table.rows tbl) 0) as [| i rest];
    [split; [exact (conj Nd (conj Sp Su)) | repeat split] |].
  destruct (Table.update_rows _ _ _ _) as [rows' s] eqn:Hu.
  assert (Rel : Forall2 (fun r r' : row =>
                  forall c, c = Table.primary_key tbl \/ c ∈ Table.unique_columns tbl ->
                    r' !! c = r !! c) (Table.rows tbl) rows').
  { eapply update_rows_related; [| | | exact Hu].
    - reflexivity.
    - intros a b c Hab Hbc col Hcol. rewrite (Hbc col Hcol). apply Hab, Hcol.
    - intros r r' st Hs col Hcol. eapply set_columns_frame; [exact Hs |].
      left. intros Hin. destruct (Hno col Hin) as [Hpk Hun].
      destruct Hcol as [-> | Hcol]; [apply Hpk; reflexivity | apply Hun, Hcol]. }
  assert (S' : table_synced (Table.with_storage tbl rows' (Table.primary_index tbl)
                               (Table.unique_indexes tbl))).
  { split; [exact Nd |]. split; simpl.
    - eapply indexed_related; [| exact Sp].
      eapply Forall2_impl; [exact Rel |]. intros r r' Hr. apply Hr. left. reflexivity.
    - intros c Hc. destruct (Su c Hc) as (d & Hd & Hi). exists d.
      split; [exact Hd |]. eapply indexed_related; [| exact Hi].
      eapply Forall2_impl; [exact Rel |]. intros r r' Hr. apply Hr. right. exact Hc. }
  destruct s as [[e | e] |]; (split; [exact S' | repeat split]).
Qed.

Lemma run_synced tbl ops :
  table_synced tbl ->
  Forall (assigns_no_key (Table.primary_key tbl) (Table.unique_columns tbl)) ops ->
  table_synced (run tbl ops) /\ same_schema (run tbl ops) tbl.
Proof.
  revert tbl. induction ops as [| op ops IH]; intros tbl St Hno; simpl.
  - split; [exact St | repeat split].
  - inversion Hno as [| ? ? Hop Hops]; subst.
    assert (St1 : table_synced (apply_operation tbl op)
                  /\ same_schema (apply_operation tbl op) tbl).
    { destruct op as [[values | where_] | set_values where_]; simpl.
      - split; [apply insert_synced, St | apply insert_schema].
      - apply delete_synced, St.
      - apply update_synced; assumption. }
    destruct St1 as [St1 (Hn & Hc & Hpk & Hu)].
    destruct (IH _ St1) as [St2 (? & ? & ? & ?)].
    { rewrite Hpk, Hu. exact Hops. }
    split; [exact St2 |]. repeat split; congruence.
Qed.

(** X6.  After any sequence of inserts, deletes and updates that assign
    no primary-key and no unique column, updates that stop at a failure
    included, the primary index and every unique index are exact indexes of
    the rows. *)
Theorem indexes_exact_after_operations name columns primary_key unique_columns
    (ops : list operation) :
  Forall (assigns_no_key primary_key unique_columns) ops ->
  let tbl := run (Table.init name columns primary_key unique_columns) ops in
  index_exact primary_key (Table.rows tbl) (Table.primary_index tbl)
  /\ forall c, c ∈ unique_columns ->
       exists d, Table.unique_indexes tbl !! c = Some d
                 /\ index_exact c (Table.rows tbl) d.
Proof.
  intros Hno tbl.
  destruct (run_synced (Table.init name columns primary_key unique_columns) ops
              (init_synced _ _ _ _)) as [[_ [Sp Su]] (_ & _ & Hpk & Hu)].
  { simpl. eapply Forall_impl; [exact Hno |].
    intros [c | sv w] Hop; simpl in *; [exact I |].
    intros c Hc. destruct (Hop c Hc) as [Hne Hnin]. split; [exact Hne |].
    rewrite elem_of_remove_dups. exact Hnin. }
  fold tbl in Sp, Su, Hpk, Hu. simpl in Hpk, Hu. rewrite Hpk, Hu in *.
  split; [apply indexed_exact, Sp |].
  intros c Hc. destruct (Su c) as (d & Hd & Hi).
  { apply elem_of_remove_dups, Hc. }
  exists d. split; [exact Hd | apply indexed_exact, Hi].
Qed.

Lemma distinct_lookup keys i j (a b : value) :
  distinct keys -> i < j -> keys !! i = Some a -> keys !! j = Some b ->
  py_eq a b = false.
Proof.
  revert i j. induction keys as [| k keys IH]; intros i j Hd Hij Ha Hb; [discriminate |].
  destruct Hd as [Hk Hd]. destruct j as [| j]; [lia |]. simpl in Hb.
  destruct i as [| i]; simpl in Ha.
  - injection Ha as ->. rewrite Forall_forall in Hk. apply Hk.
    eapply list_elem_of_lookup_2; exact Hb.
  - eapply IH; [exact Hd | | exact Ha | exact Hb]. lia.
Qed.

Lemma indexed_pairwise col (rs : list row) d i j (ri rj : row) :
  indexed col rs d -> i <> j -> rs !! i = Some ri -> rs !! j = Some rj ->
  exists vi vj, ri !! col = Some vi /\ rj !! col = Some vj /\ py_eq vi vj = false.
Proof.
  intros (Hs & Hd & _) Hij Hi Hj.
  destruct (Forall_lookup_1 _ _ _ _ Hs Hi) as [vi Hvi].
  destruct (Forall_lookup_1 _ _ _ _ Hs Hj) as [vj Hvj].
  exists vi, vj. split; [exact Hvi |]. split; [exact Hvj |].
  assert (Ki : map (key_of col) rs !! i = Some vi).
  { rewrite map_fmap, list_lookup_fmap, Hi. simpl. f_equal.
    apply key_of_lookup, Hvi. }
  assert (Kj : map (key_of col) rs !! j = Some vj).
  { rewrite map_fmap, list_lookup_fmap, Hj. simpl. f_equal.
    apply key_of_lookup, Hvj. }
  destruct (Nat.lt_ge_cases i j) as [Hlt | Hge].
  - eapply distinct_lookup; eassumption.
  - rewrite py_eq_sym. eapply distinct_lookup; [exact Hd | | exact Kj | exact Ki]. lia.
Qed.

(** X7.  After any such sequence no two rows of the table hold equal
    values (equal under [==]) in the primary-key column or in a unique
    column. *)
Theorem keys_stay_distinct name columns primary_key unique_columns
    (ops : list operation) c i j (ri rj : row) :
  Forall (assigns_no_key primary_key unique_columns) ops ->
  c = primary_key \/ c ∈ unique_columns ->
  let tbl := run (Table.init name columns primary_key unique_columns) ops in
  i <> j -> Table.rows tbl !! i = Some ri -> Table.rows tbl !! j = Some rj ->
  exists vi vj, ri !! c = Some vi /\ rj !! c = Some vj /\ py_eq vi vj = false.
Proof.
  intros Hno Hc tbl Hij Hi Hj.
  destruct (run_synced (Table.init name columns primary_key unique_columns) ops
              (init_synced _ _ _ _)) as [[_ [Sp Su]] (_ & _ & Hpk & Hu)].
  { simpl. eapply Forall_impl; [exact Hno |].
    intros [ch | sv w] Hop; simpl in *; [exact I |].
    intros c' Hc'. destruct (Hop c' Hc') as [Hne Hnin]. split; [exact Hne |].
    rewrite elem_of_remove_dups. exact Hnin. }
  fold tbl in Sp, Su, Hpk, Hu. simpl in Hpk, Hu. rewrite Hpk, Hu in *.
  destruct Hc as [-> | Hc].
  - eapply indexed_pairwise; eassumption.
  - destruct (Su c) as (d & _ & Hd); [apply elem_of_remove_dups, Hc |].
    eapply indexed_pairwise; eassumption.
Qed.

(** ** What an update writes *)

Lemma update_rows_map tbl set_values w (pre rs : list row) :
  Forall (converts tbl) set_values ->
  Table.update_rows tbl set_values (find_matching w rs (length pre)) (pre ++ rs)
  = (pre ++ map (updated tbl set_values w) rs, None).
Proof.
  intros Hc. revert pre. induction rs as [| r rs IH]; intros pre; simpl;
    [reflexivity |].
  unfold updated at 1.
  destruct (row_matches w r) eqn:Hm; simpl.
  - rewrite list_lookup_middle by reflexivity.
    destruct (set_columns_converts tbl set_values r Hc) as [r' Hr']. rewrite Hr'.
    simpl. rewrite insert_app_r_alt by lia. rewrite Nat.sub_diag. simpl.
    specialize (IH (pre ++ [r'])). rewrite length_app, Nat.add_1_r in IH.
    rewrite <- !app_assoc in IH. exact IH.
  - specialize (IH (pre ++ [r])). rewrite length_app, Nat.add_1_r in IH.
    rewrite <- !app_assoc in IH. exact IH.
Qed.

Lemma update_all_convert tbl set_values w :
  Forall (converts tbl) set_values ->
  Table.update tbl set_values (Some w)
  = (Table.with_storage tbl (map (updated tbl set_values w) (Table.rows tbl))
       (Table.primary_index tbl) (Table.unique_indexes tbl),
     Returned (status true
       ("Updated " +:+ str_of_nat (matched w (Table.rows tbl)) +:+ " row(s)"))).
Proof.
  intros Hc. unfold Table.update.
  pose proof (update_rows_map tbl set_values w [] (Table.rows tbl) Hc) as E.
  simpl in E. rewrite <- (find_matching_length w (Table.rows tbl) 0).
  destruct (find_matching w (Table.rows tbl) 0) as [| i rest] eqn:Hf.
  - simpl in E. injection E as E. rewrite <- E. destruct tbl; reflexivity.
  - rewrite E. reflexivity.
Qed.

(** X8.  When every assignment converts, an update with a WHERE predicate
    rewrites exactly the rows that match: in the table it leaves, the row
    at the place of a matching row has every assigned column of the table
    at its converted value and the other columns as before, the row at the
    place of a row that does not match is that row, no row is added,
    removed or moved, the indexes and the schema are as they were, and the
    count reported is the number of matching rows. *)
Theorem update_rewrites_the_matching_rows tbl set_values w :
  Forall (converts tbl) set_values ->
  NoDup (map fst set_values) ->
  exists tbl',
    Table.update tbl set_values (Some w)
    = (tbl', Returned (status true
         ("Updated " +:+ str_of_nat (matched w (Table.rows tbl)) +:+ " row(s)")))
    /\ length (Table.rows tbl') = length (Table.rows tbl)
    /\ Table.primary_index tbl' = Table.primary_index tbl
    /\ Table.unique_indexes tbl' = Table.unique_indexes tbl
    /\ same_schema tbl' tbl
    /\ forall i (r : row),
         Table.rows tbl !! i = Some r ->
         exists r' : row,
           Table.rows tbl' !! i = Some r'
           /\ (row_matches w r = false -> r' = r)
           /\ (row_matches w r = true ->
               (forall c v, (c, v) ∈ set_values -> c ∈ Table.column_names tbl ->
                  exists ty x, Table.column_types tbl !! c = Some ty
                               /\ convert_value v ty = Converted x
                               /\ r' !! c = Some x)
               /\ (forall c, c ∉ map fst set_values \/ c ∉ Table.column_names tbl ->
                     r' !! c = r !! c)).
Proof.
  intros Hc Hnd. eexists. split; [apply update_all_convert, Hc |].
  simpl. split; [apply length_map |].
  split; [reflexivity |]. split; [reflexivity |]. split; [repeat split |].
  intros i r Hi. exists (updated tbl set_values w r). split.
  { rewrite map_fmap, list_lookup_fmap, Hi. reflexivity. }
  unfold updated. split; [intros ->; reflexivity |].
  intros ->. destruct (set_columns_converts tbl set_values r Hc) as [r' Hr'].
  rewrite Hr'. simpl. split.
  - intros c v Hin Hcol. exact (set_columns_applied _ _ _ _ Hr' Hnd c v Hin Hcol).
  - intros c Hout. exact (set_columns_frame _ _ _ _ _ c Hr' Hout).
Qed.

(** X9.  An update writes no index: on a table whose indexes are in step
    with the rows, after the primary key of a row is set to a value the
    index does not hold, a select on the new key finds nothing, and a
    select on the old key returns the row with its new key. *)
Theorem update_of_key_leaves_index_stale tbl i (r : row) k v ty x :
  table_synced tbl ->
  Table.primary_key tbl ∈ Table.column_names tbl ->
  Table.rows tbl !! i = Some r ->
  r !! Table.primary_key tbl = Some k ->
  Table.column_types tbl !! Table.primary_key tbl = Some ty ->
  convert_value v ty = Converted x ->
  dict_mem x (Table.primary_index tbl) = false ->
  let pk := Table.primary_key tbl in
  let tbl' := fst (Table.update tbl [(pk, v)] (Some (Where pk k))) in
  Table.rows tbl' !! i = Some (<[pk := x]> r)
  /\ Table.select tbl' ["*"] (Some (Where pk x))
     = Returned (Result true "Selected 0 row(s)" (Some (Table.column_names tbl))
                   (Some []))
  /\ Table.select tbl' ["*"] (Some (Where pk k))
     = Returned (Result true "Selected 1 row(s)" (Some (Table.column_names tbl))
                   (Some [project (Table.column_names tbl) (<[pk := x]> r)])).
Proof.
  intros S Hcol Hi Hk Hty Hx Hfresh pk tbl'.
  assert (Conv : Forall (converts tbl) [(pk, v)]).
  { constructor; [| constructor]. intros _. exists ty, x. split; assumption. }
  assert (E : tbl' = Table.with_storage tbl
                       (map (updated tbl [(pk, v)] (Where pk k)) (Table.rows tbl))
                       (Table.primary_index tbl) (Table.unique_indexes tbl)).
  { unfold tbl'. rewrite (update_all_convert tbl _ _ Conv). reflexivity. }
  assert (Hrow : updated tbl [(pk, v)] (Where pk k) r = <[pk := x]> r).
  { unfold updated, row_matches. simpl. fold pk in Hk. rewrite Hk, py_eq_refl.
    rewrite bool_decide_eq_true_2 by exact Hcol.
    fold pk in Hty. rewrite Hty, Hx. reflexivity. }
  assert (Hi' : Table.rows tbl' !! i = Some (<[pk := x]> r)).
  { rewrite E. simpl. rewrite map_fmap, list_lookup_fmap, Hi. simpl.
    rewrite Hrow. reflexivity. }
  split; [exact Hi' |].
  assert (Hpk' : Table.primary_key tbl' = pk) by (rewrite E; reflexivity).
  assert (Hidx : Table.primary_index tbl' = Table.primary_index tbl)
    by (rewrite E; reflexivity).
  assert (Hcols : Table.column_names tbl' = Table.column_names tbl)
    by (rewrite E; reflexivity).
  unfold Table.select. cbn [Table.all_columns where_col where_val].
  rewrite Hpk', String.eqb_refl, Hidx, Hcols. simpl. split.
  - unfold dict_mem in Hfresh.
    destruct (dict_get (Table.primary_index tbl) x); [discriminate | reflexivity].
  - destruct S as [_ [Sp _]].
    destruct (no_missing_entry _ _ _ (indexed_exact _ _ _ Sp) i r Hi)
      as (k' & Hk' & Hg).
    rewrite Hk in Hk'. injection Hk' as <-.
    rewrite Hg, Hi'. reflexivity.
Qed.

End update_index_facts.

(** ** What an insert stores and what it refuses *)

Section insert_facts_2.
Context `{FloatText}.

Lemma build_row_cells cols values (r0 r : row) :
  NoDup (map fst cols) -> length values = length cols ->
  Table.build_row cols values r0 = Table.Built r ->
  Forall2 (fun (col : string * string) v =>
             exists x, convert_value v (snd col) = Converted x
                       /\ r !! fst col = Some x) cols values.
Proof.
  revert values r0. induction cols as [| [cn ct] cols IH]; intros values r0 Nd L E;
    destruct values as [| v values]; try discriminate; simpl in E.
  - constructor.
  - destruct (convert_value v ct) as [x | |] eqn:Hx; try discriminate.
    simpl in Nd. apply NoDup_cons in Nd as [Hfresh Nd].
    constructor.
    + exists x. split; [exact Hx |]. simpl.
      rewrite (build_row_frame _ _ _ _ cn E Hfresh). apply lookup_insert_eq.
    + eapply IH; [exact Nd | | exact E]. simpl in L. lia.
Qed.

(** X10.  A successful insert appends one row and changes no other: with
    column names that are distinct, the new row holds, for each column in
    declared order, the value at the same position converted to the
    column's type, and it has no other entry. *)
Theorem insert_stores_converted_values tbl values tbl' res :
  NoDup (Table.column_names tbl) ->
  Table.insert tbl values = (tbl', Returned res) -> success res = true ->
  exists r : row,
    Table.rows tbl' = Table.rows tbl ++ [r]
    /\ Forall2 (fun (col : string * string) v =>
                  exists x, convert_value v (snd col) = Converted x
                            /\ r !! fst col = Some x)
               (Table.columns tbl) values
    /\ forall c, c ∉ Table.column_names tbl -> r !! c = None.
Proof.
  intros Nd E Hs.
  assert (L : length values = length (Table.columns tbl)).
  { unfold Table.insert in E.
    destruct (length values =? length (Table.columns tbl)) eqn:Hl.
    - apply Nat.eqb_eq, Hl.
    - simpl in E. injection E as _ <-. discriminate Hs. }
  destruct (insert_success tbl values tbl' res E Hs) as (r & pkv & u' & Hb & _ & -> & _).
  exists r. split; [reflexivity |]. split.
  - eapply build_row_cells; eassumption.
  - intros c Hc. rewrite (build_row_frame _ _ _ _ c Hb Hc). apply lookup_empty.
Qed.

(** X11.  While the indexes are in step with the rows, an insert whose
    row would carry a primary-key value equal (under [==]) to that of a
    stored row is refused with the primary-key violation, which prints the
    value, and the table is left as it was; the value, when an integer, is
    within the digits the runtime prints. *)
Theorem insert_rejects_equal_key tbl values (r r0 : row) v v0 :
  table_synced tbl ->
  length values = length (Table.columns tbl) ->
  Table.build_row (Table.columns tbl) values ∅ = Table.Built r ->
  r !! Table.primary_key tbl = Some v ->
  prints v ->
  r0 ∈ Table.rows tbl ->
  r0 !! Table.primary_key tbl = Some v0 ->
  py_eq v0 v = true ->
  Table.insert tbl values
  = (tbl, Returned (status false
            ("Primary key violation: '" +:+ str v +:+ "' already exists"))).
Proof.
  intros [_ [Sp _]] L Hb Hv _ Hin Hv0 Heq.
  apply list_elem_of_lookup in Hin as [i Hi].
  destruct (no_missing_entry _ _ _ (indexed_exact _ _ _ Sp) i r0 Hi) as (k & Hk & Hg).
  rewrite Hv0 in Hk. injection Hk as <-.
  rewrite (dict_get_proper _ _ _ Heq) in Hg.
  unfold Table.insert. rewrite L, Nat.eqb_refl. simpl.
  rewrite Hb, Hv. unfold dict_mem. rewrite Hg. reflexivity.
Qed.

End insert_facts_2.

(** ** The value layer *)

Section value_layer.
Context `{FloatText}.

(** X13.  What [convert_value] returns passes [validate_type] at the same
    type, and converting it again returns it unchanged. *)
Theorem converted_value_is_settled v ty x :
  convert_value v ty = Converted x ->
  validate_type x ty = true /\ convert_value x ty = Converted x.
Proof.
  intros E. split; [eapply convert_validates | eapply convert_again]; exact E.
Qed.

(** [validate_type] accepts the instances of the type that
    [get_python_type] names for the same type name and, for a float type,
    the integers as well; nothing else. *)
Theorem validate_type_follows_python_type v ty :
  validate_type v ty
  = isinstance v (get_python_type ty)
    || (match get_python_type ty with PyFloat => isinstance v PyInt | _ => false end).
Proof.
  unfold validate_type, get_python_type.
  destruct (String.eqb (upper ty) "INT"); [destruct v; reflexivity |].
  destruct (existsb _ text_types); [destruct v; reflexivity |].
  destruct (existsb _ float_types); destruct v; reflexivity.
Qed.

Lemma log2_small a : (0 < a < 2 ^ 53)%Z -> (Z.log2 a + 1 <=? 53)%Z = true.
Proof.
  intros [Hpos Hlt]. apply Z.leb_le.
  apply Z.log2_lt_pow2 in Hlt; [lia | exact Hpos].
Qed.

(** X14.  An integer of magnitude below 2^53 that goes into a FLOAT column
    is stored as a float that is equal to it under [==] and that converts
    back to the same integer. *)
Theorem small_integer_survives_float_column z :
  (Z.abs z < 2 ^ 53)%Z ->
  exists f, convert_value (VInt z) "FLOAT" = Converted (VFloat f)
            /\ py_eq (VFloat f) (VInt z) = true
            /\ convert_value (VFloat f) "INT" = Converted (VInt z).
Proof.
  intros Hz. unfold convert_value. cbn [upper existsb String.eqb].
  change (String.eqb (upper "FLOAT") "INT") with false.
  change (existsb (String.eqb (upper "FLOAT")) text_types) with false.
  change (existsb (String.eqb (upper "FLOAT")) float_types) with true.
  change (String.eqb (upper "INT") "INT") with true.
  cbv iota. unfold float_of_int.
  destruct (Z.eqb_spec z 0) as [-> | Hnz].
  - exists (FZero false). repeat split; reflexivity.
  - rewrite log2_small by lia.
    exists (FFinite (z <? 0)%Z (Z.to_pos (Z.abs z)) 0).
    assert (Hs : signed (z <? 0)%Z (Z.to_pos (Z.abs z)) = z).
    { unfold signed. destruct (Z.ltb_spec z 0).
      - rewrite <- Pos2Z.opp_pos, Z2Pos.id by lia. lia.
      - rewrite Z2Pos.id by lia. lia. }
    split; [reflexivity |]. split.
    + simpl. rewrite Hs. apply dyadic_eqb_refl.
    + simpl. rewrite Hs. f_equal. f_equal. lia.
Qed.

End value_layer.

(** ** Databases *)

Section database_facts.
Context `{FloatText}.

Lemma remove_rows_schema idxs tbl :
  same_schema (fst (Table.remove_rows tbl idxs)) tbl.
Proof.
  revert tbl. induction idxs as [| idx idxs IH]; intros tbl; simpl;
    [repeat split |].
  destruct (Table.rows tbl !! idx) as [r |]; [| repeat split].
  destruct (r !! Table.primary_key tbl); [| repeat split].
  destruct (Table.unindex_unique _ _ _) as [u' [e |]]; [repeat split |].
  match goal with |- context [Table.remove_rows ?t idxs] =>
    destruct (IH t) as (? & ? & ? & ?) end.
  repeat split; assumption.
Qed.

Lemma rebuild_indexes_schema tbl :
  same_schema (fst (Table._rebuild_indexes tbl)) tbl.
Proof.
  unfold Table._rebuild_indexes.
  destruct (Table.clear_unique _ _) as [u [e |]]; [repeat split |].
  destruct (Table.rebuild_rows _ _ _ _ _ _) as [[p u'] e]. repeat split.
Qed.

Lemma apply_operation_schema tbl op : same_schema (apply_operation tbl op) tbl.
Proof.
  destruct op as [[values | where_] | set_values where_]; simpl.
  - apply insert_schema.
  - unfold Table.delete. destruct where_ as [w |]; [| repeat split].
    destruct (find_matching w (Table.rows tbl) 0) as [| i rest]; [repeat split |].
    pose proof (remove_rows_schema (Table.sorted_reverse (i :: rest)) tbl)
      as (? & ? & ? & ?).
    destruct (Table.remove_rows tbl _) as [tbl1 [e |]]; [repeat split; assumption |].
    pose proof (rebuild_indexes_schema tbl1) as (? & ? & ? & ?).
    destruct (Table._rebuild_indexes tbl1) as [tbl2 [e |]]; simpl in *;
      repeat split; congruence.
  - destruct (update_shape tbl set_values where_) as (rows' & -> & _).
    repeat split.
Qed.

Lemma run_snoc tbl ops op : run tbl (ops ++ [op]) = apply_operation (run tbl ops) op.
Proof. unfold run. rewrite fold_left_app. reflexivity. Qed.

(** One statement: a table that was there stays, changed by at most one
    operation; a table that appears was just made by [Table.__init__] with
    a primary key among its columns. *)
Lemma route_step tables s n t' :
  fst (SimpleDB.route tables s) !! n = Some t' ->
  (exists t, tables !! n = Some t /\ (t' = t \/ exists op, t' = apply_operation t op))
  \/ (tables !! n = None
      /\ exists columns primary_key unique_columns,
           t' = Table.init n columns primary_key unique_columns
           /\ primary_key ∈ map fst columns).
Proof.
  assert (Keep : forall tables' : gmap string Table.t, tables' = tables ->
            tables' !! n = Some t' ->
            exists t, tables !! n = Some t
                      /\ (t' = t \/ exists op, t' = apply_operation t op)).
  { intros ? -> Hn. exists t'. split; [exact Hn | left; reflexivity]. }
  assert (Change1 : forall table_name t op,
            tables !! table_name = Some t ->
            <[table_name := apply_operation t op]> tables !! n = Some t' ->
            exists t0, tables !! n = Some t0
                       /\ (t' = t0 \/ exists op, t' = apply_operation t0 op)).
  { intros table_name t op Ht Hn. destruct (decide (table_name = n)) as [-> | Hne].
    - rewrite lookup_insert_eq in Hn. injection Hn as <-.
      exists t. split; [exact Ht |]. right. exists op. reflexivity.
    - rewrite lookup_insert_ne in Hn by exact Hne.
      exists t'. split; [exact Hn | left; reflexivity]. }
  destruct s as [table_name columns primary_key unique_columns | table_name values
                | table_name cols where_ | parsed | table_name set_values where_
                | table_name where_]; simpl.
  - unfold SimpleDB.create_table.
    destruct (bool_decide (is_Some (tables !! table_name))) eqn:Hex;
      [intros Hn; left; eapply Keep; [reflexivity | exact Hn] |].
    destruct (bool_decide (primary_key ∈ map fst columns)) eqn:Hpk; simpl;
      [| intros Hn; left; eapply Keep; [reflexivity | exact Hn]].
    apply bool_decide_eq_false_1 in Hex. apply bool_decide_eq_true_1 in Hpk.
    intros Hn. destruct (decide (table_name = n)) as [-> | Hne].
    + rewrite lookup_insert_eq in Hn. injection Hn as <-. right.
      split; [destruct (tables !! n); [exfalso; apply Hex; eauto | reflexivity] |].
      exists columns, primary_key, unique_columns. split; [reflexivity | exact Hpk].
    + rewrite lookup_insert_ne in Hn by exact Hne.
      left. eapply Keep; [reflexivity | exact Hn].
  - unfold SimpleDB._handle_insert, SimpleDB.get_table.
    destruct (tables !! table_name) as [t |] eqn:Ht;
      [| intros Hn; left; eapply Keep; [reflexivity | exact Hn]].
    pose proof (Change1 table_name t (Change (Insert values)) Ht) as C. simpl in C.
    destruct (Table.insert t values) as [t1 out]. intros Hn. left. apply C, Hn.
  - intros Hn. left. eapply Keep; [reflexivity | exact Hn].
  - intros Hn. left. eapply Keep; [reflexivity | exact Hn].
  - unfold SimpleDB._handle_update, SimpleDB.get_table.
    destruct (tables !! table_name) as [t |] eqn:Ht;
      [| intros Hn; left; eapply Keep; [reflexivity | exact Hn]].
    pose proof (Change1 table_name t (Update set_values where_) Ht) as C. simpl in C.
    destruct (Table.update t set_values where_) as [t1 out]. intros Hn. left.
    apply C, Hn.
  - unfold SimpleDB._handle_delete, SimpleDB.get_table.
    destruct (tables !! table_name) as [t |] eqn:Ht;
      [| intros Hn; left; eapply Keep; [reflexivity | exact Hn]].
    pose proof (Change1 table_name t (Change (Delete where_)) Ht) as C. simpl in C.
    destruct (Table.delete t where_) as [t1 out]. intros Hn. left. apply C, Hn.
Qed.

Lemma run_statements_snoc tables stmts s :
  run_statements tables (stmts ++ [s])
  = fst (SimpleDB.route (run_statements tables stmts) s).
Proof. unfold run_statements. rewrite fold_left_app. reflexivity. Qed.

(** X16.  Every table of a database that started empty is a table made by
    [Table.__init__] under the name it is stored at, with a primary key
    that is one of its columns, and changed by inserts, updates and deletes
    only: what holds of every such table holds of every table any sequence
    of statements can leave. *)
Theorem database_tables_are_reachable (stmts : list SimpleDB.statement) n t :
  run_statements ∅ stmts !! n = Some t ->
  exists columns primary_key unique_columns (ops : list operation),
    t = run (Table.init n columns primary_key unique_columns) ops
    /\ primary_key ∈ map fst columns
    /\ Table.name t = n.
Proof.
  revert n t. induction stmts as [| s stmts IH] using rev_ind; intros n t Hn.
  - unfold run_statements in Hn. simpl in Hn. rewrite lookup_empty in Hn. discriminate.
  - rewrite run_statements_snoc in Hn.
    destruct (route_step _ _ _ _ Hn)
      as [(t0 & Ht0 & Hstep) | (_ & columns & pk & ucols & -> & Hpk)].
    + destruct (IH _ _ Ht0) as (columns & pk & ucols & ops & -> & Hpk & Hname).
      destruct Hstep as [-> | [op ->]].
      * exists columns, pk, ucols, ops. auto.
      * exists columns, pk, ucols, (ops ++ [op]).
        split; [symmetry; apply run_snoc |]. split; [exact Hpk |].
        rewrite <- Hname at 2. apply apply_operation_schema.
    + exists columns, pk, ucols, []. split; [reflexivity |]. split; [exact Hpk |].
      reflexivity.
Qed.

Lemma route_keeps tables s n t :
  tables !! n = Some t ->
  exists t', fst (SimpleDB.route tables s) !! n = Some t' /\ same_schema t' t.
Proof.
  intros Hn.
  assert (Same : exists t', tables !! n = Some t' /\ same_schema t' t).
  { exists t. split; [exact Hn | repeat split]. }
  assert (Change1 : forall table_name t0 op,
            tables !! table_name = Some t0 ->
            exists t', <[table_name := apply_operation t0 op]> tables !! n = Some t'
                       /\ same_schema t' t).
  { intros table_name t0 op Ht0. destruct (decide (table_name = n)) as [-> | Hne].
    - rewrite lookup_insert_eq. eexists. split; [reflexivity |].
      rewrite Hn in Ht0. injection Ht0 as <-. apply apply_operation_schema.
    - rewrite lookup_insert_ne by exact Hne. exact Same. }
  destruct s as [table_name columns primary_key unique_columns | table_name values
                | table_name cols where_ | parsed | table_name set_values where_
                | table_name where_]; simpl; try exact Same.
  - unfold SimpleDB.create_table.
    destruct (bool_decide (is_Some (tables !! table_name))) eqn:Hex; [exact Same |].
    destruct (negb _); [exact Same |]. simpl.
    apply bool_decide_eq_false_1 in Hex.
    rewrite lookup_insert_ne; [exact Same |].
    intros ->. apply Hex. eauto.
  - unfold SimpleDB._handle_insert, SimpleDB.get_table.
    destruct (tables !! table_name) as [t0 |] eqn:Ht0; [| exact Same].
    pose proof (Change1 table_name t0 (Change (Insert values)) Ht0) as C. simpl in C.
    destruct (Table.insert t0 values) as [t1 out]. exact C.
  - unfold SimpleDB._handle_update, SimpleDB.get_table.
    destruct (tables !! table_name) as [t0 |] eqn:Ht0; [| exact Same].
    pose proof (Change1 table_name t0 (Update set_values where_) Ht0) as C. simpl in C.
    destruct (Table.update t0 set_values where_) as [t1 out]. exact C.
  - unfold SimpleDB._handle_delete, SimpleDB.get_table.
    destruct (tables !! table_name) as [t0 |] eqn:Ht0; [| exact Same].
    pose proof (Change1 table_name t0 (Change (Delete where_)) Ht0) as C. simpl in C.
    destruct (Table.delete t0 where_) as [t1 out]. exact C.
Qed.

(** X17.  No statement removes a table or redefines it: a table of the
    database is still there after any sequence of statements, under the
    same name and with the same columns, primary key and unique columns; a
    CREATE TABLE on its name changes nothing. *)
Theorem tables_persist_with_their_schema tables (stmts : list SimpleDB.statement) n t :
  tables !! n = Some t ->
  (exists t', run_statements tables stmts !! n = Some t' /\ same_schema t' t)
  /\ forall columns primary_key unique_columns,
       SimpleDB.route tables (SimpleDB.CREATE_TABLE n columns primary_key unique_columns)
       = (tables, Returned (status false ("Table '" +:+ n +:+ "' already exists"))).
Proof.
  intros Hn. split.
  - revert tables t Hn. induction stmts as [| s stmts IH]; intros tables t Hn.
    + exists t. split; [exact Hn | repeat split].
    + destruct (route_keeps tables s n t Hn) as (t1 & Ht1 & (? & ? & ? & ?)).
      destruct (IH _ _ Ht1) as (t2 & Ht2 & (? & ? & ? & ?)).
      exists t2. split; [exact Ht2 |]. repeat split; congruence.
  - intros columns primary_key unique_columns. simpl. unfold SimpleDB.create_table.
    rewrite bool_decide_eq_true_2 by eauto. reflexivity.
Qed.

(** A statement changes at most the table it names: every other
    table of the database is left as it was, and a SELECT, with or without
    a join, leaves all of them. *)
Theorem statement_changes_only_its_table tables (s : SimpleDB.statement) m :
  statement_table s <> Some m ->
  fst (SimpleDB.route tables s) !! m = tables !! m.
Proof.
  intros Hm.
  destruct s as [table_name columns primary_key unique_columns | table_name values
                | table_name cols where_ | parsed | table_name set_values where_
                | table_name where_]; simpl in *; try reflexivity.
  - unfold SimpleDB.create_table.
    destruct (bool_decide _); [reflexivity |].
    destruct (negb _); [reflexivity |]. simpl.
    apply lookup_insert_ne. congruence.
  - unfold SimpleDB._handle_insert.
    destruct (SimpleDB.get_table tables table_name) as [t |]; [| reflexivity].
    destruct (Table.insert t values) as [t1 out]. simpl.
    apply lookup_insert_ne. congruence.
  - unfold SimpleDB._handle_update.
    destruct (SimpleDB.get_table tables table_name) as [t |]; [| reflexivity].
    destruct (Table.update t set_values where_) as [t1 out]. simpl.
    apply lookup_insert_ne. congruence.
  - unfold SimpleDB._handle_delete.
    destruct (SimpleDB.get_table tables table_name) as [t |]; [| reflexivity].
    destruct (Table.delete t where_) as [t1 out]. simpl.
    apply lookup_insert_ne. congruence.
Qed.

End database_facts.

(** ** The rows of a join *)

Section join_rows.

Lemma prefixed_inj table c1 c2 :
  SimpleDB.prefixed table c1 = SimpleDB.prefixed table c2 -> c1 = c2.
Proof.
  unfold SimpleDB.prefixed. induction table as [| a table IH]; simpl; intros E.
  - injection E as E. exact E.
  - injection E as E. apply IH, E.
Qed.

Lemma prefixed_table_inj t1 t2 c1 c2 :
  identifier t1 -> identifier t2 ->
  SimpleDB.prefixed t1 c1 = SimpleDB.prefixed t2 c2 -> t1 = t2.
Proof.
  unfold SimpleDB.prefixed, identifier. revert t2.
  induction t1 as [| a t1 IH]; intros [| b t2] I1 I2 E; simpl in *.
  - reflexivity.
  - injection E as <- _. inversion I2 as [| ? ? Hw _]; subst. discriminate Hw.
  - injection E as -> _. inversion I1 as [| ? ? Hw _]; subst. discriminate Hw.
  - injection E as -> E. f_equal. inversion I1; inversion I2; subst.
    eapply IH; eassumption.
Qed.

Lemma add_prefixed_lookup table cols (r merged m : row) :
  SimpleDB.add_prefixed table cols r merged = Some m ->
  (forall c, c ∈ cols -> m !! SimpleDB.prefixed table c = r !! c)
  /\ (forall k, (forall c, c ∈ cols -> k <> SimpleDB.prefixed table c) ->
        m !! k = merged !! k).
Proof.
  revert merged. induction cols as [| col cols IH]; intros merged E; simpl in E.
  - injection E as <-. split; [intros c Hc; inversion Hc | reflexivity].
  - destruct (r !! col) as [v |] eqn:Hv; [| discriminate].
    destruct (IH _ E) as [In Out]. split.
    + intros c Hc. destruct (decide (c ∈ cols)) as [Hin | Hnin]; [apply In, Hin |].
      apply elem_of_cons in Hc as [-> | Hc]; [| contradiction].
      rewrite Out.
      * rewrite lookup_insert_eq. symmetry. exact Hv.
      * intros c Hc E'. apply prefixed_inj in E'. subst c. contradiction.
    + intros k Hk. rewrite Out.
      * apply lookup_insert_ne. intros E'. eapply Hk; [left | symmetry; exact E'].
      * intros c Hc. apply Hk. right. exact Hc.
Qed.

Lemma merged_cells q l r (p : row * row) (m : row) :
  identifier (SimpleDB.left_table q) -> identifier (SimpleDB.right_table q) ->
  SimpleDB.left_table q <> SimpleDB.right_table q ->
  SimpleDB.merge_rows q l r (fst p) (snd p) = Some m ->
  project (map (SimpleDB.prefixed (SimpleDB.left_table q)) (Table.column_names l)
           ++ map (SimpleDB.prefixed (SimpleDB.right_table q)) (Table.column_names r))
          m
  = joined_cells l r p.
Proof.
  intros Il Ir Hne E. unfold SimpleDB.merge_rows in E.
  destruct (SimpleDB.add_prefixed (SimpleDB.left_table q) _ (fst p) ∅) as [m0 |] eqn:E0;
    [| discriminate].
  destruct (add_prefixed_lookup _ _ _ _ _ E0) as [In0 _].
  destruct (add_prefixed_lookup _ _ _ _ _ E) as [In1 Out1].
  unfold joined_cells, project. rewrite map_app, !map_map. f_equal.
  - apply map_ext_in. intros c Hc. apply list_elem_of_In in Hc.
    rewrite Out1; [apply In0, Hc |].
    intros c' _ E'. apply Hne. eapply prefixed_table_inj; eassumption.
  - apply map_ext_in. intros c Hc. apply list_elem_of_In in Hc. apply In1, Hc.
Qed.

Lemma join_inner_rows q l r (left_row : row) left_val right_rows joined :
  (forall c, c ∈ Table.column_names l -> is_Some (left_row !! c)) ->
  Forall (fun rr : row => forall c, c ∈ Table.column_names r -> is_Some (rr !! c))
         right_rows ->
  SimpleDB.right_column (SimpleDB.sj_condition q) ∈ Table.column_names r ->
  left_row !! SimpleDB.left_column (SimpleDB.sj_condition q) = Some left_val ->
  exists new,
    SimpleDB.join_inner q l r left_row left_val right_rows joined
    = Returned (joined ++ new)
    /\ Forall2 (fun (m : row) (p : row * row) =>
                  SimpleDB.merge_rows q l r (fst p) (snd p) = Some m)
         new
         (List.filter
            (pair_matches py_eq (SimpleDB.left_column (SimpleDB.sj_condition q))
                          (SimpleDB.right_column (SimpleDB.sj_condition q)))
            (map (pair left_row) right_rows)).
Proof.
  intros Hl Hr Hc Hv. revert joined.
  induction Hr as [| rr right_rows Hrr _ IH]; intros joined; simpl.
  - exists []. rewrite app_nil_r. split; [reflexivity | constructor].
  - destruct (Hrr _ Hc) as [right_val Hrv]. rewrite Hrv.
    unfold pair_matches at 1. simpl. rewrite Hv, Hrv.
    destruct (py_eq left_val right_val).
    + destruct (merge_rows_some q l r left_row rr Hl Hrr) as [m Hm]. rewrite Hm.
      destruct (IH (joined ++ [m])) as (new & E & L).
      exists (m :: new). rewrite E, <- app_assoc. simpl.
      split; [reflexivity | constructor; [exact Hm | exact L]].
    + apply IH.
Qed.

Lemma join_outer_rows q l r left_rows joined :
  Forall (fun lr : row => forall c, c ∈ Table.column_names l -> is_Some (lr !! c))
         left_rows ->
  complete r ->
  SimpleDB.left_column (SimpleDB.sj_condition q) ∈ Table.column_names l ->
  SimpleDB.right_column (SimpleDB.sj_condition q) ∈ Table.column_names r ->
  exists new,
    SimpleDB.join_outer q l r left_rows joined = Returned (joined ++ new)
    /\ Forall2 (fun (m : row) (p : row * row) =>
                  SimpleDB.merge_rows q l r (fst p) (snd p) = Some m)
         new
         (List.filter
            (pair_matches py_eq (SimpleDB.left_column (SimpleDB.sj_condition q))
                          (SimpleDB.right_column (SimpleDB.sj_condition q)))
            (list_prod left_rows (Table.rows r))).
Proof.
  intros Hl Hr Hlc Hrc. revert joined.
  induction Hl as [| lr left_rows Hlr _ IH]; intros joined; simpl.
  - exists []. rewrite app_nil_r. split; [reflexivity | constructor].
  - destruct (Hlr _ Hlc) as [left_val Hv]. rewrite Hv.
    destruct (join_inner_rows q l r lr left_val (Table.rows r) joined Hlr Hr Hrc Hv)
      as (new1 & E1 & L1).
    rewrite E1.
    destruct (IH (joined ++ new1)) as (new2 & E2 & L2).
    exists (new1 ++ new2). rewrite E2, app_assoc. split; [reflexivity |].
    rewrite List.filter_app. apply Forall2_app; assumption.
Qed.

(** X18.  The rows of a join.  For two tables with different names made
    of word characters and a query for all columns without a WHERE
    predicate, the data of the result is, for each left row in order and
    each right row in order whose join-column values are equal under [==],
    the cells of the left row in the left table's column order followed by
    those of the right row. *)
Theorem join_rows_are_the_matching_pairs tables q l r :
  SimpleDB.get_table tables (SimpleDB.left_table q) = Some l ->
  SimpleDB.get_table tables (SimpleDB.right_table q) = Some r ->
  SimpleDB.left_column (SimpleDB.sj_condition q) ∈ Table.column_names l ->
  SimpleDB.right_column (SimpleDB.sj_condition q) ∈ Table.column_names r ->
  complete l -> complete r ->
  identifier (SimpleDB.left_table q) -> identifier (SimpleDB.right_table q) ->
  SimpleDB.left_table q <> SimpleDB.right_table q ->
  SimpleDB.sj_columns q = ["*"] ->
  SimpleDB.sj_where q = None ->
  let pairs :=
    List.filter
      (pair_matches py_eq (SimpleDB.left_column (SimpleDB.sj_condition q))
                    (SimpleDB.right_column (SimpleDB.sj_condition q)))
      (list_prod (Table.rows l) (Table.rows r)) in
  SimpleDB._handle_select_join tables q
  = Returned (Result true
      ("Selected " +:+ str_of_nat (length pairs) +:+ " row(s) from JOIN")
      (Some (map (SimpleDB.prefixed (SimpleDB.left_table q)) (Table.column_names l)
             ++ map (SimpleDB.prefixed (SimpleDB.right_table q))
                    (Table.column_names r)))
      (Some (map (joined_cells l r) pairs))).
Proof.
  intros Hl Hr Hlc Hrc Cl Cr Il Ir Hne Hstar Hw pairs.
  unfold SimpleDB._handle_select_join.
  rewrite Hl, Hr, Hw, Hstar.
  rewrite (bool_decide_eq_true_2 _ Hlc), (bool_decide_eq_true_2 _ Hrc). simpl.
  destruct (join_outer_rows q l r (Table.rows l) [] Cl Cr Hlc Hrc) as (new & E & L).
  rewrite E. simpl. fold pairs in L.
  assert (D : map (project
                (map (SimpleDB.prefixed (SimpleDB.left_table q)) (Table.column_names l)
                 ++ map (SimpleDB.prefixed (SimpleDB.right_table q))
                        (Table.column_names r))) new
              = map (joined_cells l r) pairs).
  { clear E. induction L as [| m p new ps Hm _ IH]; simpl; [reflexivity |].
    rewrite IH. f_equal. eapply merged_cells; eassumption. }
  rewrite D, !length_map. reflexivity.
Qed.

End join_rows.

(** ** Literals, value lists and WHERE clauses *)

Section literal_facts.
Context `{FloatText}.

Lemma rstrip_last a x : is_space x = false -> rstrip_chars (a ++ [x]) = a ++ [x].
Proof.
  intros Hx. induction a as [| c a IH]; simpl.
  - rewrite Hx. reflexivity.
  - rewrite IH. destruct a; reflexivity.
Qed.

Lemma strip_quoted q s :
  is_quote q = true ->
  strip (string_of_list_ascii (q :: s ++ [q])) = string_of_list_ascii (q :: s ++ [q]).
Proof.
  intros Hq. unfold strip, strip_chars. rewrite list_ascii_of_string_of_list_ascii.
  assert (Sq : is_space q = false).
  { unfold is_quote in Hq. apply orb_true_iff in Hq as [Hq | Hq];
      apply Ascii.eqb_eq in Hq; subst q; reflexivity. }
  simpl lstrip_chars. rewrite Sq.
  change (q :: s ++ [q]) with ((q :: s) ++ [q]). rewrite rstrip_last by exact Sq.
  reflexivity.
Qed.

(** X21.  A literal of a WHERE or SET clause that is enclosed in one kind
    of quote parses to the text between the quotes, character for
    character: blanks are kept and digits stay text. *)
Theorem quoted_literal_parses_to_its_text (s : list ascii) :
  _parse_single_value (string_of_list_ascii (squote :: s ++ [squote]))
  = VText (string_of_list_ascii s)
  /\ _parse_single_value (string_of_list_ascii (dquote :: s ++ [dquote]))
     = VText (string_of_list_ascii s).
Proof.
  assert (G : forall q, is_quote q = true ->
            _parse_single_value (string_of_list_ascii (q :: s ++ [q]))
            = VText (string_of_list_ascii s)).
  { intros q Hq. unfold _parse_single_value. rewrite (strip_quoted q s Hq).
    assert (Q : quoted_with (string_of_list_ascii (q :: s ++ [q])) q = true).
    { unfold quoted_with, startswith, endswith.
      rewrite list_ascii_of_string_of_list_ascii.
      change (q :: s ++ [q]) with ((q :: s) ++ [q]). rewrite rev_unit. simpl.
      rewrite Ascii.eqb_refl. reflexivity. }
    assert (Sl : slice_1_m1 (string_of_list_ascii (q :: s ++ [q]))
                 = string_of_list_ascii s).
    { unfold slice_1_m1. rewrite list_ascii_of_string_of_list_ascii. simpl tail.
      rewrite removelast_last. reflexivity. }
    unfold is_quote in Hq. apply orb_true_iff in Hq as [Hq | Hq];
      apply Ascii.eqb_eq in Hq; subst q; rewrite Q, ?orb_true_r, Sl; reflexivity. }
  split; apply G; reflexivity.
Qed.

Lemma append_empty_r (s : string) : s +:+ "" = s.
Proof.
  induction s as [| c s IH]; [reflexivity |].
  change (String c (s +:+ "") = String c s). f_equal. exact IH.
Qed.

Lemma append_assoc (a b c : string) : (a +:+ b) +:+ c = a +:+ (b +:+ c).
Proof.
  induction a as [| x a IH]; [reflexivity |].
  change (String x ((a +:+ b) +:+ c) = String x (a +:+ (b +:+ c))). f_equal. exact IH.
Qed.

Lemma pieces_inside q (s : list ascii) done p :
  is_quote q = true ->
  Forall (fun c => c <> q) s ->
  fold_left piece_char s (Pieces done p true (Some q))
  = Pieces done (p +:+ string_of_list_ascii s) true (Some q).
Proof.
  intros Hq F. revert p. induction F as [| c s Hc _ IH]; intros p; simpl.
  - rewrite append_empty_r. reflexivity.
  - unfold piece_char at 2. simpl.
    rewrite andb_false_r. simpl.
    replace (Ascii.eqb c q) with false by (symmetry; apply Ascii.eqb_neq, Hc).
    simpl. rewrite andb_false_r. rewrite IH. f_equal.
    rewrite append_assoc. reflexivity.
Qed.

(** X22.  In a value list, what stands between a pair of quotes is one
    segment, commas included: a list that is a single quoted item parses to
    one value, or to none when the item is blank. *)
Theorem quoted_commas_do_not_split q (s : list ascii) :
  is_quote q = true ->
  Forall (fun c => c <> q) s ->
  segments (string_of_list_ascii (q :: s ++ [q])) = [string_of_list_ascii s]
  /\ _parse_values (string_of_list_ascii (q :: s ++ [q]))
     = if blank (string_of_list_ascii s) then []
       else [_parse_single_value (strip (string_of_list_ascii s))].
Proof.
  intros Hq F.
  assert (P : split_pieces (string_of_list_ascii (q :: s ++ [q]))
              = Pieces [] (string_of_list_ascii s) false None).
  { unfold split_pieces. rewrite list_ascii_of_string_of_list_ascii. simpl.
    unfold piece_char at 2. simpl. rewrite Hq. simpl.
    rewrite fold_left_app, (pieces_inside q s [] "" Hq F). simpl.
    unfold piece_char. simpl. rewrite andb_false_r. simpl.
    rewrite Ascii.eqb_refl. reflexivity. }
  split.
  - unfold segments. rewrite P. reflexivity.
  - rewrite parse_values_segments. unfold last_segment. rewrite P. reflexivity.
Qed.

Lemma take_while_run {A} (p : A -> bool) a x b :
  Forall (fun c => p c = true) a -> p x = false ->
  take_while p (a ++ x :: b) = a /\ drop_while p (a ++ x :: b) = x :: b.
Proof.
  intros F Hx. induction F as [| c a Hc _ [IH1 IH2]]; simpl.
  - rewrite Hx. split; reflexivity.
  - rewrite Hc, IH1, IH2. split; reflexivity.
Qed.

Lemma take_while_all {A} (p : A -> bool) a :
  Forall (fun c => p c = true) a -> take_while p a = a.
Proof.
  induction 1 as [| c a Hc _ IH]; simpl; [reflexivity |]. rewrite Hc, IH. reflexivity.
Qed.

Lemma lstrip_length l : length (lstrip_chars l) <= length l.
Proof.
  induction l as [| c l IH]; simpl; [lia |]. destruct (is_space c); simpl; lia.
Qed.

Lemma rstrip_length l : length (rstrip_chars l) <= length l.
Proof.
  induction l as [| c l IH]; simpl; [lia |].
  destruct (rstrip_chars l); [destruct (is_space c) |]; simpl in *; lia.
Qed.

(** A text that [strip] leaves as it is begins and ends with a character
    that is no blank. *)
Lemma stripped_ends x l :
  strip_chars (x :: l) = x :: l ->
  is_space x = false /\ rstrip_chars (x :: l) = x :: l.
Proof.
  unfold strip_chars. intros E.
  destruct (is_space x) eqn:Hx.
  - exfalso. simpl in E. rewrite Hx in E.
    pose proof (rstrip_length (lstrip_chars l)) as L1.
    pose proof (lstrip_length l) as L2. rewrite E in L1. simpl in L1. lia.
  - split; [reflexivity |]. simpl in E. rewrite Hx in E. exact E.
Qed.

Lemma rstrip_app a l :
  l <> [] -> rstrip_chars l = l -> rstrip_chars (a ++ l) = a ++ l.
Proof.
  intros Hne E. induction a as [| c a IH]; simpl; [exact E |].
  rewrite IH. destruct (a ++ l) eqn:Hal; [| reflexivity].
  apply app_eq_nil in Hal as [_ ->]. contradiction.
Qed.

(** X23.  A WHERE text of the form column, equals sign, literal, with any
    blanks around the sign, parses to the predicate on that column with the
    literal parsed as a single value; the column is a run of word
    characters and the literal a text on one line that [strip] leaves as it
    is. *)
Theorem where_text_parses column ws1 ws2 x v :
  column <> [] ->
  Forall (fun c => is_word c = true) column ->
  Forall (fun c => is_space c = true) ws1 ->
  Forall (fun c => is_space c = true) ws2 ->
  strip_chars (x :: v) = x :: v ->
  Forall (fun c => not_newline c = true) (x :: v) ->
  _parse_where (string_of_list_ascii (column ++ ws1 ++ "="%char :: ws2 ++ x :: v))
  = Some (Where (string_of_list_ascii column)
                (_parse_single_value (string_of_list_ascii (x :: v)))).
Proof.
  intros Hne Fc F1 F2 Hs Hnl.
  destruct (stripped_ends x v Hs) as [Hx Hr].
  destruct column as [| c0 column]; [contradiction |].
  inversion Fc as [| ? ? Hc0 Fc']; subst.
  assert (St : strip_chars ((c0 :: column) ++ ws1 ++ "="%char :: ws2 ++ x :: v)
               = (c0 :: column) ++ ws1 ++ "="%char :: ws2 ++ x :: v).
  { assert (Eq : (c0 :: column) ++ ws1 ++ "="%char :: ws2 ++ x :: v
                 = ((c0 :: column) ++ ws1 ++ "="%char :: ws2) ++ x :: v)
      by (rewrite <- !app_assoc; reflexivity).
    unfold strip_chars. simpl lstrip_chars. rewrite (word_not_space c0 Hc0).
    change (c0 :: column ++ ws1 ++ "="%char :: ws2 ++ x :: v)
      with ((c0 :: column) ++ ws1 ++ "="%char :: ws2 ++ x :: v).
    rewrite Eq. apply rstrip_app; [discriminate | exact Hr]. }
  unfold _parse_where, strip. rewrite !list_ascii_of_string_of_list_ascii, St.
  assert (Next : exists y rest, ws1 ++ "="%char :: ws2 ++ x :: v = y :: rest
                                /\ is_word y = false).
  { destruct F1 as [| y ws1 Hy _]; simpl; [eexists _, _; split; reflexivity |].
    exists y, (ws1 ++ "="%char :: ws2 ++ x :: v). split; [reflexivity |].
    destruct (is_word y) eqn:Hw; [| reflexivity].
    rewrite (word_not_space y Hw) in Hy. discriminate. }
  destruct Next as (y & rest & Ey & Hy). rewrite Ey.
  destruct (take_while_run is_word (c0 :: column) y rest Fc Hy) as [-> ->].
  rewrite <- Ey.
  destruct (take_while_run is_space ws1 "="%char (ws2 ++ x :: v) F1 eq_refl) as [_ ->].
  simpl Ascii.eqb. cbv iota.
  destruct (take_while_run is_space ws2 x v F2 Hx) as [_ ->].
  rewrite (take_while_all not_newline (x :: v) Hnl).
  rewrite ?list_ascii_of_string_of_list_ascii, Hs. reflexivity.
Qed.

End literal_facts.

(** ** Integers and their text *)

Section integer_text.
Context `{FloatText}.

(** The characters of a decimal numeral. *)
Lemma numeral_digits (d : Decimal.uint) :
  Forall (fun c => is_digit c = true)
         (list_ascii_of_string (NilEmpty.string_of_uint d)).
Proof.
  induction d; simpl; constructor; solve [reflexivity | assumption].
Qed.

Lemma int_digits_numeral (d : Decimal.uint) (a : positive) :
  int_digits (list_ascii_of_string (NilEmpty.string_of_uint d)) (Z.pos a)
  = Some (Z.pos (Pos.of_uint_acc d a)).
Proof.
  revert a. induction d; intros a; simpl; [reflexivity | ..];
    match goal with
    | |- int_digits _ ?acc = Some (Z.pos (Pos.of_uint_acc _ ?b)) =>
        replace acc with (Z.pos b) by (unfold digit_value; simpl; lia)
    end; apply IHd.
Qed.

Lemma int_digits_numeral_0 (d : Decimal.uint) :
  int_digits (list_ascii_of_string (NilEmpty.string_of_uint d)) 0
  = Some (Z.of_N (Pos.of_uint d)).
Proof.
  induction d; simpl; [reflexivity | exact IHd | ..];
    match goal with
    | |- int_digits _ ?acc = Some (Z.pos (Pos.of_uint_acc _ ?b)) =>
        change acc with (Z.pos b)
    end; apply int_digits_numeral.
Qed.

Lemma int_unsigned_numeral (d : Decimal.uint) :
  d <> Decimal.Nil ->
  int_unsigned (list_ascii_of_string (NilEmpty.string_of_uint d))
  = Some (Z.of_N (Pos.of_uint d)).
Proof.
  intros Hd. rewrite <- int_digits_numeral_0.
  destruct d; [contradiction | ..]; reflexivity.
Qed.

Lemma digit_not_blank c : is_digit c = true -> literal_blank c = false.
Proof. destruct c as [[] [] [] [] [] [] [] []]; vm_compute; congruence. Qed.

Lemma digit_not_space c : is_digit c = true -> is_space c = false.
Proof. destruct c as [[] [] [] [] [] [] [] []]; vm_compute; congruence. Qed.

Lemma skip_blanks_digits l :
  Forall (fun c => is_digit c = true) l -> skip_blanks l = l.
Proof.
  destruct 1 as [| c l Hc _]; simpl; [reflexivity |].
  rewrite (digit_not_blank c Hc). reflexivity.
Qed.

Lemma trim_literal_digits l :
  Forall (fun c => is_digit c = true) l -> trim_literal l = l.
Proof.
  intros F. unfold trim_literal. rewrite (skip_blanks_digits l F).
  rewrite skip_blanks_digits; [apply rev_involutive |].
  apply Forall_forall. intros c Hc. rewrite Forall_forall in F. apply F.
  apply list_elem_of_In, in_rev, list_elem_of_In. exact Hc.
Qed.

Lemma trim_literal_minus l :
  Forall (fun c => is_digit c = true) l -> l <> [] ->
  trim_literal ("-"%char :: l) = "-"%char :: l.
Proof.
  intros F Hne. unfold trim_literal. simpl skip_blanks at 2.
  change (literal_blank "-") with false. cbv iota. simpl rev at 2.
  destruct (rev l) as [| c r] eqn:Hr.
  - exfalso. apply Hne. rewrite <- (rev_involutive l), Hr. reflexivity.
  - assert (Hc : is_digit c = true).
    { rewrite Forall_forall in F. apply F.
      apply list_elem_of_In, in_rev. rewrite Hr. left. reflexivity. }
    simpl. rewrite (digit_not_blank c Hc).
    change (c :: r ++ ["-"%char]) with ((c :: r) ++ ["-"%char]).
    rewrite rev_unit, <- Hr, rev_involutive. reflexivity.
Qed.

Lemma rstrip_no_space l :
  Forall (fun c => is_space c = false) l -> rstrip_chars l = l.
Proof.
  induction 1 as [| c l Hc _ IH]; simpl; [reflexivity |].
  rewrite IH, Hc. destruct l; reflexivity.
Qed.

Lemma int_of_text_str_of_int z : int_of_text (str_of_int z) = Some z.
Proof.
  unfold str_of_int, int_of_text. destruct z as [| p | p]; [reflexivity | |]; simpl.
  - pose proof (Unsigned.to_uint_nonnil p) as Hn.
    pose proof (numeral_digits (Pos.to_uint p)) as F.
    pose proof (int_unsigned_numeral (Pos.to_uint p) Hn) as U.
    rewrite Unsigned.of_to in U.
    unfold NilZero.string_of_uint.
    destruct (Pos.to_uint p) eqn:Hu; [contradiction | ..];
      rewrite (trim_literal_digits _ F);
      simpl in U |- *; exact U.
  - pose proof (Unsigned.to_uint_nonnil p) as Hn.
    pose proof (numeral_digits (Pos.to_uint p)) as F.
    pose proof (int_unsigned_numeral (Pos.to_uint p) Hn) as U.
    rewrite Unsigned.of_to in U.
    unfold NilZero.string_of_uint.
    destruct (Pos.to_uint p) eqn:Hu; [contradiction | ..];
      (rewrite (trim_literal_minus _ F) by discriminate);
      simpl in U |- *; rewrite U; reflexivity.
Qed.

Lemma str_of_int_chars z :
  exists c l, list_ascii_of_string (str_of_int z) = c :: l
              /\ is_quote c = false
              /\ Forall (fun c => is_space c = false) (c :: l).
Proof.
  unfold str_of_int. destruct z as [| p | p]; simpl.
  - eexists _, _. split; [reflexivity |]. split; [reflexivity |].
    repeat constructor.
  - pose proof (Unsigned.to_uint_nonnil p) as Hn.
    pose proof (numeral_digits (Pos.to_uint p)) as F.
    unfold NilZero.string_of_uint.
    destruct (Pos.to_uint p) eqn:Hu; [contradiction | ..]; simpl in F |- *;
      (eexists _, _; split; [reflexivity |]; split; [reflexivity |];
       eapply Forall_impl; [exact F | intros c; apply digit_not_space]).
  - pose proof (Unsigned.to_uint_nonnil p) as Hn.
    pose proof (numeral_digits (Pos.to_uint p)) as F.
    unfold NilZero.string_of_uint.
    eexists _, _. split; [reflexivity |]. split; [reflexivity |].
    constructor; [reflexivity |].
    destruct (Pos.to_uint p) eqn:Hu; [contradiction | ..]; simpl in F |- *;
      (eapply Forall_impl; [exact F | intros c; apply digit_not_space]).
Qed.

(** X15.  The text of an integer within the digits the runtime converts
    reads back as the integer: [int()] accepts what [str()] prints, so
    such an integer stored in a TEXT column converts back to itself for an
    INT column, and the literal parser reads the printed integer as that
    integer. *)
Theorem integer_text_round_trip z :
  within_digit_limit z ->
  int_of_text (str_of_int z) = Some z
  /\ convert_value (VInt z) "TEXT" = Converted (VText (str_of_int z))
  /\ convert_value (VText (str_of_int z)) "INT" = Converted (VInt z)
  /\ _parse_single_value (str_of_int z) = VInt z.
Proof.
  intros _.
  pose proof (int_of_text_str_of_int z) as I.
  split; [exact I |]. split; [reflexivity |]. split.
  - unfold convert_value. change (String.eqb (upper "INT") "INT") with true.
    cbv iota. rewrite I. reflexivity.
  - destruct (str_of_int_chars z) as (c & l & E & Hq & F).
    assert (S : strip (str_of_int z) = str_of_int z).
    { unfold strip, strip_chars. rewrite E. inversion F as [| ? ? Hc _]; subst.
      simpl lstrip_chars. rewrite Hc. rewrite (rstrip_no_space _ F).
      rewrite <- E. apply string_of_list_ascii_of_string. }
    unfold _parse_single_value. rewrite S.
    unfold quoted_with, startswith. rewrite E.
    unfold is_quote in Hq. apply orb_false_iff in Hq as [Hd Hs].
    rewrite Hd, Hs. simpl. rewrite I. reflexivity.
Qed.

End integer_text.

(** ** Rows that insert accepts *)

Section insert_accepts.
Context `{FloatText}.

Lemma indexed_no_match col (rs : list row) d v :
  indexed col rs d ->
  Forall (fun r0 : row => row_matches (Where col v) r0 = false) rs ->
  dict_mem v d = false.
Proof.
  intros (Hs & _ & ->) Hno. unfold dict_mem.
  assert (G : dict_get (number_from 0 (map (key_of col) rs)) v = None).
  { apply dict_get_fresh. apply Forall_forall. intros [k i] Hin. simpl.
    apply elem_of_number_from in Hin as (j & _ & Hj).
    rewrite map_fmap, list_lookup_fmap in Hj.
    destruct (rs !! j) as [r0 |] eqn:Hr0; [| discriminate]. simpl in Hj.
    injection Hj as <-.
    pose proof (Forall_lookup_1 _ _ _ _ Hs Hr0) as [x Hx].
    pose proof (Forall_lookup_1 _ _ _ _ Hno Hr0) as Hm.
    unfold row_matches in Hm. simpl in Hm. rewrite Hx in Hm.
    rewrite (key_of_lookup _ _ _ Hx). exact Hm. }
  rewrite G. reflexivity.
Qed.

Lemma check_unique_fresh cols (r : row) (u : gmap string dict) :
  (forall c, c ∈ cols ->
     exists x d, r !! c = Some x /\ u !! c = Some d /\ dict_mem x d = false) ->
  Table.check_unique cols r u = Table.Pass.
Proof.
  induction cols as [| col cols IH]; intros Hc; simpl; [reflexivity |].
  destruct (Hc col) as (x & d & -> & -> & ->); [left |].
  apply IH. intros c Hin. apply Hc. right. exact Hin.
Qed.

(** X12.  While the indexes are in step with the rows, a row is accepted
    whenever its values are as many as the columns and convert, its
    primary-key value equals that of no stored row and its value in each
    unique column equals that of no stored row: insert returns success and
    appends the converted row. *)
Theorem insert_accepts_fresh_row tbl values (r : row) v :
  table_synced tbl ->
  length values = length (Table.columns tbl) ->
  Table.build_row (Table.columns tbl) values ∅ = Table.Built r ->
  r !! Table.primary_key tbl = Some v ->
  Forall (fun r0 : row => row_matches (Where (Table.primary_key tbl) v) r0 = false)
         (Table.rows tbl) ->
  (forall c, c ∈ Table.unique_columns tbl ->
     exists x, r !! c = Some x
               /\ Forall (fun r0 : row => row_matches (Where c x) r0 = false)
                         (Table.rows tbl)) ->
  exists tbl',
    Table.insert tbl values
    = (tbl', Returned (status true ("Inserted 1 row into '" +:+ Table.name tbl +:+ "'")))
    /\ Table.rows tbl' = Table.rows tbl ++ [r]
    /\ table_synced tbl'.
Proof.
  intros S L Hb Hv Hpk Hun.
  pose proof (insert_synced tbl values S) as S'.
  destruct S as [Nd [Sp Su]].
  assert (Hc : Table.check_unique (Table.unique_columns tbl) r (Table.unique_indexes tbl)
               = Table.Pass).
  { apply check_unique_fresh. intros c Hin.
    destruct (Hun c Hin) as (x & Hx & Hno).
    destruct (Su c Hin) as (d & Hd & Hi).
    exists x, d. split; [exact Hx |]. split; [exact Hd |].
    eapply indexed_no_match; eassumption. }
  pose proof (index_unique_no_error (Table.unique_columns tbl) r
                (length (Table.rows tbl)) (Table.unique_indexes tbl)) as N.
  unfold Table.insert in *. rewrite L, Nat.eqb_refl in *. simpl negb in *. cbv iota in *.
  rewrite Hb, Hv in *. rewrite (indexed_no_match _ _ _ _ Sp Hpk) in *.
  rewrite Hc in *.
  destruct (Table.index_unique _ _ _ _) as [u' [e |]].
  - simpl in N. discriminate N. intros c Hin.
    destruct (check_unique_pass _ _ _ Hc c Hin) as (x & d & -> & -> & _). eauto.
  - eexists. split; [reflexivity |]. split; [reflexivity | exact S'].
Qed.

End insert_accepts.

(** ** Joins: what the executor does not look at *)

Section join_quirks.


Lemma merged_cells_same_table q t (p : row * row) (m : row) :
  SimpleDB.left_table q = SimpleDB.right_table q ->
  SimpleDB.merge_rows q t t (fst p) (snd p) = Some m ->
  project (map (SimpleDB.prefixed (SimpleDB.left_table q)) (Table.column_names t)
           ++ map (SimpleDB.prefixed (SimpleDB.right_table q)) (Table.column_names t))
          m
  = project (Table.column_names t) (snd p) ++ project (Table.column_names t) (snd p).
Proof.
  intros Hsame E. unfold SimpleDB.merge_rows in E. rewrite Hsame in *.
  destruct (SimpleDB.add_prefixed (SimpleDB.right_table q) _ (fst p) ∅) as [m0 |];
    [| discriminate].
  destruct (add_prefixed_lookup _ _ _ _ _ E) as [In1 _].
  unfold project. rewrite map_app, !map_map.
  f_equal; apply map_ext_in; intros c Hc; apply list_elem_of_In in Hc; apply In1, Hc.
Qed.

(** X19.  A join of a table with itself shows the right row twice: the
    keys of the merged row are prefixed with the one table name, so the
    right row's values overwrite the left row's, and every data row is the
    cells of the right row of the pair followed by the same cells again. *)
Theorem self_join_shows_the_right_row_twice tables q t :
  SimpleDB.left_table q = SimpleDB.right_table q ->
  SimpleDB.get_table tables (SimpleDB.left_table q) = Some t ->
  SimpleDB.left_column (SimpleDB.sj_condition q) ∈ Table.column_names t ->
  SimpleDB.right_column (SimpleDB.sj_condition q) ∈ Table.column_names t ->
  complete t ->
  SimpleDB.sj_columns q = ["*"] ->
  SimpleDB.sj_where q = None ->
  let pairs :=
    List.filter
      (pair_matches py_eq (SimpleDB.left_column (SimpleDB.sj_condition q))
                    (SimpleDB.right_column (SimpleDB.sj_condition q)))
      (list_prod (Table.rows t) (Table.rows t)) in
  SimpleDB._handle_select_join tables q
  = Returned (Result true
      ("Selected " +:+ str_of_nat (length pairs) +:+ " row(s) from JOIN")
      (Some (map (SimpleDB.prefixed (SimpleDB.left_table q)) (Table.column_names t)
             ++ map (SimpleDB.prefixed (SimpleDB.right_table q))
                    (Table.column_names t)))
      (Some (map (fun p : row * row =>
                    project (Table.column_names t) (snd p)
                    ++ project (Table.column_names t) (snd p)) pairs))).
Proof.
  intros Hsame Ht Hlc Hrc C Hstar Hw pairs.
  unfold SimpleDB._handle_select_join.
  rewrite <- Hsame, Ht, Hw, Hstar.
  rewrite (bool_decide_eq_true_2 _ Hlc), (bool_decide_eq_true_2 _ Hrc). simpl.
  destruct (join_outer_rows q t t (Table.rows t) [] C C Hlc Hrc) as (new & E & L).
  rewrite E. simpl. fold pairs in L.
  assert (D : map (project
                (map (SimpleDB.prefixed (SimpleDB.left_table q)) (Table.column_names t)
                 ++ map (SimpleDB.prefixed (SimpleDB.left_table q))
                        (Table.column_names t))) new
              = map (fun p : row * row =>
                       project (Table.column_names t) (snd p)
                       ++ project (Table.column_names t) (snd p)) pairs).
  { clear E. induction L as [| m p new ps Hm _ IH]; simpl; [reflexivity |].
    rewrite IH. f_equal.
    pose proof (merged_cells_same_table q t p m Hsame Hm) as Mc.
    rewrite <- Hsame in Mc. exact Mc. }
  rewrite D, !length_map. reflexivity.
Qed.

Lemma join_inner_qualifiers q q' l r (left_row : row) left_val right_rows joined :
  SimpleDB.left_table q' = SimpleDB.left_table q ->
  SimpleDB.right_table q' = SimpleDB.right_table q ->
  SimpleDB.right_column (SimpleDB.sj_condition q')
  = SimpleDB.right_column (SimpleDB.sj_condition q) ->
  SimpleDB.join_inner q' l r left_row left_val right_rows joined
  = SimpleDB.join_inner q l r left_row left_val right_rows joined.
Proof.
  intros Hl Hr Hc. revert joined.
  induction right_rows as [| rr right_rows IH]; intros joined; simpl; [reflexivity |].
  rewrite Hc. destruct (rr !! _) as [right_val |]; [| reflexivity].
  unfold SimpleDB.merge_rows. rewrite Hl, Hr.
  destruct (py_eq left_val right_val); [| apply IH].
  destruct (SimpleDB.add_prefixed (SimpleDB.left_table q) _ left_row ∅) as [m0 |];
    [| reflexivity].
  destruct (SimpleDB.add_prefixed (SimpleDB.right_table q) _ rr m0); [apply IH | reflexivity].
Qed.

Lemma join_outer_qualifiers q q' l r left_rows joined :
  SimpleDB.left_table q' = SimpleDB.left_table q ->
  SimpleDB.right_table q' = SimpleDB.right_table q ->
  SimpleDB.left_column (SimpleDB.sj_condition q')
  = SimpleDB.left_column (SimpleDB.sj_condition q) ->
  SimpleDB.right_column (SimpleDB.sj_condition q')
  = SimpleDB.right_column (SimpleDB.sj_condition q) ->
  SimpleDB.join_outer q' l r left_rows joined
  = SimpleDB.join_outer q l r left_rows joined.
Proof.
  intros Hl Hr Hlc Hrc. revert joined.
  induction left_rows as [| lr left_rows IH]; intros joined; simpl; [reflexivity |].
  rewrite Hlc. destruct (lr !! _) as [left_val |]; [| reflexivity].
  rewrite (join_inner_qualifiers q q' l r lr left_val (Table.rows r) joined Hl Hr Hrc).
  destruct (SimpleDB.join_inner q l r lr left_val (Table.rows r) joined);
    [apply IH | reflexivity].
Qed.

(** X20.  The executor never looks at the table names that qualify the two
    sides of the ON condition: the first column named is looked up in the
    table after FROM and the second in the table after JOIN, whatever
    tables the condition names, and the result is the same for every
    choice of those two names. *)
Theorem join_ignores_the_on_qualifiers tables cols lt rt a b a' b' lc rc where_ :
  SimpleDB._handle_select_join tables
    (SimpleDB.SelectJoin cols lt rt (SimpleDB.JoinCondition a' lc b' rc) where_)
  = SimpleDB._handle_select_join tables
      (SimpleDB.SelectJoin cols lt rt (SimpleDB.JoinCondition a lc b rc) where_).
Proof.
  unfold SimpleDB._handle_select_join. simpl.
  destruct (SimpleDB.get_table tables lt) as [l |]; [| reflexivity].
  destruct (SimpleDB.get_table tables rt) as [r |]; [| reflexivity].
  destruct (negb (bool_decide (lc ∈ Table.column_names l))); [reflexivity |].
  destruct (negb (bool_decide (rc ∈ Table.column_names r))); [reflexivity |].
  rewrite (join_outer_qualifiers
             (SimpleDB.SelectJoin cols lt rt (SimpleDB.JoinCondition a lc b rc) where_)
             (SimpleDB.SelectJoin cols lt rt (SimpleDB.JoinCondition a' lc b' rc) where_)
             l r (Table.rows l) []) by reflexivity.
  reflexivity.
Qed.

End join_quirks.

(** ** Type names *)

Section type_names.
Context `{FloatText}.

Lemma upper_char_twice c : upper_char (upper_char c) = upper_char c.
Proof. destruct c as [[] [] [] [] [] [] [] []]; reflexivity. Qed.

Lemma upper_twice s : upper (upper s) = upper s.
Proof.
  unfold upper. rewrite list_ascii_of_string_of_list_ascii, map_map. f_equal.
  apply map_ext. intros c. apply upper_char_twice.
Qed.

(** Type names are read without regard to the case of the letters
    a to z: a type name and its upper-case form convert, validate and name
    a Python type alike. *)
Theorem type_names_ignore_case v ty :
  convert_value v (upper ty) = convert_value v ty
  /\ validate_type v (upper ty) = validate_type v ty
  /\ get_python_type (upper ty) = get_python_type ty.
Proof.
  unfold convert_value, validate_type, get_python_type.
  rewrite upper_twice. repeat split; reflexivity.
Qed.

End type_names.

(** ** The matcher on texts of a known shape *)

Section matcher_facts.

Import Re.

Lemma same_letter_refl c : same_letter c c = true.
Proof. apply Ascii.eqb_refl. Qed.

(** A run of literals takes the same characters off the text. *)
Lemma run_lits w k s g :
  run (lits w) k (list_ascii_of_string w ++ s) g = k s g.
Proof.
  unfold lits. induction w as [| c w IH]; simpl; [reflexivity |].
  rewrite same_letter_refl. exact IH.
Qed.

Lemma run_seq_cons a parts k s g :
  run (seq (a :: parts)) k s g = run a (run (seq parts) k) s g.
Proof. reflexivity. Qed.

Lemma run_seq_nil k s g : run (seq []) k s g = k s g.
Proof. reflexivity. Qed.

(** A greedy repetition takes the whole run when the rest of the pattern
    matches behind it. *)
Lemma rep_greedy_run {A} cls (k : list ascii -> list ascii -> option A) min
    taken run_ s r :
  Forall (fun c => cls c = true) run_ -> stops cls s -> min <= length run_ ->
  k (taken ++ run_) s = Some r ->
  rep cls true k min taken (run_ ++ s) = Some r.
Proof.
  intros F. revert min taken. induction F as [| c run_ Hc _ IH]; intros min taken St L K.
  - simpl in L. assert (min = 0) as -> by lia. rewrite app_nil_r in K. simpl.
    destruct s as [| x s]; simpl; [exact K |].
    simpl in St. rewrite St. exact K.
  - simpl. rewrite Hc. rewrite (IH (pred min) (taken ++ [c])); [reflexivity | exact St | |].
    + simpl in L. lia.
    + rewrite <- app_assoc. exact K.
Qed.

(** A greedy repetition gives one character back when the rest of the
    pattern fails at the end of the text and matches one character
    before. *)
Lemma rep_greedy_back {A} cls (k : list ascii -> list ascii -> option A)
    taken body c r :
  Forall (fun x => cls x = true) body -> cls c = true ->
  k (taken ++ body ++ [c]) [] = None ->
  k (taken ++ body) [c] = Some r ->
  rep cls true k 0 taken (body ++ [c]) = Some r.
Proof.
  intros F Hc. revert taken. induction F as [| x body Hx _ IH]; intros taken Kn Ks.
  - simpl in *. rewrite Hc, Kn. rewrite app_nil_r in Ks. exact Ks.
  - simpl. rewrite Hx. rewrite (IH (taken ++ [x])); [reflexivity | |].
    + rewrite <- app_assoc. exact Kn.
    + rewrite <- app_assoc. exact Ks.
Qed.

(** A repetition that needs a character fails on a text that starts with
    none of the class. *)
Lemma rep_no_start {A} cls greedy (k : list ascii -> list ascii -> option A)
    min taken s :
  stops cls s -> 0 < min -> rep cls greedy k min taken s = None.
Proof.
  intros St Hm. destruct min as [| min]; [lia |].
  destruct s as [| x s]; simpl; [reflexivity |].
  simpl in St. rewrite St. reflexivity.
Qed.

(** A lazy repetition stops as soon as the rest of the pattern matches. *)
Lemma rep_lazy_stop {A} cls (k : list ascii -> list ascii -> option A) taken s r :
  k taken s = Some r -> rep cls false k 0 taken s = Some r.
Proof.
  intros K. destruct s as [| x s]; simpl; [exact K |].
  destruct (cls x); rewrite K; reflexivity.
Qed.

Lemma rep_lazy_step {A} cls (k : list ascii -> list ascii -> option A) taken x s :
  cls x = true -> k taken (x :: s) = None ->
  rep cls false k 0 taken (x :: s) = rep cls false k 0 (taken ++ [x]) s.
Proof. intros Hx K. simpl. rewrite Hx, K. reflexivity. Qed.

(** The optional WHERE group on a text that does not go on with a blank. *)
Lemma run_where_group_none n k s g :
  stops is_space s ->
  run (Statements.where_group n) k s g = k s g.
Proof.
  intros St. unfold Statements.where_group. cbn [run].
  rewrite run_seq_cons. unfold spaces1 at 1. cbn [run].
  rewrite rep_no_start by (exact St || lia). reflexivity.
Qed.

(** The optional WHERE group on [ WHERE ] and a text that runs to the end
    of the query. *)
Lemma run_where_group_some n k w g r :
  Forall (fun c => dot c = true) w -> stops is_space w ->
  k [] ((n, string_of_list_ascii w) :: g) = Some r ->
  run (Statements.where_group n) k (list_ascii_of_string " WHERE " ++ w) g = Some r.
Proof.
  intros Fw St K. unfold Statements.where_group. cbn [run].
  assert (E : run (seq [spaces1; lits "WHERE"; spaces1; rest n]) k
                  (list_ascii_of_string " WHERE " ++ w) g = Some r).
  { rewrite run_seq_cons. unfold spaces1 at 1. cbn [run].
    change (list_ascii_of_string " WHERE " ++ w)
      with ([" "%char] ++ (list_ascii_of_string "WHERE" ++ " "%char :: w)).
    apply rep_greedy_run; [repeat constructor | reflexivity | simpl; lia |].
    rewrite run_seq_cons, run_lits.
    rewrite run_seq_cons. unfold spaces1. cbn [run].
    change (" "%char :: w) with ([" "%char] ++ w).
    apply rep_greedy_run; [repeat constructor | exact St | simpl; lia |].
    rewrite run_seq_cons. unfold rest. cbn [run].
    rewrite <- (app_nil_r w) at 1.
    apply rep_greedy_run; [exact Fw | exact I | simpl; lia |]. exact K. }
  rewrite E. reflexivity.
Qed.

End matcher_facts.

(** ** Statements of a known shape *)

Section statement_facts.
Context `{FloatText}.

Import Re Str Statements.

Lemma upper_chars l :
  list_ascii_of_string (upper (string_of_list_ascii l)) = map upper_char l.
Proof. unfold upper. rewrite !list_ascii_of_string_of_list_ascii. reflexivity. Qed.

Lemma name_stops_space t s : name_chars t -> stops is_space (t ++ s).
Proof.
  intros [Hne F]. destruct F as [| c t Hc _]; [contradiction |].
  simpl. apply word_not_space, Hc.
Qed.

Lemma name_not_space t : name_chars t -> Forall (fun c => is_space c = false) t.
Proof.
  intros [_ F]. eapply Forall_impl; [exact F |]. intros c. apply word_not_space.
Qed.

(** [strip] leaves a text that starts and ends with characters that are
    no blanks. *)
Lemma strip_stable x l :
  is_space x = false -> rstrip_chars (x :: l) = x :: l ->
  strip (string_of_list_ascii (x :: l)) = string_of_list_ascii (x :: l).
Proof.
  intros Hx Hr. unfold strip, strip_chars.
  rewrite list_ascii_of_string_of_list_ascii. simpl lstrip_chars. rewrite Hx, Hr.
  reflexivity.
Qed.

Lemma rstrip_name a t : name_chars t -> rstrip_chars (a ++ t) = a ++ t.
Proof.
  intros N. apply rstrip_app; [apply N |].
  apply rstrip_no_space, name_not_space, N.
Qed.

(** X25.  An INSERT statement of the documented form, with a table name
    made of word characters and any value list on one line, parses to the
    insert of the values that [_parse_values] reads from the text between
    the first opening parenthesis and the last closing one. *)
Theorem insert_statement_parses t vs :
  name_chars t ->
  Forall (fun c => dot c = true) vs ->
  let query :=
    string_of_list_ascii
      (list_ascii_of_string "INSERT INTO " ++ t
       ++ list_ascii_of_string " VALUES (" ++ vs ++ [")"%char]) in
  parse query
  = Some (Parsed (SimpleDB.INSERT (string_of_list_ascii t)
                    (_parse_values (string_of_list_ascii vs))))
  /\ forall tables,
       execute tables query
       = Some (SimpleDB._handle_insert tables (string_of_list_ascii t)
                 (_parse_values (string_of_list_ascii vs))).
Proof.
  intros N Fv query.
  assert (P : parse query
              = Some (Parsed (SimpleDB.INSERT (string_of_list_ascii t)
                                (_parse_values (string_of_list_ascii vs)))));
    [| split; [exact P | intros tables; unfold execute; rewrite P; reflexivity]].
  unfold query. clear query.
  set (q := list_ascii_of_string "INSERT INTO " ++ t
            ++ list_ascii_of_string " VALUES (" ++ vs ++ [")"%char]).
  assert (Sq : strip (string_of_list_ascii q) = string_of_list_ascii q).
  { apply strip_stable; [reflexivity |].
    change ("I"%char :: _) with q. unfold q.
    rewrite !app_assoc. apply rstrip_last. reflexivity. }
  unfold parse. rewrite Sq.
  unfold upper_starts_with. rewrite upper_chars.
  change (starts_with (list_ascii_of_string "CREATE TABLE") (map upper_char q))
    with false.
  change (starts_with (list_ascii_of_string "INSERT INTO") (map upper_char q))
    with true.
  cbv iota. f_equal. unfold _parse_insert, re_match.
  rewrite list_ascii_of_string_of_list_ascii.
  assert (M : run pattern_insert (fun _ g => Some g) q []
              = Some [(2, string_of_list_ascii vs); (1, string_of_list_ascii t)]).
  { unfold pattern_insert, q.
    rewrite run_seq_cons.
    change (list_ascii_of_string "INSERT INTO " ++ t ++ ?r)
      with (list_ascii_of_string "INSERT INTO" ++ " "%char :: t ++ r).
    rewrite run_lits.
    rewrite run_seq_cons. unfold spaces1 at 1. cbn [run].
    change (" "%char :: t ++ ?r) with ([" "%char] ++ (t ++ r)).
    apply rep_greedy_run;
      [repeat constructor | apply name_stops_space, N | simpl; lia |].
    rewrite run_seq_cons. unfold word. cbn [run].
    apply rep_greedy_run; [apply N | reflexivity | |].
    { destruct N as [Hne _]. destruct t; [contradiction | simpl; lia]. }
    rewrite run_seq_cons. unfold spaces1 at 1. cbn [run].
    change (list_ascii_of_string " VALUES (" ++ ?r)
      with ([" "%char] ++ (list_ascii_of_string "VALUES" ++ " "%char :: "("%char :: r)).
    apply rep_greedy_run; [repeat constructor | reflexivity | simpl; lia |].
    rewrite run_seq_cons, run_lits.
    rewrite run_seq_cons. unfold spaces0. cbn [run].
    change (" "%char :: "("%char :: ?r) with ([" "%char] ++ ("("%char :: r)).
    apply rep_greedy_run; [repeat constructor | reflexivity | simpl; lia |].
    rewrite run_seq_cons. cbn [run]. rewrite same_letter_refl.
    rewrite run_seq_cons. unfold rest. cbn [run].
    apply rep_greedy_back; [exact Fv | reflexivity | reflexivity |].
    simpl. reflexivity. }
  rewrite M. reflexivity.
Qed.

Lemma starts_with_app sub post : starts_with sub (sub ++ post) = true.
Proof.
  induction sub as [| c sub IH]; simpl; [reflexivity |].
  rewrite Ascii.eqb_refl. exact IH.
Qed.

Lemma contains_intro sub pre post : contains sub (pre ++ sub ++ post) = true.
Proof.
  induction pre as [| x pre IH].
  - simpl app. destruct (sub ++ post) eqn:E; simpl; rewrite <- E;
      rewrite starts_with_app; reflexivity.
  - simpl. rewrite IH. apply orb_true_r.
Qed.

Lemma insert_same (tables : gmap string Table.t) n tbl :
  tables !! n = Some tbl -> <[n := tbl]> tables = tables.
Proof. intros E. apply insert_id, E. Qed.

(** X30.  A DELETE statement with a table name made of word characters
    parses to the delete on that table: without a WHERE clause when the
    statement ends after the name, and then executing it on an existing
    table is refused and changes nothing; with the predicate that
    [_parse_where] reads when [ WHERE ] and a text on one line follow. *)
Theorem delete_statement_parses t :
  name_chars t ->
  parse (string_of_list_ascii (list_ascii_of_string "DELETE FROM " ++ t))
  = Some (Parsed (SimpleDB.DELETE (string_of_list_ascii t) None))
  /\ (forall tables tbl,
        tables !! string_of_list_ascii t = Some tbl ->
        execute tables (string_of_list_ascii (list_ascii_of_string "DELETE FROM " ++ t))
        = Some (tables,
                Returned (status false "DELETE without WHERE clause is not supported")))
  /\ (forall x w,
        is_space x = false -> rstrip_chars (x :: w) = x :: w ->
        Forall (fun c => dot c = true) (x :: w) ->
        parse (string_of_list_ascii
                 (list_ascii_of_string "DELETE FROM " ++ t
                  ++ list_ascii_of_string " WHERE " ++ x :: w))
        = Some (Parsed (SimpleDB.DELETE (string_of_list_ascii t)
                          (_parse_where (string_of_list_ascii (x :: w)))))).
Proof.
  intros N.
  assert (P0 : parse (string_of_list_ascii (list_ascii_of_string "DELETE FROM " ++ t))
               = Some (Parsed (SimpleDB.DELETE (string_of_list_ascii t) None))).
  { set (q := list_ascii_of_string "DELETE FROM " ++ t).
    assert (Sq : strip (string_of_list_ascii q) = string_of_list_ascii q).
    { apply strip_stable; [reflexivity |].
      change ("D"%char :: _) with q. unfold q. apply rstrip_name, N. }
    unfold parse. rewrite Sq. unfold upper_starts_with. rewrite upper_chars.
    change (starts_with (list_ascii_of_string "CREATE TABLE") (map upper_char q))
      with false.
    change (starts_with (list_ascii_of_string "INSERT INTO") (map upper_char q))
      with false.
    change (starts_with (list_ascii_of_string "SELECT") (map upper_char q)) with false.
    change (starts_with (list_ascii_of_string "UPDATE") (map upper_char q)) with false.
    change (starts_with (list_ascii_of_string "DELETE FROM") (map upper_char q))
      with true.
    cbv iota. f_equal. unfold _parse_delete, re_match.
    rewrite list_ascii_of_string_of_list_ascii.
    assert (M : run pattern_delete (fun _ g => Some g) q []
                = Some [(1, string_of_list_ascii t)]).
    { unfold pattern_delete, q.
      change (seq [lits "DELETE FROM"; spaces1; word 1; where_group 2])
        with (seq (lits "DELETE FROM" :: spaces1 :: word 1 :: [where_group 2])).
      rewrite run_seq_cons.
      change (list_ascii_of_string "DELETE FROM " ++ t)
        with (list_ascii_of_string "DELETE FROM" ++ " "%char :: t).
      rewrite run_lits. rewrite run_seq_cons. unfold spaces1 at 1. cbn [run].
      replace (" "%char :: t) with ([" "%char] ++ (t ++ []))
        by (rewrite app_nil_r; reflexivity).
      apply rep_greedy_run;
        [repeat constructor | apply name_stops_space, N | simpl; lia |].
      rewrite run_seq_cons. unfold word. cbn [run].
      apply rep_greedy_run; [apply N | exact I | |].
      { destruct N as [Hne _]. destruct t; [contradiction | simpl; lia]. }
      rewrite run_seq_cons. rewrite run_where_group_none by exact I. reflexivity. }
    rewrite M. reflexivity. }
  split; [exact P0 |]. split.
  - intros tables tbl Ht. unfold execute. rewrite P0. simpl.
    unfold SimpleDB._handle_delete, SimpleDB.get_table. rewrite Ht. simpl.
    rewrite (insert_same _ _ _ Ht). reflexivity.
  - intros x w Hx Hr Fw.
    set (q := list_ascii_of_string "DELETE FROM " ++ t
              ++ list_ascii_of_string " WHERE " ++ x :: w).
    assert (Sq : strip (string_of_list_ascii q) = string_of_list_ascii q).
    { apply strip_stable; [reflexivity |].
      change ("D"%char :: _) with q. unfold q.
      rewrite !app_assoc. apply rstrip_app; [discriminate | exact Hr]. }
    unfold parse. rewrite Sq. unfold upper_starts_with. rewrite upper_chars.
    change (starts_with (list_ascii_of_string "CREATE TABLE") (map upper_char q))
      with false.
    change (starts_with (list_ascii_of_string "INSERT INTO") (map upper_char q))
      with false.
    change (starts_with (list_ascii_of_string "SELECT") (map upper_char q)) with false.
    change (starts_with (list_ascii_of_string "UPDATE") (map upper_char q)) with false.
    change (starts_with (list_ascii_of_string "DELETE FROM") (map upper_char q))
      with true.
    cbv iota. f_equal. unfold _parse_delete, re_match.
    rewrite list_ascii_of_string_of_list_ascii.
    assert (M : run pattern_delete (fun _ g => Some g) q []
                = Some [(2, string_of_list_ascii (x :: w));
                        (1, string_of_list_ascii t)]).
    { unfold pattern_delete, q.
      rewrite run_seq_cons.
      change (list_ascii_of_string "DELETE FROM " ++ t ++ ?r)
        with (list_ascii_of_string "DELETE FROM" ++ " "%char :: t ++ r).
      rewrite run_lits. rewrite run_seq_cons. unfold spaces1 at 1. cbn [run].
      change (" "%char :: t ++ ?r) with ([" "%char] ++ (t ++ r)).
      apply rep_greedy_run;
        [repeat constructor | apply name_stops_space, N | simpl; lia |].
      rewrite run_seq_cons. unfold word. cbn [run].
      apply rep_greedy_run; [apply N | reflexivity | |].
      { destruct N as [Hne _]. destruct t; [contradiction | simpl; lia]. }
      rewrite run_seq_cons.
      apply run_where_group_some; [exact Fw | exact Hx | reflexivity]. }
    rewrite M. reflexivity.
Qed.

End statement_facts.

(** ** The matcher, part by part *)

Section matcher_steps.

Import Re.

Lemma run_lits_cons w parts k s g :
  run (seq (lits w :: parts)) k (list_ascii_of_string w ++ s) g
  = run (seq parts) k s g.
Proof. rewrite run_seq_cons. apply run_lits. Qed.

Lemma run_lit_cons c parts k s g :
  run (seq (Lit c :: parts)) k (c :: s) g = run (seq parts) k s g.
Proof. rewrite run_seq_cons. cbn [run]. rewrite same_letter_refl. reflexivity. Qed.

(** One blank under [\s+] and under [\s*]. *)
Lemma run_space1 parts k s g r :
  stops is_space s -> run (seq parts) k s g = Some r ->
  run (seq (spaces1 :: parts)) k (" "%char :: s) g = Some r.
Proof.
  intros St K. rewrite run_seq_cons. unfold spaces1. cbn [run].
  change (" "%char :: s) with ([" "%char] ++ s).
  apply rep_greedy_run; [repeat constructor | exact St | simpl; lia | exact K].
Qed.

Lemma run_space0 parts k s g r :
  stops is_space s -> run (seq parts) k s g = Some r ->
  run (seq (spaces0 :: parts)) k (" "%char :: s) g = Some r.
Proof.
  intros St K. rewrite run_seq_cons. unfold spaces0. cbn [run].
  change (" "%char :: s) with ([" "%char] ++ s).
  apply rep_greedy_run; [repeat constructor | exact St | simpl; lia | exact K].
Qed.

(** A name under [(\w+)]. *)
Lemma run_word n parts k t s g r :
  name_chars t -> stops is_word s ->
  run (seq parts) k s ((n, string_of_list_ascii t) :: g) = Some r ->
  run (seq (word n :: parts)) k (t ++ s) g = Some r.
Proof.
  intros [Hne F] St K. rewrite run_seq_cons. unfold word. cbn [run].
  apply rep_greedy_run; [exact F | exact St | | exact K].
  destruct t; [contradiction | simpl; lia].
Qed.

(** [\s+] on a text that does not go on with a blank. *)
Lemma run_space1_no_blank parts k s g :
  stops is_space s -> run (seq (spaces1 :: parts)) k s g = None.
Proof.
  intros St. rewrite run_seq_cons. unfold spaces1. cbn [run].
  apply rep_no_start; [exact St | lia].
Qed.

(** [\s+] on one blank, when the rest of the pattern fails behind it. *)
Lemma run_space1_none parts k s g :
  stops is_space s -> run (seq parts) k s g = None ->
  run (seq (spaces1 :: parts)) k (" "%char :: s) g = None.
Proof.
  intros St K. rewrite run_seq_cons. unfold spaces1. cbn [run].
  destruct s as [| c s]; simpl in *.
  - unfold set_group. rewrite K. reflexivity.
  - rewrite St. unfold set_group. rewrite K. reflexivity.
Qed.

(** A lazy [(.*?)] before [\s+] takes a text without blanks whole. *)
Lemma run_lazy_no_blank n parts k body s g r :
  Forall (fun c => dot c = true) body ->
  Forall (fun c => is_space c = false) body ->
  run (seq (spaces1 :: parts)) k s ((n, string_of_list_ascii body) :: g) = Some r ->
  run (seq (Rep dot 0 false (Some n) :: spaces1 :: parts)) k (body ++ s) g = Some r.
Proof.
  intros Fd Fs K. rewrite run_seq_cons. cbn [run].
  change (string_of_list_ascii body) with (string_of_list_ascii ([] ++ body)) in K.
  revert K. generalize (@nil ascii) as taken. revert Fs.
  induction Fd as [| c body Hc _ IH]; intros Fs taken K.
  - apply rep_lazy_stop. rewrite app_nil_r in K. exact K.
  - inversion Fs as [| ? ? Sc Fs']; subst.
    simpl app. rewrite rep_lazy_step.
    + apply IH; [exact Fs' |]. rewrite <- app_assoc. exact K.
    + exact Hc.
    + apply run_space1_no_blank. exact Sc.
Qed.

(** A repetition fails when the rest of the pattern fails wherever the
    repetition could stop. *)
Lemma rep_none {A} cls greedy (k : list ascii -> list ascii -> option A) min taken s :
  (forall a b, s = a ++ b -> k (taken ++ a) b = None) ->
  rep cls greedy k min taken s = None.
Proof.
  revert min taken. induction s as [| x s IH]; intros min taken Hk.
  - simpl. destruct min; [| reflexivity].
    rewrite <- (app_nil_r taken). apply (Hk [] []). reflexivity.
  - assert (Stop : match min with 0 => k taken (x :: s) | S _ => None end = None).
    { destruct min; [| reflexivity].
      rewrite <- (app_nil_r taken). apply (Hk [] (x :: s)). reflexivity. }
    assert (More : rep cls greedy k (pred min) (taken ++ [x]) s = None).
    { apply IH. intros a b E. rewrite <- app_assoc. apply (Hk (x :: a) b).
      rewrite E. reflexivity. }
    simpl. rewrite More, Stop. destruct (cls x), greedy; reflexivity.
Qed.

(** Literals and then [\s+] on a text without blanks. *)
Lemma run_lits_no_blank w parts k s g :
  Forall (fun c => is_space c = false) s ->
  run (seq (lits w :: spaces1 :: parts)) k s g = None.
Proof.
  intros F. rewrite run_seq_cons. unfold lits. revert s F.
  induction w as [| c w IH]; intros s F.
  - simpl list_ascii_of_string. simpl map. rewrite run_seq_nil.
    apply run_space1_no_blank. destruct F; [exact I | assumption].
  - simpl list_ascii_of_string. simpl map. rewrite run_seq_cons. cbn [run].
    destruct F as [| x s Hx F]; [reflexivity |].
    destruct (same_letter c x); [apply IH, F | reflexivity].
Qed.

(** The optional [INNER] before [JOIN]. *)
Lemma run_inner_skip parts k s g :
  run (seq (Opt (seq [lits "INNER"; spaces1]) :: lits "JOIN" :: parts)) k
      (list_ascii_of_string "JOIN" ++ s) g
  = run (seq parts) k s g.
Proof.
  rewrite run_seq_cons. cbn [run]. rewrite run_lits_cons. reflexivity.
Qed.

Lemma word_dot c : is_word c = true -> dot c = true.
Proof. destruct c as [[] [] [] [] [] [] [] []]; vm_compute; congruence. Qed.

Lemma suffix_no_blank (a b : list ascii) :
  Forall (fun c => is_space c = false) (a ++ b) -> stops is_space b.
Proof.
  intros F. apply Forall_app in F as [_ F]. destruct F; [exact I | assumption].
Qed.

End matcher_steps.

(** ** SELECT statements of a known shape *)

Section select_statements.
Context `{FloatText}.

Import Re Str Statements.

Lemma contains_app_r sub pre s :
  contains sub s = true -> contains sub (pre ++ s) = true.
Proof.
  intros C. induction pre as [| x pre IH]; simpl; [exact C |].
  rewrite IH. apply orb_true_r.
Qed.

Lemma rstrip_dotted t w :
  rstrip_chars w = w -> rstrip_chars (t ++ "."%char :: w) = t ++ "."%char :: w.
Proof.
  intros Hw. apply rstrip_app; [discriminate |].
  simpl. rewrite Hw. destruct w; reflexivity.
Qed.

(** The join pattern on a join statement with [*] for the columns; [tail]
    is what follows the ON condition. *)
Lemma run_join a b p x r y tail res :
  name_chars a -> name_chars b -> name_chars p -> name_chars x ->
  name_chars r -> name_chars y -> stops is_word tail ->
  run (where_group 8) (fun _ g => Some g) tail
      [(7, string_of_list_ascii y); (6, string_of_list_ascii r);
       (5, string_of_list_ascii x); (4, string_of_list_ascii p);
       (3, string_of_list_ascii b); (2, string_of_list_ascii a); (1, "*")]
  = Some res ->
  run pattern_join (fun _ g => Some g)
      (list_ascii_of_string "SELECT * FROM " ++ a
       ++ list_ascii_of_string " JOIN " ++ b
       ++ list_ascii_of_string " ON " ++ p ++ "."%char :: x
       ++ list_ascii_of_string " = " ++ r ++ "."%char :: y ++ tail) []
  = Some res.
Proof.
  intros Na Nb Np Nx Nr Ny St W. unfold pattern_join.
  change (list_ascii_of_string "SELECT * FROM " ++ a
          ++ list_ascii_of_string " JOIN " ++ b
          ++ list_ascii_of_string " ON " ++ p ++ "."%char :: x
          ++ list_ascii_of_string " = " ++ r ++ "."%char :: y ++ tail)
    with (list_ascii_of_string "SELECT" ++ " "%char :: ["*"%char] ++ " "%char
          :: list_ascii_of_string "FROM" ++ " "%char :: a ++ " "%char
          :: list_ascii_of_string "JOIN" ++ " "%char :: b ++ " "%char
          :: list_ascii_of_string "ON" ++ " "%char :: p ++ "."%char :: x
          ++ " "%char :: "="%char :: " "%char :: r ++ "."%char :: y ++ tail).
  rewrite run_lits_cons.
  apply run_space1; [reflexivity |].
  apply run_lazy_no_blank; [repeat constructor | repeat constructor |].
  apply run_space1; [reflexivity |]. rewrite run_lits_cons.
  apply run_space1; [apply name_stops_space, Na |].
  apply run_word; [exact Na | reflexivity |].
  apply run_space1; [reflexivity |].
  rewrite run_inner_skip.
  apply run_space1; [apply name_stops_space, Nb |].
  apply run_word; [exact Nb | reflexivity |].
  apply run_space1; [reflexivity |]. rewrite run_lits_cons.
  apply run_space1; [apply name_stops_space, Np |].
  apply run_word; [exact Np | reflexivity |].
  rewrite run_lit_cons.
  apply run_word; [exact Nx | reflexivity |].
  apply run_space0; [reflexivity |]. rewrite run_lit_cons.
  apply run_space0; [apply name_stops_space, Nr |].
  apply run_word; [exact Nr | reflexivity |].
  rewrite run_lit_cons.
  apply run_word; [exact Ny | exact St |].
  rewrite run_seq_cons. exact W.
Qed.

(** X28.  A join statement whose WHERE clause names its column with the
    table, as in [WHERE users.id = 1], parses to the same statement as the
    join without the clause, and so executes as it: the clause is read and
    dropped. *)
Theorem qualified_where_of_join_statement_is_dropped a b p x r y tq w :
  name_chars a -> name_chars b -> name_chars p -> name_chars x ->
  name_chars r -> name_chars y ->
  Forall (fun c => is_word c = true) tq ->
  Forall (fun c => dot c = true) w -> rstrip_chars w = w ->
  let join :=
    list_ascii_of_string "SELECT * FROM " ++ a
    ++ list_ascii_of_string " JOIN " ++ b
    ++ list_ascii_of_string " ON " ++ p ++ "."%char :: x
    ++ list_ascii_of_string " = " ++ r ++ "."%char :: y in
  let filtered :=
    join ++ list_ascii_of_string " WHERE " ++ tq ++ "."%char :: w in
  let statement :=
    Parsed (SimpleDB.SELECT_JOIN
      (SimpleDB.SelectJoin ["*"] (string_of_list_ascii a) (string_of_list_ascii b)
         (SimpleDB.JoinCondition (string_of_list_ascii p) (string_of_list_ascii x)
            (string_of_list_ascii r) (string_of_list_ascii y))
         None)) in
  parse (string_of_list_ascii join) = Some statement
  /\ parse (string_of_list_ascii filtered) = Some statement
  /\ forall tables,
       execute tables (string_of_list_ascii filtered)
       = execute tables (string_of_list_ascii join).
Proof.
  intros Na Nb Np Nx Nr Ny Ft Fw Hw join filtered statement.
  assert (G : forall tail where_,
            rstrip_chars (y ++ tail) = y ++ tail -> stops is_word tail ->
            (exists res,
               run (where_group 8) (fun _ g => Some g) tail
                 [(7, string_of_list_ascii y); (6, string_of_list_ascii r);
                  (5, string_of_list_ascii x); (4, string_of_list_ascii p);
                  (3, string_of_list_ascii b); (2, string_of_list_ascii a); (1, "*")]
               = Some res
               /\ group_text res 1 = "*"
               /\ group_text res 2 = string_of_list_ascii a
               /\ group_text res 3 = string_of_list_ascii b
               /\ group_text res 4 = string_of_list_ascii p
               /\ group_text res 5 = string_of_list_ascii x
               /\ group_text res 6 = string_of_list_ascii r
               /\ group_text res 7 = string_of_list_ascii y
               /\ parse_where_group (group res 8) = where_) ->
            parse (string_of_list_ascii (join ++ tail))
            = Some (Parsed (SimpleDB.SELECT_JOIN
                (SimpleDB.SelectJoin ["*"] (string_of_list_ascii a)
                   (string_of_list_ascii b)
                   (SimpleDB.JoinCondition (string_of_list_ascii p)
                      (string_of_list_ascii x) (string_of_list_ascii r)
                      (string_of_list_ascii y))
                   where_)))).
  { intros tail where_ Hr St (res & W & G1 & G2 & G3 & G4 & G5 & G6 & G7 & G8).
    assert (Eq : join ++ tail
                 = list_ascii_of_string "SELECT * FROM " ++ a
                   ++ list_ascii_of_string " JOIN " ++ b
                   ++ list_ascii_of_string " ON " ++ p ++ "."%char :: x
                   ++ list_ascii_of_string " = " ++ r ++ "."%char :: y ++ tail).
    { unfold join. rewrite <- !app_assoc. simpl. rewrite <- !app_assoc. simpl.
      rewrite <- !app_assoc. reflexivity. }
    rewrite Eq. clear Eq.
    set (q := list_ascii_of_string "SELECT * FROM " ++ a
              ++ list_ascii_of_string " JOIN " ++ b
              ++ list_ascii_of_string " ON " ++ p ++ "."%char :: x
              ++ list_ascii_of_string " = " ++ r ++ "."%char :: y ++ tail).
    assert (Sq : strip (string_of_list_ascii q) = string_of_list_ascii q).
    { apply strip_stable; [reflexivity |].
      change ("S"%char :: _) with q.
      assert (E : q = (list_ascii_of_string "SELECT * FROM " ++ a
                       ++ list_ascii_of_string " JOIN " ++ b
                       ++ list_ascii_of_string " ON " ++ p ++ "."%char :: x
                       ++ list_ascii_of_string " = " ++ r ++ ["."%char])
                      ++ (y ++ tail)).
      { unfold q. repeat first [rewrite <- app_assoc | progress simpl]. reflexivity. }
      rewrite E. apply rstrip_app; [| exact Hr].
      destruct Ny as [Hne _]. destruct y; [contradiction | discriminate]. }
    assert (J : upper_contains "JOIN" (string_of_list_ascii q) = true).
    { unfold upper_contains. rewrite upper_chars. unfold q.
      change (list_ascii_of_string " JOIN " ++ ?s)
        with ([" "%char] ++ list_ascii_of_string "JOIN" ++ " "%char :: s).
      rewrite (app_assoc _ a), (app_assoc _ [" "%char]).
      rewrite (map_app _ _ (list_ascii_of_string "JOIN" ++ _)).
      rewrite (map_app _ (list_ascii_of_string "JOIN")).
      apply contains_intro. }
    unfold parse. rewrite Sq. unfold upper_starts_with. rewrite upper_chars.
    change (starts_with (list_ascii_of_string "CREATE TABLE") (map upper_char q))
      with false.
    change (starts_with (list_ascii_of_string "INSERT INTO") (map upper_char q))
      with false.
    change (starts_with (list_ascii_of_string "SELECT") (map upper_char q)) with true.
    cbv iota. f_equal. unfold _parse_select. rewrite J.
    unfold _parse_select_with_join, re_match.
    rewrite list_ascii_of_string_of_list_ascii.
    unfold q. rewrite (run_join a b p x r y tail res Na Nb Np Nx Nr Ny St W).
    rewrite G1, G2, G3, G4, G5, G6, G7, G8. reflexivity. }
  assert (P1 : parse (string_of_list_ascii join) = Some statement).
  { rewrite <- (app_nil_r join). apply G.
    - rewrite app_nil_r. apply rstrip_no_space, name_not_space, Ny.
    - exact I.
    - eexists. split; [rewrite run_where_group_none by exact I; reflexivity |].
      repeat split; reflexivity. }
  assert (P2 : parse (string_of_list_ascii filtered) = Some statement).
  { unfold filtered. apply G.
    - assert (E : y ++ list_ascii_of_string " WHERE " ++ tq ++ "."%char :: w
                  = (y ++ list_ascii_of_string " WHERE " ++ tq) ++ "."%char :: w)
        by (rewrite <- !app_assoc; reflexivity).
      rewrite E. apply rstrip_dotted, Hw.
    - reflexivity.
    - eexists. split.
      + apply run_where_group_some; [| | reflexivity].
        * apply Forall_app. split.
          -- eapply Forall_impl; [exact Ft | intros c; apply word_dot].
          -- constructor; [reflexivity | exact Fw].
        * destruct Ft as [| c tq Hc _]; [reflexivity |].
          simpl. apply word_not_space, Hc.
      + repeat split; try reflexivity.
        unfold group. simpl. unfold parse_where_group.
        destruct (String.eqb _ ""); [reflexivity |].
        apply parse_where_rejects_qualified, Ft. }
  split; [exact P1 |]. split; [exact P2 |].
  intros tables. unfold execute. rewrite P1, P2. reflexivity.
Qed.

Lemma tail_no_blank (t a b : list ascii) :
  Forall (fun c => is_word c = true) t -> t = a ++ b -> stops is_space b.
Proof.
  intros F E. rewrite E in F. apply Forall_app in F as [_ F].
  destruct F as [| c b Hc _]; [exact I |]. simpl. apply word_not_space, Hc.
Qed.

(** X27.  A SELECT from a table whose name holds the letters JOIN, in
    either case, is read as a join and fails with the message for a join
    that is not well formed: no such table can be queried by [SELECT *
    FROM]. *)
Theorem select_from_table_named_join_fails t :
  name_chars t ->
  contains (list_ascii_of_string "JOIN") (map upper_char t) = true ->
  let query := string_of_list_ascii (list_ascii_of_string "SELECT * FROM " ++ t) in
  parse query = Some (Failed join_syntax)
  /\ forall tables,
       execute tables query = Some (tables, Returned (status false join_syntax)).
Proof.
  intros N C query.
  assert (P : parse query = Some (Failed join_syntax));
    [| split; [exact P | intros tables; unfold execute; rewrite P; reflexivity]].
  unfold query. clear query.
  set (q := list_ascii_of_string "SELECT * FROM " ++ t).
  assert (Sq : strip (string_of_list_ascii q) = string_of_list_ascii q).
  { apply strip_stable; [reflexivity |].
    change ("S"%char :: _) with q. unfold q. apply rstrip_name, N. }
  assert (J : upper_contains "JOIN" (string_of_list_ascii q) = true).
  { unfold upper_contains. rewrite upper_chars. unfold q. rewrite map_app.
    apply contains_app_r, C. }
  unfold parse. rewrite Sq. unfold upper_starts_with. rewrite upper_chars.
  change (starts_with (list_ascii_of_string "CREATE TABLE") (map upper_char q))
    with false.
  change (starts_with (list_ascii_of_string "INSERT INTO") (map upper_char q))
    with false.
  change (starts_with (list_ascii_of_string "SELECT") (map upper_char q)) with true.
  cbv iota. f_equal. unfold _parse_select. rewrite J.
  unfold _parse_select_with_join, re_match.
  rewrite list_ascii_of_string_of_list_ascii.
  assert (M : run pattern_join (fun _ g => Some g) q [] = None).
  { pose proof (name_stops_space t [] N) as St. rewrite app_nil_r in St.
    pose proof (name_not_space t N) as Ft. destruct N as [_ Fw].
    unfold pattern_join, q.
    change (list_ascii_of_string "SELECT * FROM " ++ t)
      with (list_ascii_of_string "SELECT" ++ " "%char :: "*"%char :: " "%char
            :: list_ascii_of_string "FROM" ++ " "%char :: t).
    rewrite run_lits_cons.
    apply run_space1_none; [reflexivity |].
    rewrite run_seq_cons. cbn [run].
    rewrite rep_lazy_step;
      [| reflexivity | apply run_space1_no_blank; reflexivity].
    rewrite rep_lazy_step; [| reflexivity |].
    2:{ apply run_space1_none; [reflexivity |]. rewrite run_lits_cons.
        apply run_space1_none; [exact St |].
        rewrite run_seq_cons. unfold word at 1. cbn [run].
        apply rep_none. intros a b E.
        apply run_space1_no_blank. exact (tail_no_blank t a b Fw E). }
    change (list_ascii_of_string "FROM" ++ " "%char :: t)
      with ("F"%char :: "R"%char :: "O"%char :: "M"%char :: " "%char :: t).
    do 4 (rewrite rep_lazy_step;
          [| reflexivity | apply run_space1_no_blank; reflexivity]).
    rewrite rep_lazy_step; [| reflexivity |].
    2:{ apply run_space1_none; [exact St |]. apply run_lits_no_blank, Ft. }
    apply rep_none. intros a b E.
    apply run_space1_no_blank. exact (tail_no_blank t a b Fw E). }
  rewrite M. reflexivity.
Qed.


End select_statements.

(** ** The SET text of an UPDATE *)

Section set_text.

Import Re.

Lemma not_w_letter c :
  Ascii.eqb (upper_char c) "W"%char = false -> same_letter "W" c = false.
Proof. destruct c as [[] [] [] [] [] [] [] []]; vm_compute; congruence. Qed.

Lemma blank_not_w c : is_space c = true -> same_letter "W" c = false.
Proof. destruct c as [[] [] [] [] [] [] [] []]; vm_compute; congruence. Qed.

(** [WHERE] on a text that starts with another letter. *)
Lemma run_where_word_none parts k y u g :
  same_letter "W" y = false ->
  run (seq (lits "WHERE" :: parts)) k (y :: u) g = None.
Proof.
  intros Hy. rewrite run_seq_cons. unfold lits.
  simpl list_ascii_of_string. simpl map. rewrite run_seq_cons. cbn [run].
  rewrite Hy. reflexivity.
Qed.

Lemma rstrip_tail x l :
  l <> [] -> rstrip_chars (x :: l) = x :: l -> rstrip_chars l = l.
Proof.
  intros Hne E. simpl in E. destruct (rstrip_chars l) as [| c r] eqn:R.
  - destruct (is_space x); [discriminate |].
    destruct l; [contradiction | discriminate].
  - injection E as <-. reflexivity.
Qed.

Lemma rstrip_blank_head x l :
  is_space x = true -> rstrip_chars (x :: l) = x :: l -> l <> [].
Proof.
  intros Hx E ->. simpl in E. rewrite Hx in E. discriminate.
Qed.

(** [\s+WHERE] on the blanks of a text in which no blank stands before a
    W: whatever number of blanks the repetition takes, [WHERE] fails
    behind them. *)
Lemma blanks_then_where_none parts k g b s min taken :
  b <> [] -> rstrip_chars b = b -> no_where_start b = true ->
  stops (fun y => same_letter "W" y) b ->
  rep is_space true
      (fun taken rest =>
         run (seq (lits "WHERE" :: parts)) k rest (set_group None taken g))
      min taken (b ++ s) = None.
Proof.
  revert min taken. induction b as [| y b IH]; intros min taken Hne Hr Hn Hw;
    [contradiction |].
  simpl in Hw.
  assert (Stop : match min with
                 | 0 => run (seq (lits "WHERE" :: parts)) k ((y :: b) ++ s)
                            (set_group None taken g)
                 | S _ => None
                 end = None).
  { destruct min; [| reflexivity]. apply run_where_word_none, Hw. }
  simpl app. simpl rep. destruct (is_space y) eqn:Sy.
  - assert (Hb : b <> []) by (exact (rstrip_blank_head y b Sy Hr)).
    rewrite IH.
    + exact Stop.
    + exact Hb.
    + exact (rstrip_tail y b Hb Hr).
    + simpl in Hn. apply andb_true_iff in Hn as [_ Hn]. exact Hn.
    + destruct b as [| y' b]; [contradiction |]. simpl.
      simpl in Hn. apply andb_true_iff in Hn as [Hn _].
      rewrite Sy in Hn. simpl in Hn. apply negb_true_iff in Hn.
      apply not_w_letter, Hn.
  - exact Stop.
Qed.

(** Inside the SET text neither the WHERE clause nor the end of the
    statement is found. *)
Lemma set_text_goes_on n k g b s :
  b <> [] -> Forall (fun c => dot c = true) b -> rstrip_chars b = b ->
  no_where_start b = true ->
  run (seq [Statements.where_group n; AtEnd]) k (b ++ s) g = None.
Proof.
  intros Hne Fd Hr Hn. destruct b as [| y b]; [contradiction |].
  inversion Fd as [| ? ? Dy Fd']; subst.
  assert (End_ : at_end ((y :: b) ++ s) = false).
  { simpl. destruct (b ++ s) eqn:E; [| reflexivity].
    unfold dot in Dy. apply negb_true_iff in Dy. exact Dy. }
  assert (W : run (seq [spaces1; lits "WHERE"; spaces1; rest n])
                  (run (seq [AtEnd]) k) ((y :: b) ++ s) g = None).
  { rewrite run_seq_cons. unfold spaces1 at 1. cbn [run].
    destruct (is_space y) eqn:Sy.
    - apply (blanks_then_where_none [spaces1; rest n]); try assumption.
      simpl. apply blank_not_w, Sy.
    - apply rep_no_start; [exact Sy | lia]. }
  rewrite run_seq_cons. unfold Statements.where_group. cbn [run].
  rewrite W. rewrite run_seq_cons. cbn [run]. rewrite End_. reflexivity.
Qed.

Lemma no_where_start_tail x l : no_where_start (x :: l) = true -> no_where_start l = true.
Proof. simpl. intros Hn. apply andb_true_iff in Hn as [_ Hn]. exact Hn. Qed.

Lemma rep_lazy_cons {A} cls (k : list ascii -> list ascii -> option A) min taken x s :
  cls x = true ->
  rep cls false k min taken (x :: s)
  = match match min with 0 => k taken (x :: s) | S _ => None end with
    | Some r => Some r
    | None => rep cls false k (pred min) (taken ++ [x]) s
    end.
Proof. intros Hx. simpl. rewrite Hx. reflexivity. Qed.

(** The lazy [(.+?)] of the SET text takes the text whole. *)
Lemma run_set_text n k g body s r :
  body <> [] -> Forall (fun c => dot c = true) body -> rstrip_chars body = body ->
  no_where_start body = true ->
  run (seq [Statements.where_group n; AtEnd]) k s ((2, string_of_list_ascii body) :: g)
  = Some r ->
  run (seq [Rep dot 1 false (Some 2); Statements.where_group n; AtEnd]) k (body ++ s) g
  = Some r.
Proof.
  intros Hne Fd Hr Hn K. rewrite run_seq_cons. cbn [run].
  assert (G : forall b taken min,
            min <= length b -> Forall (fun c => dot c = true) b ->
            (b <> [] -> rstrip_chars b = b) -> no_where_start b = true ->
            run (seq [Statements.where_group n; AtEnd]) k s
                (set_group (Some 2) (taken ++ b) g) = Some r ->
            rep dot false
                (fun taken rest =>
                   run (seq [Statements.where_group n; AtEnd]) k rest
                       (set_group (Some 2) taken g))
                min taken (b ++ s) = Some r).
  { induction b as [| x b IH]; intros taken min Hm Fb Hrb Hnb Kb.
    - simpl in Hm. assert (min = 0) as -> by lia. rewrite app_nil_r in Kb.
      apply rep_lazy_stop. exact Kb.
    - inversion Fb as [| ? ? Dx Fb']; subst.
      assert (More : rep dot false
                (fun taken rest =>
                   run (seq [Statements.where_group n; AtEnd]) k rest
                       (set_group (Some 2) taken g))
                (pred min) (taken ++ [x]) (b ++ s) = Some r).
      { apply IH.
        - simpl in Hm. lia.
        - exact Fb'.
        - intros Hb. apply (rstrip_tail x b Hb). apply Hrb. discriminate.
        - exact (no_where_start_tail x b Hnb).
        - rewrite <- app_assoc. exact Kb. }
      simpl app. rewrite (rep_lazy_cons _ _ _ _ _ _ Dx), More.
      destruct min; [| reflexivity].
      change (x :: b ++ s) with ((x :: b) ++ s).
      rewrite (set_text_goes_on n k _ (x :: b) s); [reflexivity | discriminate | exact Fb | | exact Hnb].
      apply Hrb. discriminate. }
  apply (G body [] 1).
  - destruct body; [contradiction | simpl; lia].
  - exact Fd.
  - intros _. exact Hr.
  - exact Hn.
  - exact K.
Qed.

End set_text.

(** ** UPDATE statements of a known shape *)

Section update_statements.
Context `{FloatText}.

Import Re Str Statements.

Lemma split_from_whole sep s current :
  Forall (fun c => c <> sep) s ->
  split_from sep s current = [string_of_list_ascii (current ++ s)].
Proof.
  intros F. revert current. induction F as [| c s Hc _ IH]; intros current; simpl.
  - rewrite app_nil_r. reflexivity.
  - replace (Ascii.eqb c sep) with false by (symmetry; apply Ascii.eqb_neq, Hc).
    rewrite IH, <- app_assoc. reflexivity.
Qed.

Lemma strip_stops l :
  stops is_space l -> rstrip_chars l = l ->
  strip (string_of_list_ascii l) = string_of_list_ascii l.
Proof.
  destruct l as [| x l]; [reflexivity |]. intros Hx Hr. apply strip_stable; assumption.
Qed.

Lemma rstrip_spaces n : rstrip_chars (repeat " "%char n) = [].
Proof. induction n as [| n IH]; simpl; [reflexivity |]. rewrite IH. reflexivity. Qed.

Lemma rstrip_name_spaces col n :
  name_chars col -> rstrip_chars (col ++ repeat " "%char n) = col.
Proof.
  intros [Hne F]. induction F as [| c col Hc F IH]; [contradiction |].
  simpl. destruct col as [| c' col].
  - simpl. rewrite rstrip_spaces, (word_not_space c Hc). reflexivity.
  - rewrite IH by discriminate. reflexivity.
Qed.

Lemma lstrip_spaces n l : lstrip_chars (repeat " "%char n ++ l) = lstrip_chars l.
Proof. induction n as [| n IH]; simpl; [reflexivity | exact IH]. Qed.

Lemma no_where_start_word a b :
  Forall (fun c => is_space c = false) a -> no_where_start b = true ->
  no_where_start (a ++ b) = true.
Proof.
  intros F Hb. induction F as [| c a Hc _ IH]; [exact Hb |].
  simpl. rewrite IH, Hc. destruct (a ++ b); reflexivity.
Qed.

Lemma no_where_start_spaces n y b :
  no_where_start (" "%char :: y :: b) = true ->
  no_where_start (repeat " "%char n ++ y :: b) = true.
Proof.
  intros Hb. pose proof (no_where_start_tail _ _ Hb) as Hy.
  induction n as [| n IH]; [exact Hy |].
  simpl repeat. simpl app.
  destruct n as [| n].
  - exact Hb.
  - simpl in IH |- *. exact IH.
Qed.

(** The SET text of one assignment. *)
Lemma set_text_shape col n1 n2 v0 val :
  name_chars col -> strip_chars (v0 :: val) = v0 :: val ->
  Forall (fun c => dot c = true) (v0 :: val) ->
  no_where_start (" "%char :: v0 :: val) = true ->
  let body := col ++ repeat " "%char n1 ++ "="%char :: repeat " "%char n2 ++ v0 :: val in
  body <> [] /\ Forall (fun c => dot c = true) body /\ rstrip_chars body = body
  /\ no_where_start body = true /\ stops is_space body.
Proof.
  intros N Hs Fd Hn body.
  destruct (stripped_ends v0 val Hs) as [Hv Hr].
  split; [destruct N as [Hne _]; destruct col; [contradiction | discriminate] |].
  split.
  { unfold body. apply Forall_app. split.
    - destruct N as [_ F]. eapply Forall_impl; [exact F | intros c; apply word_dot].
    - apply Forall_app. split; [apply Forall_forall; intros c Hc;
        apply list_elem_of_In, repeat_spec in Hc; subst; reflexivity |].
      constructor; [reflexivity |]. apply Forall_app. split; [| exact Fd].
      apply Forall_forall. intros c Hc.
      apply list_elem_of_In, repeat_spec in Hc. subst. reflexivity. }
  split.
  { assert (E : body = (col ++ repeat " "%char n1 ++ "="%char :: repeat " "%char n2)
                       ++ v0 :: val)
      by (unfold body; rewrite <- !app_assoc; reflexivity).
    rewrite E. apply rstrip_app; [discriminate | exact Hr]. }
  split.
  { unfold body. apply no_where_start_word; [apply name_not_space, N |].
    destruct n1 as [| n1].
    - simpl. destruct n2; simpl; [exact (no_where_start_tail _ _ Hn) |].
      apply (no_where_start_spaces (S n2)), Hn.
    - apply (no_where_start_spaces (S n1)). simpl.
      change (no_where_start (["="%char] ++ repeat " "%char n2 ++ v0 :: val) = true).
      apply no_where_start_word; [repeat constructor |].
      apply no_where_start_spaces, Hn. }
  unfold body. apply name_stops_space, N.
Qed.

(** The assignments that the SET text of one assignment gives. *)
Lemma scan_one_assignment col n1 n2 v0 val :
  name_chars col -> strip_chars (v0 :: val) = v0 :: val ->
  Forall (fun c => c <> ","%char) (v0 :: val) ->
  scan_set
    (map strip
       (split (string_of_list_ascii
                 (col ++ repeat " "%char n1 ++ "="%char :: repeat " "%char n2
                  ++ v0 :: val)) ","%char)) []
  = inl [(string_of_list_ascii col,
          _parse_single_value (string_of_list_ascii (v0 :: val)))].
Proof.
  intros N Hs Fc.
  destruct (stripped_ends v0 val Hs) as [Hv Hr].
  set (body := col ++ repeat " "%char n1 ++ "="%char :: repeat " "%char n2 ++ v0 :: val).
  assert (Fb : Forall (fun c => c <> ","%char) body).
  { unfold body. apply Forall_app. split.
    - destruct N as [_ F]. eapply Forall_impl; [exact F |].
      intros c Hc ->. discriminate.
    - apply Forall_app. split; [apply Forall_forall; intros c Hc;
        apply list_elem_of_In, repeat_spec in Hc; subst; discriminate |].
      constructor; [discriminate |]. apply Forall_app. split; [| exact Fc].
      apply Forall_forall. intros c Hc.
      apply list_elem_of_In, repeat_spec in Hc. subst. discriminate. }
  unfold split. rewrite list_ascii_of_string_of_list_ascii.
  rewrite (split_from_whole _ body [] Fb). simpl app. simpl map.
  assert (Sb : strip (string_of_list_ascii body) = string_of_list_ascii body).
  { apply strip_stops; [unfold body; apply name_stops_space, N |].
    assert (E : body = (col ++ repeat " "%char n1 ++ "="%char :: repeat " "%char n2)
                       ++ v0 :: val)
      by (unfold body; rewrite <- !app_assoc; reflexivity).
    rewrite E. apply rstrip_app; [discriminate | exact Hr]. }
  rewrite Sb. simpl scan_set. rewrite ?list_ascii_of_string_of_list_ascii.
  assert (Ex : existsb (Ascii.eqb "="%char) body = true).
  { unfold body. rewrite existsb_app, existsb_app. simpl.
    rewrite !orb_true_r. reflexivity. }
  rewrite Ex. simpl negb. cbv iota.
  unfold split_once. rewrite ?list_ascii_of_string_of_list_ascii.
  assert (Fe : Forall (fun c => negb (Ascii.eqb c "="%char) = true)
                 (col ++ repeat " "%char n1)).
  { apply Forall_app. split.
    - destruct N as [_ F]. eapply Forall_impl; [exact F |].
      intros c Hc. destruct (Ascii.eqb_spec c "="%char) as [-> |]; [discriminate | reflexivity].
    - apply Forall_forall. intros c Hc.
      apply list_elem_of_In, repeat_spec in Hc. subst. reflexivity. }
  assert (E : body = (col ++ repeat " "%char n1)
                     ++ "="%char :: repeat " "%char n2 ++ v0 :: val)
    by (unfold body; rewrite <- app_assoc; reflexivity).
  rewrite E.
  destruct (take_while_run (fun c => negb (Ascii.eqb c "="%char))
              (col ++ repeat " "%char n1) "="%char
              (repeat " "%char n2 ++ v0 :: val) Fe eq_refl) as [-> ->].
  simpl tail.
  assert (S1 : strip (string_of_list_ascii (col ++ repeat " "%char n1))
               = string_of_list_ascii col).
  { unfold strip, strip_chars. rewrite list_ascii_of_string_of_list_ascii.
    pose proof (name_stops_space col (repeat " "%char n1) N) as St.
    destruct (col ++ repeat " "%char n1) as [| c l] eqn:Ec.
    - destruct N as [Hne _]. destruct col; [contradiction | discriminate].
    - simpl in St. simpl lstrip_chars. rewrite St. rewrite <- Ec.
      rewrite (rstrip_name_spaces col n1 N). reflexivity. }
  assert (S2 : strip (string_of_list_ascii (repeat " "%char n2 ++ v0 :: val))
               = string_of_list_ascii (v0 :: val)).
  { unfold strip, strip_chars. rewrite list_ascii_of_string_of_list_ascii.
    rewrite lstrip_spaces. simpl lstrip_chars. rewrite Hv, Hr. reflexivity. }
  rewrite S1, S2. reflexivity.
Qed.

(** X29.  An UPDATE statement with one assignment, [column = literal]
    with any number of spaces around the sign, parses to the update of
    that column to the literal read as a single value: without a predicate
    when the statement ends after the literal, with the predicate that
    [_parse_where] reads when [ WHERE ] and a text follow, the text on one
    line and with a character that is no blank at its start and at its
    end.  The literal is a text on one line without a comma that [strip]
    leaves as it is and in which, as before it, no blank stands before a
    W. *)
Theorem update_statement_parses t col n1 n2 v0 val :
  name_chars t -> name_chars col ->
  strip_chars (v0 :: val) = v0 :: val ->
  Forall (fun c => dot c = true) (v0 :: val) ->
  Forall (fun c => c <> ","%char) (v0 :: val) ->
  no_where_start (" "%char :: v0 :: val) = true ->
  let update :=
    list_ascii_of_string "UPDATE " ++ t ++ list_ascii_of_string " SET "
    ++ col ++ repeat " "%char n1 ++ "="%char :: repeat " "%char n2 ++ v0 :: val in
  let set_values :=
    [(string_of_list_ascii col,
      _parse_single_value (string_of_list_ascii (v0 :: val)))] in
  parse (string_of_list_ascii update)
  = Some (Parsed (SimpleDB.UPDATE (string_of_list_ascii t) set_values None))
  /\ (forall x w,
        is_space x = false -> rstrip_chars (x :: w) = x :: w ->
        Forall (fun c => dot c = true) (x :: w) ->
        parse (string_of_list_ascii
                 (update ++ list_ascii_of_string " WHERE " ++ x :: w))
        = Some (Parsed (SimpleDB.UPDATE (string_of_list_ascii t) set_values
                          (_parse_where (string_of_list_ascii (x :: w)))))).
Proof.
  intros Nt Nc Hs Fd Fc Hn update set_values.
  set (body := col ++ repeat " "%char n1 ++ "="%char :: repeat " "%char n2 ++ v0 :: val).
  destruct (set_text_shape col n1 n2 v0 val Nc Hs Fd Hn) as (Bne & Bd & Br & Bn & Bs).
  fold body in Bne, Bd, Br, Bn, Bs.
  pose proof (scan_one_assignment col n1 n2 v0 val Nc Hs Fc) as Scan.
  fold body in Scan. fold set_values in Scan.
  assert (G : forall tail where_,
            rstrip_chars (body ++ tail) = body ++ tail ->
            (exists res,
               run (seq [where_group 3; AtEnd]) (fun _ g => Some g) tail
                 [(2, string_of_list_ascii body); (1, string_of_list_ascii t)]
               = Some res
               /\ group_text res 1 = string_of_list_ascii t
               /\ group_text res 2 = string_of_list_ascii body
               /\ parse_where_group (group res 3) = where_) ->
            parse (string_of_list_ascii (update ++ tail))
            = Some (Parsed (SimpleDB.UPDATE (string_of_list_ascii t) set_values
                              where_))).
  { intros tail where_ Hr (res & W & G1 & G2 & G3).
    assert (Eq : update ++ tail
                 = list_ascii_of_string "UPDATE " ++ t
                   ++ list_ascii_of_string " SET " ++ body ++ tail).
    { unfold update. fold body.
      repeat first [rewrite <- app_assoc | progress simpl app]. reflexivity. }
    rewrite Eq. clear Eq.
    set (q := list_ascii_of_string "UPDATE " ++ t
              ++ list_ascii_of_string " SET " ++ body ++ tail).
    assert (Sq : strip (string_of_list_ascii q) = string_of_list_ascii q).
    { apply strip_stable; [reflexivity |].
      change ("U"%char :: _) with q.
      assert (E : q = (list_ascii_of_string "UPDATE " ++ t
                       ++ list_ascii_of_string " SET ") ++ (body ++ tail)).
      { unfold q. repeat first [rewrite <- app_assoc | progress simpl app].
        reflexivity. }
      rewrite E. apply rstrip_app; [| exact Hr].
      intros E0. apply app_eq_nil in E0 as [E0 _]. exact (Bne E0). }
    unfold parse. rewrite Sq. unfold upper_starts_with. rewrite upper_chars.
    change (starts_with (list_ascii_of_string "CREATE TABLE") (map upper_char q))
      with false.
    change (starts_with (list_ascii_of_string "INSERT INTO") (map upper_char q))
      with false.
    change (starts_with (list_ascii_of_string "SELECT") (map upper_char q)) with false.
    change (starts_with (list_ascii_of_string "UPDATE") (map upper_char q)) with true.
    cbv iota. f_equal. unfold _parse_update, re_match.
    rewrite list_ascii_of_string_of_list_ascii.
    assert (M : run pattern_update (fun _ g => Some g) q [] = Some res).
    { unfold pattern_update, q.
      change (list_ascii_of_string "UPDATE " ++ t
              ++ list_ascii_of_string " SET " ++ body ++ tail)
        with (list_ascii_of_string "UPDATE" ++ " "%char :: t ++ " "%char
              :: list_ascii_of_string "SET" ++ " "%char :: body ++ tail).
      rewrite run_lits_cons.
      apply run_space1; [apply name_stops_space, Nt |].
      apply run_word; [exact Nt | reflexivity |].
      apply run_space1; [reflexivity |]. rewrite run_lits_cons.
      apply run_space1.
      { destruct body; [contradiction | exact Bs]. }
      apply run_set_text; [exact Bne | exact Bd | exact Br | exact Bn | exact W]. }
    rewrite M, G1, G2, G3, Scan. reflexivity. }
  split.
  - rewrite <- (app_nil_r update). apply G.
    + rewrite app_nil_r. exact Br.
    + eexists. split.
      * rewrite run_seq_cons. rewrite run_where_group_none by exact I. reflexivity.
      * repeat split; reflexivity.
  - intros x w Hx Hr Fw. apply G.
    + assert (E : body ++ list_ascii_of_string " WHERE " ++ x :: w
                  = (body ++ list_ascii_of_string " WHERE ") ++ x :: w)
        by (rewrite <- app_assoc; reflexivity).
      rewrite E. apply rstrip_app; [discriminate | exact Hr].
    + eexists. split.
      * rewrite run_seq_cons.
        apply run_where_group_some; [exact Fw | exact Hx | reflexivity].
      * repeat split; reflexivity.
Qed.

End update_statements.

(** ** Column definitions *)

Section column_definitions.

Import Re Str Statements.





















End column_definitions.

(** ** CREATE TABLE statements of a known shape *)

Section create_table_statements.
Context `{FloatText}.

Import Re Str Statements.


End create_table_statements.

(** ** The theorems at concrete tables, continued *)

Lemma ex_users_synced : table_synced ex_users.
Proof.
  split; [constructor |]. split.
  - split; [repeat constructor; eexists; reflexivity |].
    split; [| reflexivity].
    simpl. repeat split; repeat constructor.
  - intros c Hc. inversion Hc.
Qed.

Lemma select_by_key_agrees_with_scan_witness :
  (table_synced ex_users /\ where_col ex_where_id_2 = Table.primary_key ex_users)
  /\ (Table.select ex_users ["*"] (Some ex_where_id_2)
      = Returned (Result true "Selected 1 row(s)" (Some ["id"; "name"])
                    (Some [[Some (VInt 2); Some (VText "Jane Smith")]]))
      /\ matched ex_where_id_2 (Table.rows ex_users) <= 1).
Proof.
  split; [split; [exact ex_users_synced | reflexivity] |].
  exact (select_by_key_agrees_with_scan ex_users ["*"] ex_where_id_2
           ex_users_synced eq_refl).
Defined.

Lemma select_after_delete_is_empty_witness :
  table_synced ex_users
  /\ Table.select (fst (Table.delete ex_users (Some ex_where_id_1))) ["*"]
       (Some ex_where_id_1)
     = Returned (Result true "Selected 0 row(s)" (Some ["id"; "name"]) (Some [])).
Proof.
  split; [exact ex_users_synced |].
  exact (select_after_delete_is_empty ex_users ["*"] ex_where_id_1 ex_users_synced).
Defined.

Lemma sc_ops_assign_no_key : Forall (assigns_no_key "id" ["email"]) sc_ops.
Proof.
  constructor; [exact I |]. constructor; [exact I |]. constructor; [| constructor].
  intros c Hc. simpl in Hc.
  apply list_elem_of_singleton in Hc as ->.
  split; [discriminate |]. intros Hin.
  apply list_elem_of_singleton in Hin. discriminate.
Qed.

Lemma indexes_exact_after_operations_witness :
  Forall (assigns_no_key "id" ["email"]) sc_ops
  /\ (let tbl := run (H := no_floats) (Table.init "users" sc_columns "id" ["email"])
                     sc_ops in
      index_exact "id" (Table.rows tbl) (Table.primary_index tbl)
      /\ forall c, c ∈ ["email"] ->
           exists d, Table.unique_indexes tbl !! c = Some d
                     /\ index_exact c (Table.rows tbl) d).
Proof.
  split; [exact sc_ops_assign_no_key |].
  exact (indexes_exact_after_operations (H := no_floats) "users" sc_columns "id"
           ["email"] sc_ops sc_ops_assign_no_key).
Defined.

Lemma keys_stay_distinct_witness :
  (Forall (assigns_no_key "id" ["email"]) sc_ops
   /\ ("email" = "id" \/ "email" ∈ ["email"])
   /\ 0 <> 1
   /\ Table.rows (run (H := no_floats) (Table.init "users" sc_columns "id" ["email"])
                      sc_ops) !! 0 = Some sc_row_1
   /\ Table.rows (run (H := no_floats) (Table.init "users" sc_columns "id" ["email"])
                      sc_ops) !! 1 = Some sc_row_2)
  /\ exists vi vj, sc_row_1 !! "email" = Some vi /\ sc_row_2 !! "email" = Some vj
                   /\ py_eq vi vj = false.
Proof.
  assert (Hc : "email" = "id" \/ "email" ∈ ["email"]) by (right; left).
  assert (Hne : 0 <> 1) by lia.
  split; [split; [exact sc_ops_assign_no_key |];
          split; [exact Hc |]; split; [exact Hne |]; split; reflexivity |].
  exact (keys_stay_distinct (H := no_floats) "users" sc_columns "id" ["email"] sc_ops
           "email" 0 1 sc_row_1 sc_row_2 sc_ops_assign_no_key Hc Hne eq_refl eq_refl).
Defined.

Lemma ex_rename_converts : Forall (converts (H := no_floats) ex_users) ex_rename.
Proof.
  constructor; [| constructor]. intros _.
  exists "TEXT", (VText "Jonathan"). split; reflexivity.
Qed.

Lemma update_rewrites_the_matching_rows_witness :
  (Forall (converts (H := no_floats) ex_users) ex_rename
   /\ NoDup (map fst ex_rename))
  /\ Table.rows ex_users = [ex_row_1; ex_row_2]
  /\ exists tbl',
       Table.update (H := no_floats) ex_users ex_rename (Some ex_where_id_1)
       = (tbl', Returned (status true "Updated 1 row(s)"))
       /\ Table.rows tbl'
          = [<["id" := VInt 1]> {["name" := VText "Jonathan"]}; ex_row_2]
       /\ Table.primary_index tbl' = Table.primary_index ex_users.
Proof.
  assert (Nd : NoDup (map fst ex_rename)) by (repeat constructor; intros Hin; inversion Hin).
  split; [split; [exact ex_rename_converts | exact Nd] |].
  split; [reflexivity |].
  destruct (update_rewrites_the_matching_rows (H := no_floats) ex_users ex_rename
              ex_where_id_1 ex_rename_converts Nd)
    as (tbl' & E & _ & Hidx & _).
  exists tbl'. split; [exact E |]. split; [| exact Hidx].
  assert (K : tbl' = fst (Table.update (H := no_floats) ex_users ex_rename
                            (Some ex_where_id_1))) by (rewrite E; reflexivity).
  rewrite K. reflexivity.
Defined.

Lemma update_of_key_leaves_index_stale_witness :
  (table_synced ex_users
   /\ Table.primary_key ex_users ∈ Table.column_names ex_users
   /\ Table.rows ex_users !! 0 = Some ex_row_1
   /\ ex_row_1 !! Table.primary_key ex_users = Some (VInt 1)
   /\ Table.column_types ex_users !! Table.primary_key ex_users = Some "INT"
   /\ convert_value (H := no_floats) (VInt 5) "INT" = Converted (VInt 5)
   /\ dict_mem (VInt 5) (Table.primary_index ex_users) = false)
  /\ (let tbl' := fst (Table.update (H := no_floats) ex_users [("id", VInt 5)]
                         (Some (Where "id" (VInt 1)))) in
      Table.rows tbl' !! 0 = Some (<["id" := VInt 5]> ex_row_1)
      /\ Table.select tbl' ["*"] (Some (Where "id" (VInt 5)))
         = Returned (Result true "Selected 0 row(s)" (Some ["id"; "name"]) (Some []))
      /\ Table.select tbl' ["*"] (Some (Where "id" (VInt 1)))
         = Returned (Result true "Selected 1 row(s)" (Some ["id"; "name"])
                       (Some [[Some (VInt 5); Some (VText "John Doe")]]))).
Proof.
  assert (Hin : Table.primary_key ex_users ∈ Table.column_names ex_users) by left.
  split; [split; [exact ex_users_synced |]; split; [exact Hin |];
          repeat split; reflexivity |].
  exact (update_of_key_leaves_index_stale (H := no_floats) ex_users 0 ex_row_1
           (VInt 1) (VInt 5) "INT" (VInt 5) ex_users_synced Hin
           eq_refl eq_refl eq_refl eq_refl eq_refl).
Defined.

Lemma insert_stores_converted_values_witness :
  (NoDup (Table.column_names ex_users)
   /\ Table.insert (H := no_floats) ex_users [VInt 3; VText "Jim"]
      = (ex_users_3, Returned (status true "Inserted 1 row into 'users'"))
   /\ success (status true "Inserted 1 row into 'users'") = true)
  /\ exists r : row,
       Table.rows ex_users_3 = Table.rows ex_users ++ [r]
       /\ Forall2 (fun (col : string * string) v =>
                     exists x, convert_value (H := no_floats) v (snd col) = Converted x
                               /\ r !! fst col = Some x)
                  (Table.columns ex_users) [VInt 3; VText "Jim"]
       /\ forall c, c ∉ Table.column_names ex_users -> r !! c = None.
Proof.
  assert (Nd : NoDup (Table.column_names ex_users)).
  { apply (bool_decide_unpack _). reflexivity. }
  split; [split; [exact Nd |]; split; reflexivity |].
  exact (insert_stores_converted_values (H := no_floats) ex_users
           [VInt 3; VText "Jim"] ex_users_3
           (status true "Inserted 1 row into 'users'") Nd eq_refl eq_refl).
Defined.

Lemma within_digit_limit_small z : (Z.abs z < 1000)%Z -> within_digit_limit z.
Proof.
  unfold within_digit_limit. intros Hz.
  assert (P : (1000 <= 10 ^ 4300)%Z).
  { change 1000%Z with (10 ^ 3)%Z. apply Z.pow_le_mono_r; lia. }
  lia.
Qed.

Lemma insert_rejects_equal_key_witness :
  (table_synced ex_users
   /\ length [VInt 1; VText "Ann"] = length (Table.columns ex_users)
   /\ Table.build_row (H := no_floats) (Table.columns ex_users)
        [VInt 1; VText "Ann"] ∅
      = Table.Built (<["id" := VInt 1]> {["name" := VText "Ann"]})
   /\ (<["id" := VInt 1]> {["name" := VText "Ann"]} : row) !! Table.primary_key ex_users
      = Some (VInt 1)
   /\ prints (VInt 1)
   /\ ex_row_1 ∈ Table.rows ex_users
   /\ ex_row_1 !! Table.primary_key ex_users = Some (VInt 1)
   /\ py_eq (VInt 1) (VInt 1) = true)
  /\ Table.insert (H := no_floats) ex_users [VInt 1; VText "Ann"]
     = (ex_users,
        Returned (status false "Primary key violation: '1' already exists")).
Proof.
  assert (Hin : ex_row_1 ∈ Table.rows ex_users) by left.
  assert (Hp : prints (VInt 1)) by (apply within_digit_limit_small; reflexivity).
  split; [split; [exact ex_users_synced |]; split; [reflexivity |];
          split; [reflexivity |]; split; [reflexivity |]; split; [exact Hp |];
          split; [exact Hin |]; split; reflexivity |].
  exact (insert_rejects_equal_key (H := no_floats) ex_users [VInt 1; VText "Ann"]
           (<["id" := VInt 1]> {["name" := VText "Ann"]}) ex_row_1 (VInt 1) (VInt 1)
           ex_users_synced eq_refl eq_refl eq_refl Hp Hin eq_refl eq_refl).
Defined.

Lemma integer_text_round_trip_witness :
  within_digit_limit (-7)
  /\ int_of_text (str_of_int (-7)) = Some (-7)%Z
  /\ convert_value (H := no_floats) (VInt (-7)) "TEXT" = Converted (VText "-7")
  /\ convert_value (H := no_floats) (VText "-7") "INT" = Converted (VInt (-7))
  /\ _parse_single_value (H := no_floats) "-7" = VInt (-7).
Proof.
  assert (Hl : within_digit_limit (-7)) by (apply within_digit_limit_small; reflexivity).
  split; [exact Hl |].
  exact (integer_text_round_trip (H := no_floats) (-7) Hl).
Defined.

Lemma converted_value_is_settled_witness :
  convert_value (H := no_floats) (VText " 42 ") "int" = Converted (VInt 42)
  /\ (validate_type (VInt 42) "int" = true
      /\ convert_value (H := no_floats) (VInt 42) "int" = Converted (VInt 42)).
Proof.
  split; [reflexivity |].
  exact (converted_value_is_settled (H := no_floats) (VText " 42 ") "int" (VInt 42)
           eq_refl).
Defined.

Lemma small_integer_survives_float_column_witness :
  (Z.abs (-7) < 2 ^ 53)%Z
  /\ exists f, convert_value (H := no_floats) (VInt (-7)) "FLOAT" = Converted (VFloat f)
               /\ py_eq (VFloat f) (VInt (-7)) = true
               /\ convert_value (H := no_floats) (VFloat f) "INT" = Converted (VInt (-7)).
Proof.
  split; [reflexivity |].
  exact (small_integer_survives_float_column (H := no_floats) (-7) eq_refl).
Defined.

Lemma database_tables_are_reachable_witness :
  run_statements (H := no_floats) ∅ cex_statements !! "users" = Some cex_users
  /\ exists columns primary_key unique_columns (ops : list operation),
       cex_users
       = run (H := no_floats) (Table.init "users" columns primary_key unique_columns) ops
       /\ primary_key ∈ map fst columns
       /\ Table.name cex_users = "users".
Proof.
  split; [reflexivity |].
  exact (database_tables_are_reachable (H := no_floats) cex_statements "users"
           cex_users eq_refl).
Defined.

Lemma tables_persist_with_their_schema_witness :
  ex_tables !! "users" = Some ex_users
  /\ ((exists t', run_statements (H := no_floats) ex_tables ex_statements !! "users"
                  = Some t' /\ same_schema t' ex_users)
      /\ forall columns primary_key unique_columns,
           SimpleDB.route (H := no_floats) ex_tables
             (SimpleDB.CREATE_TABLE "users" columns primary_key unique_columns)
           = (ex_tables,
              Returned (status false ("Table '" +:+ "users" +:+ "' already exists")))).
Proof.
  split; [reflexivity |].
  exact (tables_persist_with_their_schema (H := no_floats) ex_tables ex_statements
           "users" ex_users eq_refl).
Defined.

Lemma statement_changes_only_its_table_witness :
  statement_table (SimpleDB.DELETE "users" (Some ex_where_id_1)) <> Some "orders"
  /\ fst (SimpleDB.route (H := no_floats) ex_tables
            (SimpleDB.DELETE "users" (Some ex_where_id_1))) !! "orders"
     = ex_tables !! "orders".
Proof.
  assert (Hne : statement_table (SimpleDB.DELETE "users" (Some ex_where_id_1))
                <> Some "orders") by discriminate.
  split; [exact Hne |].
  exact (statement_changes_only_its_table (H := no_floats) ex_tables
           (SimpleDB.DELETE "users" (Some ex_where_id_1)) "orders" Hne).
Defined.

Lemma join_rows_are_the_matching_pairs_witness :
  (SimpleDB.get_table ex_tables "users" = Some ex_users
   /\ SimpleDB.get_table ex_tables "orders" = Some ex_orders
   /\ "id" ∈ Table.column_names ex_users
   /\ "user_id" ∈ Table.column_names ex_orders
   /\ complete ex_users /\ complete ex_orders
   /\ identifier "users" /\ identifier "orders"
   /\ "users" <> "orders")
  /\ SimpleDB._handle_select_join ex_tables (ex_join None)
     = Returned (Result true "Selected 3 row(s) from JOIN" (Some ex_join_columns)
                   (Some (ex_joined_1 ++ ex_joined_2))).
Proof.
  assert (H1 : "id" ∈ Table.column_names ex_users) by left.
  assert (H2 : "user_id" ∈ Table.column_names ex_orders) by (right; left).
  assert (C1 : complete ex_users) by (apply complete_check_sound; reflexivity).
  assert (C2 : complete ex_orders) by (apply complete_check_sound; reflexivity).
  assert (I1 : identifier "users") by (repeat constructor).
  assert (I2 : identifier "orders") by (repeat constructor).
  assert (Hne : "users" <> "orders") by discriminate.
  split; [repeat split; solve [reflexivity | assumption] |].
  exact (join_rows_are_the_matching_pairs ex_tables (ex_join None) ex_users ex_orders
           eq_refl eq_refl H1 H2 C1 C2 I1 I2 Hne eq_refl eq_refl).
Defined.

Lemma quoted_commas_do_not_split_witness :
  (is_quote squote = true
   /\ Forall (fun c => c <> squote) (list_ascii_of_string "a, b"))
  /\ (segments "'a, b'" = ["a, b"]
      /\ _parse_values (H := no_floats) "'a, b'" = [VText "a, b"]).
Proof.
  assert (F : Forall (fun c => c <> squote) (list_ascii_of_string "a, b"))
    by (repeat constructor; discriminate).
  split; [split; [reflexivity | exact F] |].
  exact (quoted_commas_do_not_split (H := no_floats) squote
           (list_ascii_of_string "a, b") eq_refl F).
Defined.

Lemma where_text_parses_witness :
  (list_ascii_of_string "id" <> []
   /\ Forall (fun c => is_word c = true) (list_ascii_of_string "id")
   /\ Forall (fun c => is_space c = true) (list_ascii_of_string " ")
   /\ Forall (fun c => is_space c = true) (list_ascii_of_string "  ")
   /\ strip_chars (list_ascii_of_string "'Jo'") = list_ascii_of_string "'Jo'"
   /\ Forall (fun c => not_newline c = true) (list_ascii_of_string "'Jo'"))
  /\ _parse_where (H := no_floats) "id =  'Jo'" = Some (Where "id" (VText "Jo")).
Proof.
  assert (Hne : list_ascii_of_string "id" <> []) by discriminate.
  assert (Fc : Forall (fun c => is_word c = true) (list_ascii_of_string "id"))
    by (repeat constructor).
  assert (F1 : Forall (fun c => is_space c = true) (list_ascii_of_string " "))
    by (repeat constructor).
  assert (F2 : Forall (fun c => is_space c = true) (list_ascii_of_string "  "))
    by (repeat constructor).
  assert (Fn : Forall (fun c => not_newline c = true) (list_ascii_of_string "'Jo'"))
    by (repeat constructor).
  split; [repeat split; solve [assumption | reflexivity] |].
  exact (where_text_parses (H := no_floats) (list_ascii_of_string "id")
           (list_ascii_of_string " ") (list_ascii_of_string "  ")
           squote (list_ascii_of_string "Jo'") Hne Fc F1 F2 eq_refl Fn).
Defined.

Lemma insert_accepts_fresh_row_witness :
  (table_synced ex_users
   /\ length [VInt 3; VText "Jim"] = length (Table.columns ex_users)
   /\ Table.build_row (H := no_floats) (Table.columns ex_users) [VInt 3; VText "Jim"] ∅
      = Table.Built ex_row_3
   /\ ex_row_3 !! Table.primary_key ex_users = Some (VInt 3)
   /\ Forall (fun r0 : row =>
                row_matches (Where (Table.primary_key ex_users) (VInt 3)) r0 = false)
             (Table.rows ex_users)
   /\ (forall c, c ∈ Table.unique_columns ex_users ->
         exists x, ex_row_3 !! c = Some x
                   /\ Forall (fun r0 : row => row_matches (Where c x) r0 = false)
                             (Table.rows ex_users)))
  /\ exists tbl',
       Table.insert (H := no_floats) ex_users [VInt 3; VText "Jim"]
       = (tbl', Returned (status true
                  ("Inserted 1 row into '" +:+ Table.name ex_users +:+ "'")))
       /\ Table.rows tbl' = Table.rows ex_users ++ [ex_row_3]
       /\ table_synced tbl'.
Proof.
  assert (Hno : Forall (fun r0 : row =>
                  row_matches (Where (Table.primary_key ex_users) (VInt 3)) r0 = false)
                (Table.rows ex_users)) by (repeat constructor).
  assert (Hun : forall c, c ∈ Table.unique_columns ex_users ->
            exists x, ex_row_3 !! c = Some x
                      /\ Forall (fun r0 : row => row_matches (Where c x) r0 = false)
                                (Table.rows ex_users))
    by (intros c Hc; inversion Hc).
  split; [split; [exact ex_users_synced |]; split; [reflexivity |];
          split; [reflexivity |]; split; [reflexivity |];
          split; [exact Hno | exact Hun] |].
  exact (insert_accepts_fresh_row (H := no_floats) ex_users [VInt 3; VText "Jim"]
           ex_row_3 (VInt 3) ex_users_synced eq_refl eq_refl eq_refl Hno Hun).
Defined.

Lemma self_join_shows_the_right_row_twice_witness :
  (SimpleDB.left_table ex_self_join = SimpleDB.right_table ex_self_join
   /\ SimpleDB.get_table ex_tables "orders" = Some ex_orders
   /\ "user_id" ∈ Table.column_names ex_orders
   /\ complete ex_orders)
  /\ SimpleDB._handle_select_join ex_tables ex_self_join
     = Returned (Result true "Selected 5 row(s) from JOIN"
         (Some ["orders.id"; "orders.user_id"; "orders.product";
                "orders.id"; "orders.user_id"; "orders.product"])
         (Some (map (fun cells => cells ++ cells)
                  [ [Some (VInt 101); Some (VInt 1); Some (VText "Laptop")];
                    [Some (VInt 102); Some (VInt 1); Some (VText "Mouse")];
                    [Some (VInt 101); Some (VInt 1); Some (VText "Laptop")];
                    [Some (VInt 102); Some (VInt 1); Some (VText "Mouse")];
                    [Some (VInt 103); Some (VInt 2); Some (VText "Keyboard")] ]))).
Proof.
  assert (Hc : "user_id" ∈ Table.column_names ex_orders) by (right; left).
  assert (C : complete ex_orders) by (apply complete_check_sound; reflexivity).
  split; [split; [reflexivity |]; split; [reflexivity |]; split; assumption |].
  exact (self_join_shows_the_right_row_twice ex_tables ex_self_join ex_orders
           eq_refl eq_refl Hc Hc C eq_refl eq_refl).
Defined.

Lemma name_chars_users : name_chars (list_ascii_of_string "users").
Proof. split; [discriminate | repeat constructor]. Qed.

Lemma name_chars_orders : name_chars (list_ascii_of_string "orders").
Proof. split; [discriminate | repeat constructor]. Qed.

Lemma name_chars_id : name_chars (list_ascii_of_string "id").
Proof. split; [discriminate | repeat constructor]. Qed.

Lemma name_chars_user_id : name_chars (list_ascii_of_string "user_id").
Proof. split; [discriminate | repeat constructor]. Qed.

Lemma name_chars_rejoined : name_chars (list_ascii_of_string "rejoined").
Proof. split; [discriminate | repeat constructor]. Qed.

Lemma insert_statement_parses_witness :
  (name_chars (list_ascii_of_string "users")
   /\ Forall (fun c => Re.dot c = true) (list_ascii_of_string "1, 'John Doe'"))
  /\ Statements.parse (H := no_floats) "INSERT INTO users VALUES (1, 'John Doe')"
     = Some (Statements.Parsed (SimpleDB.INSERT "users" [VInt 1; VText "John Doe"]))
  /\ forall tables,
       execute (H := no_floats) tables "INSERT INTO users VALUES (1, 'John Doe')"
       = Some (SimpleDB._handle_insert (H := no_floats) tables "users" [VInt 1; VText "John Doe"]).
Proof.
  assert (F : Forall (fun c => Re.dot c = true) (list_ascii_of_string "1, 'John Doe'"))
    by (repeat constructor).
  split; [split; [exact name_chars_users | exact F] |].
  exact (insert_statement_parses (H := no_floats) (list_ascii_of_string "users")
           (list_ascii_of_string "1, 'John Doe'") name_chars_users F).
Defined.

Lemma delete_statement_parses_witness :
  name_chars (list_ascii_of_string "users")
  /\ Statements.parse (H := no_floats) "DELETE FROM users"
     = Some (Statements.Parsed (SimpleDB.DELETE "users" None))
  /\ execute (H := no_floats) ex_tables "DELETE FROM users"
     = Some (ex_tables,
             Returned (status false "DELETE without WHERE clause is not supported"))
  /\ Statements.parse (H := no_floats) "DELETE FROM users WHERE id = 1"
     = Some (Statements.Parsed (SimpleDB.DELETE "users" (Some (Where "id" (VInt 1))))).
Proof.
  assert (Fw : Forall (fun c => Re.dot c = true) (list_ascii_of_string "id = 1"))
    by (repeat constructor).
  split; [exact name_chars_users |].
  destruct (delete_statement_parses (H := no_floats) (list_ascii_of_string "users")
              name_chars_users) as (P0 & E & P1).
  split; [exact P0 |]. split.
  - exact (E ex_tables ex_users eq_refl).
  - exact (P1 "i"%char (list_ascii_of_string "d = 1") eq_refl eq_refl Fw).
Defined.

Lemma qualified_where_of_join_statement_is_dropped_witness :
  (name_chars (list_ascii_of_string "users")
   /\ name_chars (list_ascii_of_string "orders")
   /\ name_chars (list_ascii_of_string "users")
   /\ name_chars (list_ascii_of_string "id")
   /\ name_chars (list_ascii_of_string "orders")
   /\ name_chars (list_ascii_of_string "user_id")
   /\ Forall (fun c => is_word c = true) (list_ascii_of_string "users")
   /\ Forall (fun c => Re.dot c = true) (list_ascii_of_string "id = 1")
   /\ rstrip_chars (list_ascii_of_string "id = 1") = list_ascii_of_string "id = 1")
  /\ Statements.parse (H := no_floats)
       "SELECT * FROM users JOIN orders ON users.id = orders.user_id"
     = Some (Statements.Parsed (SimpleDB.SELECT_JOIN (ex_join None)))
  /\ Statements.parse (H := no_floats)
       "SELECT * FROM users JOIN orders ON users.id = orders.user_id WHERE users.id = 1"
     = Some (Statements.Parsed (SimpleDB.SELECT_JOIN (ex_join None)))
  /\ forall tables,
       execute (H := no_floats) tables
         "SELECT * FROM users JOIN orders ON users.id = orders.user_id WHERE users.id = 1"
       = execute (H := no_floats) tables
           "SELECT * FROM users JOIN orders ON users.id = orders.user_id".
Proof.
  assert (Ft : Forall (fun c => is_word c = true) (list_ascii_of_string "users"))
    by (repeat constructor).
  assert (Fw : Forall (fun c => Re.dot c = true) (list_ascii_of_string "id = 1"))
    by (repeat constructor).
  split; [repeat split; solve [discriminate | assumption | reflexivity
                              | repeat constructor] |].
  exact (qualified_where_of_join_statement_is_dropped (H := no_floats)
           (list_ascii_of_string "users") (list_ascii_of_string "orders")
           (list_ascii_of_string "users") (list_ascii_of_string "id")
           (list_ascii_of_string "orders") (list_ascii_of_string "user_id")
           (list_ascii_of_string "users") (list_ascii_of_string "id = 1")
           name_chars_users name_chars_orders name_chars_users name_chars_id
           name_chars_orders name_chars_user_id Ft Fw eq_refl).
Defined.

Lemma select_from_table_named_join_fails_witness :
  (name_chars (list_ascii_of_string "rejoined")
   /\ Str.contains (list_ascii_of_string "JOIN")
        (map upper_char (list_ascii_of_string "rejoined")) = true)
  /\ Statements.parse (H := no_floats) "SELECT * FROM rejoined" = Some (Statements.Failed Statements.join_syntax)
  /\ forall tables,
       execute (H := no_floats) tables "SELECT * FROM rejoined"
       = Some (tables, Returned (status false Statements.join_syntax)).
Proof.
  split; [split; [exact name_chars_rejoined | reflexivity] |].
  exact (select_from_table_named_join_fails (H := no_floats)
           (list_ascii_of_string "rejoined") name_chars_rejoined eq_refl).
Defined.


Lemma name_chars_name : name_chars (list_ascii_of_string "name").
Proof. split; [discriminate | repeat constructor]. Qed.

Lemma update_statement_parses_witness :
  (name_chars (list_ascii_of_string "users")
   /\ name_chars (list_ascii_of_string "name")
   /\ strip_chars (list_ascii_of_string "'Jane Smith'")
      = list_ascii_of_string "'Jane Smith'"
   /\ Forall (fun c => Re.dot c = true) (list_ascii_of_string "'Jane Smith'")
   /\ Forall (fun c => c <> ","%char) (list_ascii_of_string "'Jane Smith'")
   /\ no_where_start (list_ascii_of_string " 'Jane Smith'") = true)
  /\ Statements.parse (H := no_floats) "UPDATE users SET name = 'Jane Smith'"
     = Some (Statements.Parsed (SimpleDB.UPDATE "users" [("name", VText "Jane Smith")] None))
  /\ Statements.parse (H := no_floats) "UPDATE users SET name = 'Jane Smith' WHERE id = 2"
     = Some (Statements.Parsed (SimpleDB.UPDATE "users" [("name", VText "Jane Smith")]
                       (Some (Where "id" (VInt 2))))).
Proof.
  assert (Fd : Forall (fun c => Re.dot c = true) (list_ascii_of_string "'Jane Smith'"))
    by (repeat constructor).
  assert (Fc : Forall (fun c => c <> ","%char) (list_ascii_of_string "'Jane Smith'"))
    by (repeat (constructor; [discriminate |]); constructor).
  assert (Fw : Forall (fun c => Re.dot c = true) (list_ascii_of_string "id = 2"))
    by (repeat constructor).
  split; [split; [exact name_chars_users |]; split; [exact name_chars_name |];
          split; [reflexivity |]; split; [exact Fd |]; split; [exact Fc | reflexivity] |].
  destruct (update_statement_parses (H := no_floats) (list_ascii_of_string "users")
              (list_ascii_of_string "name") 1 1 squote
              (list_ascii_of_string "Jane Smith'")
              name_chars_users name_chars_name eq_refl Fd Fc eq_refl) as (P0 & P1).
  split.
  - exact P0.
  - exact (P1 "i"%char (list_ascii_of_string "d = 2") eq_refl eq_refl Fw).
Defined.

